(** * Crumble Bakery landing page: the e-mail form core

    A shallow embedding of [src/js/form-validation.js]: the classes
    [EmailValidator], [LocalStorageManager] and [EmailSubmissionHandler],
    followed by the properties of the written specification that hold of
    them (and the ones that do not, with the inputs that show it). *)

From Stdlib Require Import String Ascii.
From Stdlib Require Import List NArith ZArith QArith Bool Lia.
Import ListNotations.
Close Scope Q_scope.

Set Implicit Arguments.

(** ** JavaScript strings

    A JavaScript string is a sequence of UTF-16 code units; [length],
    [trim], [split], [startsWith], [endsWith] and [includes] all work on
    code units, so that is what a string is here. *)

Module JsString.

Definition code_unit := N.
Definition jsstring := list code_unit.

(** A Rocq string literal read as a JavaScript string (ASCII only). *)
Definition js (s : string) : jsstring :=
  map N_of_ascii (list_ascii_of_string s).

Definition ch (a : ascii) : code_unit := N_of_ascii a.

Definition in_range (lo hi c : code_unit) : bool :=
  (lo <=? c)%N && (c <=? hi)%N.

(** ECMAScript WhiteSpace and LineTerminator: what [String.prototype.trim]
    removes.  All of them are in the basic plane, one code unit each. *)
Definition is_white_space (c : code_unit) : bool :=
  (in_range 9 13 c            (* TAB, LF, VT, FF, CR *)
   || (c =? 32)               (* SPACE *)
   || (c =? 160)              (* NO-BREAK SPACE *)
   || (c =? 5760)             (* U+1680 *)
   || in_range 8192 8202 c    (* U+2000 .. U+200A *)
   || in_range 8232 8233 c    (* U+2028, U+2029 *)
   || (c =? 8239)             (* U+202F *)
   || (c =? 8287)             (* U+205F *)
   || (c =? 12288)            (* U+3000 *)
   || (c =? 65279))%N.        (* U+FEFF *)

Fixpoint trimStart (s : jsstring) : jsstring :=
  match s with
  | [] => []
  | c :: s' => if is_white_space c then trimStart s' else s
  end.

Definition trimEnd (s : jsstring) : jsstring := rev (trimStart (rev s)).

Definition trim (s : jsstring) : jsstring := trimEnd (trimStart s).

Fixpoint startsWith (s p : jsstring) : bool :=
  match p, s with
  | [], _ => true
  | _ :: _, [] => false
  | a :: p', b :: s' => (a =? b)%N && startsWith s' p'
  end.

Definition endsWith (s p : jsstring) : bool := startsWith (rev s) (rev p).

Fixpoint includes (s p : jsstring) : bool :=
  startsWith s p ||
  match s with
  | [] => false
  | _ :: s' => includes s' p
  end.

(** [s.split(sep)] for a one-character separator. *)
Fixpoint split (sep : code_unit) (s : jsstring) : list jsstring :=
  match s with
  | [] => [[]]
  | c :: s' =>
      if (c =? sep)%N then [] :: split sep s'
      else match split sep s' with
           | x :: xs => (c :: x) :: xs
           | [] => [[c]]
           end
  end.

(** [(s.match(/c/g) || []).length]: the number of occurrences of [c]. *)
Fixpoint count_matches (c : code_unit) (s : jsstring) : nat :=
  match s with
  | [] => 0
  | x :: s' => (if (x =? c)%N then 1 else 0) + count_matches c s'
  end.

Definition str_eqb (a b : jsstring) : bool :=
  if list_eq_dec N.eq_dec a b then true else false.

End JsString.
Import JsString.

(** ** Regular expressions

    The three patterns of the validator use character classes,
    sequencing, [+], [*], [?], [{0,61}] and the anchors [^] and [$]; for
    such patterns [RegExp.prototype.test] answers whether the whole string
    is in the language of the pattern.  The matcher works by derivatives. *)

Module Regex.

Inductive regex : Type :=
| Void
| Eps
| Class (p : code_unit -> bool)
| Seq (r1 r2 : regex)
| Alt (r1 r2 : regex)
| Star (r : regex).

(** [r+], [r?] and [r{0,n}] *)
Definition Plus (r : regex) : regex := Seq r (Star r).
Definition Opt (r : regex) : regex := Alt r Eps.
Fixpoint Upto (n : nat) (r : regex) : regex :=
  match n with
  | O => Eps
  | S n' => Opt (Seq r (Upto n' r))
  end.

Fixpoint nullable (r : regex) : bool :=
  match r with
  | Void => false
  | Eps => true
  | Class _ => false
  | Seq r1 r2 => nullable r1 && nullable r2
  | Alt r1 r2 => nullable r1 || nullable r2
  | Star _ => true
  end.

Fixpoint deriv (c : code_unit) (r : regex) : regex :=
  match r with
  | Void => Void
  | Eps => Void
  | Class p => if p c then Eps else Void
  | Seq r1 r2 =>
      if nullable r1 then Alt (Seq (deriv c r1) r2) (deriv c r2)
      else Seq (deriv c r1) r2
  | Alt r1 r2 => Alt (deriv c r1) (deriv c r2)
  | Star r1 => Seq (deriv c r1) (Star r1)
  end.

(** [/^r$/.test(s)] *)
Fixpoint test (r : regex) (s : jsstring) : bool :=
  match s with
  | [] => nullable r
  | c :: s' => test (deriv c r) s'
  end.

(** The language of a pattern. *)
Inductive lang : regex -> jsstring -> Prop :=
| LEps : lang Eps []
| LClass p c : p c = true -> lang (Class p) [c]
| LSeq r1 r2 s1 s2 : lang r1 s1 -> lang r2 s2 -> lang (Seq r1 r2) (s1 ++ s2)
| LAltL r1 r2 s : lang r1 s -> lang (Alt r1 r2) s
| LAltR r1 r2 s : lang r2 s -> lang (Alt r1 r2) s
| LStarNil r : lang (Star r) []
| LStarApp r s1 s2 : lang r s1 -> lang (Star r) s2 -> lang (Star r) (s1 ++ s2).

End Regex.
Import Regex.

(** ** FORM_CONFIG *)

Module FORM_CONFIG.

Definition is_alpha (c : code_unit) : bool :=
  in_range (ch "a") (ch "z") c || in_range (ch "A") (ch "Z") c.
Definition is_digit (c : code_unit) : bool := in_range (ch "0") (ch "9") c.
Definition is_alnum (c : code_unit) : bool := is_alpha c || is_digit c.
Definition is_char (a : ascii) (c : code_unit) : bool := (c =? ch a)%N.

(** [[a-zA-Z0-9-]] *)
Definition is_label_char (c : code_unit) : bool := is_alnum c || is_char "-" c.

(** [[a-zA-Z0-9.!#$%&'*+/=?^_`{|}~-]] *)
Definition is_local_char (c : code_unit) : bool :=
  is_alnum c || existsb (N.eqb c) (js ".!#$%&'*+/=?^_`{|}~-").

(** [[a-zA-Z0-9](?:[a-zA-Z0-9-]{0,61}[a-zA-Z0-9])?] *)
Definition label_regex : regex :=
  Seq (Class is_alnum)
      (Opt (Seq (Upto 61 (Class is_label_char)) (Class is_alnum))).

Module VALIDATION.

(** [/^[a-zA-Z0-9.!#$%&'*+/=?^_`{|}~-]+@label(?:\.label)*$/] *)
Definition emailRegex : regex :=
  Seq (Plus (Class is_local_char))
      (Seq (Class (is_char "@"))
           (Seq label_regex
                (Star (Seq (Class (is_char ".")) label_regex)))).
Definition minLength : nat := 5.
Definition maxLength : nat := 254.

End VALIDATION.

(** The texts of [FORM_CONFIG.MESSAGES] (and the one literal of
    [validate]), by name. *)
Inductive message : Type :=
| required | invalid | tooShort | tooLong
| submitting | success | networkError | serverError
| alreadySubscribed | rateLimited
| validEmailAddress.

End FORM_CONFIG.
Import FORM_CONFIG.

(** ** class EmailValidator *)

Module EmailValidator.

Record ValidationResult : Type :=
  { isValid : bool; message : FORM_CONFIG.message }.

(** [validateLocalPart(local)]; [None] is [undefined]. *)
Definition validateLocalPart (local : option jsstring) : bool :=
  match local with
  | None => false
  | Some local =>
      if (length local =? 0) || (64 <? length local) then false
      else if startsWith local (js ".") || endsWith local (js ".")
              || includes local (js "..")
      then false
      else true
  end.

(** The body of the loop [for (const part of domainParts)]: [true] when
    the part passes the three checks. *)
Definition domain_part_ok (part : jsstring) : bool :=
  if (length part =? 0) || (63 <? length part) then false
  else if negb (test (Plus (Class is_label_char)) part) then false
  else if startsWith part (js "-") || endsWith part (js "-") then false
  else true.

(** [validateDomainPart(domain)]; [None] is [undefined]. *)
Definition validateDomainPart (domain : option jsstring) : bool :=
  match domain with
  | None => false
  | Some domain =>
      if (length domain =? 0) || (253 <? length domain) then false
      else
        let domainParts := split (ch ".") domain in
        if length domainParts <? 2 then false
        else if negb (forallb domain_part_ok domainParts) then false
        else
          let tld := last domainParts [] in
          if (length tld <? 2) || negb (test (Plus (Class is_alpha)) tld)
          then false
          else true
  end.

(** [validateEmailStructure(email)] *)
Definition validateEmailStructure (email : jsstring) : bool :=
  if negb (count_matches (ch "@") email =? 1) then false
  else
    let parts := split (ch "@") email in
    let local := nth_error parts 0 in
    let domain := nth_error parts 1 in
    if negb (validateLocalPart local) then false
    else if negb (validateDomainPart domain) then false
    else true.

(** [validate(email)] *)
Definition validate (email : jsstring) : ValidationResult :=
  if match email with [] => true | _ => false end
     || str_eqb (trim email) []
  then {| isValid := false; message := required |}
  else
    let email := trim email in
    if length email <? VALIDATION.minLength
    then {| isValid := false; message := tooShort |}
    else if VALIDATION.maxLength <? length email
    then {| isValid := false; message := tooLong |}
    else if negb (test VALIDATION.emailRegex email)
    then {| isValid := false; message := invalid |}
    else if negb (validateEmailStructure email)
    then {| isValid := false; message := invalid |}
    else {| isValid := true; message := validEmailAddress |}.

End EmailValidator.
Import EmailValidator.

(** ** The browser's [localStorage], as this file uses it

    Two keys are used.  What is kept under a key is a text; the code only
    ever looks at it through [JSON.parse], so a text is represented by
    what [JSON.parse] makes of it, and [JSON.stringify] builds the text
    that parses back to the value it is given.  Numbers are integers (what
    [Date.now()] and the attempt counter are), in the range where
    JavaScript's arithmetic on them is exact. *)

Module Storage.

Inductive text (A : Type) : Type :=
| EmptyText            (* the empty string: falsy *)
| NotJson              (* JSON.parse throws a SyntaxError *)
| Json (v : A).        (* JSON.parse returns v *)
Arguments EmptyText {A}.
Arguments NotJson {A}.

(** Under [crumbleBakery_emailSubmissions]: an array (of strings, and
    possibly of other things), a string, or another JSON value. *)
Inductive element : Type :=
| Str (s : jsstring)
| NotStr.

Inductive submissions_value : Type :=
| SArray (l : list element)
| SString (s : jsstring)
| SOther.              (* null, a boolean, a number, an object *)

(** Under [crumbleBakery_rateLimiting]: an object whose fields
    [timestamp] and [attempts] are numbers or missing ([None], which reads
    as [undefined]), or another JSON value.  The numbers are integers, as
    [Date.now()] and the counter of [recordAttempt] are; an object with a
    string, a boolean, [null], an array or a fraction in one of the two
    fields, which this code never writes and whose comparisons would go
    through the coercions of the language, is not represented. *)
Inductive rate_value : Type :=
| RObject (timestamp attempts : option Z)
| RArray
| RPrimitive           (* a boolean, a number, a string *)
| RNull.

Record localStorage : Type :=
  { accessible : bool;      (* false: every access throws (storage denied) *)
    writable : bool;        (* false: setItem throws (quota exceeded) *)
    emailSubmissions : option (text submissions_value);
    rateLimiting : option (text rate_value) }.

Inductive exn : Type :=
| StorageError
| SyntaxError
| TypeError
| Error (m : FORM_CONFIG.message).

(** Code that reads and writes the storage and may throw. *)
Definition M (A : Type) : Type := localStorage -> (exn + A) * localStorage.

Definition ret {A} (a : A) : M A := fun st => (inr a, st).
Definition throw {A} (e : exn) : M A := fun st => (inl e, st).
Definition bind {A B} (m : M A) (k : A -> M B) : M B :=
  fun st =>
    match m st with
    | (inr a, st') => k a st'
    | (inl e, st') => (inl e, st')
    end.
Definition try_catch {A} (m : M A) (handler : exn -> M A) : M A :=
  fun st =>
    match m st with
    | (inr a, st') => (inr a, st')
    | (inl e, st') => handler e st'
    end.

Record key (A : Type) : Type :=
  { read : localStorage -> option (text A);
    write : option (text A) -> localStorage -> localStorage }.

Definition storageKey : key submissions_value :=
  {| read := emailSubmissions;
     write := fun t st =>
       {| accessible := accessible st; writable := writable st;
          emailSubmissions := t; rateLimiting := rateLimiting st |} |}.

Definition rateLimitKey : key rate_value :=
  {| read := rateLimiting;
     write := fun t st =>
       {| accessible := accessible st; writable := writable st;
          emailSubmissions := emailSubmissions st; rateLimiting := t |} |}.

Definition getItem {A} (k : key A) : M (option (text A)) :=
  fun st =>
    if accessible st then (inr (read k st), st) else (inl StorageError, st).

Definition setItem {A} (k : key A) (t : text A) : M unit :=
  fun st =>
    if accessible st && writable st then (inr tt, write k (Some t) st)
    else (inl StorageError, st).

Definition removeItem {A} (k : key A) : M unit :=
  fun st =>
    if accessible st then (inr tt, write k None st)
    else (inl StorageError, st).

(** [JSON.parse(t)] for a string [t], [JSON.stringify(v)], and the
    truthiness of what [getItem] returns ([null] and [''] are falsy). *)
Definition JSON_parse {A} (t : text A) : M A :=
  match t with
  | Json v => ret v
  | EmptyText | NotJson => throw SyntaxError
  end.

Definition JSON_stringify {A} (v : A) : text A := Json v.

Definition truthy {A} (o : option (text A)) : option (text A) :=
  match o with
  | None | Some EmptyText => None
  | Some t => Some t
  end.

End Storage.
Import Storage.

Declare Scope storage_scope.
Delimit Scope storage_scope with storage.
Notation "x <- m ;; k" := (bind m (fun x => k))
  (at level 61, m at next level, right associativity) : storage_scope.
Notation "m ;; k" := (bind m (fun _ => k))
  (at level 61, right associativity) : storage_scope.
Notation "'try' m 'catch' h" := (try_catch m h)
  (at level 62, m at level 61, h at level 61) : storage_scope.

Local Open Scope storage_scope.

(** ** class LocalStorageManager *)

Module LocalStorageManager.
Section Host.

(** [String.prototype.toLowerCase] follows the Unicode case tables, which
    belong to the host. *)
Variable toLowerCase : jsstring -> jsstring.

Definition element_is (x : jsstring) (e : element) : bool :=
  match e with
  | Str s => str_eqb s x
  | NotStr => false
  end.

(** [submissions.includes(x)], [x] a string: [Array.prototype.includes]
    on an array, [String.prototype.includes] on a string, and a TypeError
    on a value that has no such method. *)
Definition value_includes (submissions : submissions_value) (x : jsstring)
  : M bool :=
  match submissions with
  | SArray l => ret (existsb (element_is x) l)
  | SString s => ret (includes s x)
  | SOther => throw TypeError
  end.

(** [submissions.push(x)]: only arrays have it. *)
Definition value_push (submissions : submissions_value) (x : jsstring)
  : M submissions_value :=
  match submissions with
  | SArray l => ret (SArray (l ++ [Str x]))
  | SString _ | SOther => throw TypeError
  end.

(** [getSubmissions()] *)
Definition getSubmissions : M submissions_value :=
  try
    (stored <- getItem storageKey;;
     match truthy stored with
     | Some stored => JSON_parse stored
     | None => ret (SArray [])
     end)
  catch (fun _ => ret (SArray [])).

(** [wasEmailSubmitted(email)] *)
Definition wasEmailSubmitted (email : jsstring) : M bool :=
  try
    (submissions <- getSubmissions;;
     value_includes submissions (toLowerCase email))
  catch (fun _ => ret false).

(** [storeSubmission(email)] *)
Definition storeSubmission (email : jsstring) : M unit :=
  try
    (submissions <- getSubmissions;;
     submissions <- value_push submissions (toLowerCase email);;
     setItem storageKey (JSON_stringify submissions))
  catch (fun _ => ret tt).

(** [const { timestamp, attempts } = v]: a TypeError on [null], and
    [undefined] twice on a value without these properties. *)
Definition destructure (v : rate_value) : M (option Z * option Z) :=
  match v with
  | RObject timestamp attempts => ret (timestamp, attempts)
  | RArray | RPrimitive => ret (None, None)
  | RNull => throw TypeError
  end.

Definition fiveMinutes : Z := 5 * 60 * 1000.

(** [now - timestamp > fiveMinutes]; with [timestamp] undefined the
    difference is NaN and the comparison is false. *)
Definition elapsed_gt (now : Z) (timestamp : option Z) (limit : Z) : bool :=
  match timestamp with
  | Some t => (now - t >? limit)%Z
  | None => false
  end.

(** [attempts >= 3]; false when [attempts] is undefined. *)
Definition ge3 (attempts : option Z) : bool :=
  match attempts with
  | Some a => (a >=? 3)%Z
  | None => false
  end.

(** [isRateLimited()]; [now] is what [Date.now()] returns. *)
Definition isRateLimited (now : Z) : M bool :=
  try
    (rateLimitData <- getItem rateLimitKey;;
     match truthy rateLimitData with
     | None => ret false
     | Some rateLimitData =>
         v <- JSON_parse rateLimitData;;
         ta <- destructure v;;
         let '(timestamp, attempts) := ta in
         if elapsed_gt now timestamp fiveMinutes
         then removeItem rateLimitKey;; ret false
         else ret (ge3 attempts)
     end)
  catch (fun _ => ret false).

(** [(attempts || 0) + 1] *)
Definition or0_plus1 (attempts : option Z) : Z :=
  match attempts with
  | Some a => (a + 1)%Z
  | None => 1%Z
  end.

(** [data.attempts = (data.attempts || 0) + 1; data.timestamp = now]:
    reading a property of [null] throws; in strict mode so does setting
    one on a primitive; on an array the two properties are set and then
    left out by [JSON.stringify]. *)
Definition bump (data : rate_value) (now : Z) : M rate_value :=
  match data with
  | RObject _ attempts => ret (RObject (Some now) (Some (or0_plus1 attempts)))
  | RArray => ret RArray
  | RPrimitive | RNull => throw TypeError
  end.

(** [recordAttempt()]; [now] is what [Date.now()] returns. *)
Definition recordAttempt (now : Z) : M unit :=
  try
    (rateLimitData <- getItem rateLimitKey;;
     match truthy rateLimitData with
     | Some rateLimitData =>
         data <- JSON_parse rateLimitData;;
         data <- bump data now;;
         setItem rateLimitKey (JSON_stringify data)
     | None =>
         setItem rateLimitKey
                 (JSON_stringify (RObject (Some now) (Some 1%Z)))
     end)
  catch (fun _ => ret tt).

End Host.
End LocalStorageManager.
Import LocalStorageManager.

(** ** class EmailSubmissionHandler *)

Module EmailSubmissionHandler.

Record SubmissionResult : Type :=
  { success : bool; message : FORM_CONFIG.message }.

Section Host.

Variable toLowerCase : jsstring -> jsstring.

(** [Math.random() < 0.05] *)
Definition lt_005 (random : Q) : bool := negb (Qle_bool (5 # 100) random).

(** [submitEmail(email)].  [now1] and [now2] are what [Date.now()]
    returns inside [isRateLimited] and [recordAttempt], [random] is the
    value of [Math.random()].  The promise is rejected with the [Error]
    thrown, or fulfilled with the result; while it waits for the timer
    (the [await]) nothing else is taken to touch the storage. *)
Definition submitEmail (now1 now2 : Z) (random : Q) (email : jsstring)
  : M SubmissionResult :=
  limited <- isRateLimited now1;;
  if limited then throw (Error rateLimited)
  else
    recordAttempt now2;;
    submitted <- wasEmailSubmitted toLowerCase email;;
    if submitted then throw (Error alreadySubscribed)
    else
      if lt_005 random then throw (Error networkError)
      else
        storeSubmission toLowerCase email;;
        ret {| success := true; message := FORM_CONFIG.success |}.

End Host.
End EmailSubmissionHandler.

(** ** Sequences of rate-limit calls *)

Inductive call : Type :=
| IsRateLimited (now : Z)
| RecordAttempt (now : Z).

Definition perform (c : call) (st : localStorage) : localStorage :=
  match c with
  | IsRateLimited now => snd (isRateLimited now st)
  | RecordAttempt now => snd (recordAttempt now st)
  end.

Definition after (cs : list call) (st : localStorage) : localStorage :=
  fold_left (fun st c => perform c st) cs st.

(** The [attempts] field of the stored rate-limit object, when there is
    one. *)
Definition attemptCount (st : localStorage) : option Z :=
  match rateLimiting st with
  | Some (Json (RObject _ attempts)) => attempts
  | _ => None
  end.

(** No rate-limit state: the key is absent (never set, or removed) or
    holds the empty text. *)
Definition no_rate_state (st : localStorage) : bool :=
  match truthy (rateLimiting st) with
  | None => true
  | Some _ => false
  end.




(** The rate-limit key holds nothing, or an object whose counter is
    missing or not negative. *)
Definition rate_sane (st : localStorage) : Prop :=
  match truthy (rateLimiting st) with
  | None => True
  | Some (Json (RObject _ (Some a))) => (0 <= a)%Z
  | Some (Json (RObject _ None)) => True
  | Some _ => False
  end.

(** ** Example stores *)

(** The lower-casing of the letters A to Z, which is what
    [toLowerCase] does on a string of ASCII characters. *)
Definition ascii_toLowerCase (s : jsstring) : jsstring :=
  map (fun c => if in_range (ch "A") (ch "Z") c then (c + 32)%N else c) s.

Definition fresh : localStorage :=
  {| accessible := true; writable := true;
     emailSubmissions := None; rateLimiting := None |}.

Definition seeded (emails : list jsstring) : localStorage :=
  {| accessible := true; writable := true;
     emailSubmissions := Some (Json (SArray (map Str emails)));
     rateLimiting := None |}.

Definition limited : localStorage :=
  {| accessible := true; writable := true;
     emailSubmissions := None;
     rateLimiting := Some (Json (RObject (Some 0%Z) (Some 3%Z))) |}.

(** A working storage with submissions and [attempts] attempts counted,
    the last one at [timestamp]; and a storage whose quota is used up. *)
Definition attempted (emails : list jsstring) (timestamp attempts : Z)
  : localStorage :=
  {| accessible := true; writable := true;
     emailSubmissions := Some (Json (SArray (map Str emails)));
     rateLimiting := Some (Json (RObject (Some timestamp) (Some attempts))) |}.


(** ** Normalization, in the words of the specification

    "Normalization: lower-casing and trimming an email string before
    storage/comparison." *)
Definition spec_normalize (toLowerCase : jsstring -> jsstring)
  (email : jsstring) : jsstring :=
  trim (toLowerCase email).

(** ** The rules of section 4.1, in the words of the specification

    "One [@]; local part: length 1-64, must not start or end with [.],
    must not contain [..]; domain part: at least two labels separated by
    [.], each label of length 1-63, made of [[A-Za-z0-9-]], not starting
    or ending with [-]; the final label (TLD) of length at least 2 and
    alphabetic only." *)

Module Spec41.

Fixpoint join (sep : code_unit) (parts : list jsstring) : jsstring :=
  match parts with
  | [] => []
  | x :: rest =>
      match rest with
      | [] => x
      | _ :: _ => x ++ sep :: join sep rest
      end
  end.

Record local_part_ok (l : jsstring) : Prop :=
  { local_length : 1 <= length l <= 64;
    local_first : hd_error l <> Some (ch ".");
    local_last : hd_error (rev l) <> Some (ch ".");
    local_no_two_dots : forall a b, l <> a ++ js ".." ++ b }.

Record label_ok (x : jsstring) : Prop :=
  { label_length : 1 <= length x <= 63;
    label_chars : Forall (fun c => is_label_char c = true) x;
    label_first : hd_error x <> Some (ch "-");
    label_last : hd_error (rev x) <> Some (ch "-") }.

Definition domain_ok (d : jsstring) : Prop :=
  exists labels tld,
    d = join (ch ".") (labels ++ [tld])
    /\ labels <> []
    /\ Forall label_ok (labels ++ [tld])
    /\ 2 <= length tld
    /\ Forall (fun c => is_alpha c = true) tld.

(** [t] is [l], the one [@], and [d]. *)
Definition parts_of (t l d : jsstring) : Prop :=
  t = l ++ ch "@" :: d /\ ~ In (ch "@") l /\ ~ In (ch "@") d.

Definition address_ok (t : jsstring) : Prop :=
  exists l d, parts_of t l d /\ local_part_ok l /\ domain_ok d.

(** The same with what the pattern of [emailRegex] adds: the characters
    allowed in the local part. *)
Definition address_accepted (t : jsstring) : Prop :=
  exists l d,
    parts_of t l d
    /\ Forall (fun c => is_local_char c = true) l
    /\ local_part_ok l /\ domain_ok d.

End Spec41.
Import Spec41.

(** ** Printable ASCII *)

(** The code units from [!] to [~]: ASCII without the controls, the
    space and DEL. *)
Definition is_printable_ascii (c : code_unit) : bool :=
  in_range 33%N 126%N c.

(** ** Renamings that patterns do not see

    Every character class of [r] gives the same answer on [c] and on
    [f c]. *)
Fixpoint class_stable (f : code_unit -> code_unit) (r : regex) : Prop :=
  match r with
  | Void | Eps => True
  | Class p => forall c, p (f c) = p c
  | Seq r1 r2 | Alt r1 r2 => class_stable f r1 /\ class_stable f r2
  | Star r1 => class_stable f r1
  end.

(** The lower-casing of one code unit of [ascii_toLowerCase]. *)
Definition ascii_lower (c : code_unit) : code_unit :=
  if in_range (ch "A") (ch "Z") c then (c + 32)%N else c.

(** ** Sequences of calls of the storage manager and of [submitEmail] *)

Inductive manager_call : Type :=
| CallGetSubmissions
| CallWasEmailSubmitted (email : jsstring)
| CallStoreSubmission (email : jsstring)
| CallIsRateLimited (now : Z)
| CallRecordAttempt (now : Z)
| CallSubmitEmail (now1 now2 : Z) (random : Q) (email : jsstring).

Section Calls.

Variable toLowerCase : jsstring -> jsstring.

Definition manager_step (c : manager_call) (st : localStorage)
  : localStorage :=
  match c with
  | CallGetSubmissions => snd (getSubmissions st)
  | CallWasEmailSubmitted email => snd (wasEmailSubmitted toLowerCase email st)
  | CallStoreSubmission email => snd (storeSubmission toLowerCase email st)
  | CallIsRateLimited now => snd (isRateLimited now st)
  | CallRecordAttempt now => snd (recordAttempt now st)
  | CallSubmitEmail now1 now2 random email =>
      snd (EmailSubmissionHandler.submitEmail toLowerCase now1 now2 random
             email st)
  end.

Definition manager_run (cs : list manager_call) (st : localStorage)
  : localStorage :=
  fold_left (fun st c => manager_step c st) cs st.

(** What [wasEmailSubmitted(email)] answers. *)
Definition submitted (email : jsstring) (st : localStorage) : bool :=
  match fst (wasEmailSubmitted toLowerCase email st) with
  | inr b => b
  | inl _ => false
  end.

End Calls.

(** A storage on which [storeSubmission] goes through: it can be read
    and written, and what it holds under the submissions key is an array
    or does not parse. *)
Definition can_store (st : localStorage) : bool :=
  accessible st && writable st &&
  match truthy (emailSubmissions st) with
  | Some (Json (SString _)) | Some (Json SOther) => false
  | _ => true
  end.

(** A call that neither records an attempt nor stores a submission when
    the last attempt was recorded at [t] and three or more are counted:
    a read of the submissions, or a rate-limit check or a submission
    made no later than five minutes after [t]. *)
Definition during_lockout (t : Z) (c : manager_call) : Prop :=
  match c with
  | CallGetSubmissions | CallWasEmailSubmitted _ => True
  | CallIsRateLimited now => (now - t <= fiveMinutes)%Z
  | CallSubmitEmail now1 _ _ _ => (now1 - t <= fiveMinutes)%Z
  | CallStoreSubmission _ | CallRecordAttempt _ => False
  end.

(** ** class EmailFormHandler

    The form handler keeps its state in the page: the value, the classes
    and the attributes of the elements it found with [querySelector], its
    own two fields [isSubmitting] and [debounceTimeout], and the timers it
    has set.  The page is taken to have the elements the selectors name,
    so that [init] bound the listeners and the tests [if (this.x)] of the
    methods succeed, and the e-mail input is taken to be focusable. *)

Module EmailFormHandler.

(** The texts of [FORM_CONFIG.MESSAGES], and the literal of [validate]. *)
Definition message_text (m : FORM_CONFIG.message) : jsstring :=
  match m with
  | required => js "Please enter your email address"
  | invalid => js "Please enter a valid email address"
  | tooShort => js "Email address is too short"
  | tooLong => js "Email address is too long"
  | submitting => js "Subscribing..."
  | FORM_CONFIG.success => js "Thank you! We'll notify you when we launch."
  | networkError => js "Network error. Please try again."
  | serverError => js "Something went wrong. Please try again later."
  | alreadySubscribed =>
      js "You're already subscribed! We'll be in touch soon."
  | rateLimited => js "Too many attempts. Please try again in a few minutes."
  | validEmailAddress => js "Valid email address"
  end.

(** [FORM_CONFIG.TIMING] and [FORM_CONFIG.VALIDATION.debounceDelay],
    in milliseconds. *)
Definition submitDelay : nat := 1500.
Definition successDisplayTime : nat := 5000.
Definition errorDisplayTime : nat := 4000.
Definition debounceDelay : nat := 300.

(** The functions this file gives to [setTimeout]. *)
Inductive callback : Type :=
| DebouncedValidation    (* the arrow function of handleInputChange *)
| DelayedInputChange     (* () => this.handleInputChange(), on paste *)
| HideSuccess            (* () => { this.hideSuccess(); } *)
| ClearError             (* () => { this.clearError(); } *)
| ClearAnnouncement      (* () => { announcementElement.textContent = ''; } *)
| ResumeSubmit (email : jsstring).
                         (* resolve: submitEmail and handleSubmit go on
                            after their await *)

Record timer : Type :=
  { timer_id : nat; delay : nat; callback_of : callback }.

(** [#email]: its value, whether its class list has [valid] and [error],
    its attribute [aria-invalid], and whether it has the focus. *)
Record input_element : Type :=
  { value : jsstring;
    class_valid : bool;
    class_error : bool;
    aria_invalid : option bool;
    focused : bool }.

(** [#submitBtn] *)
Record button_element : Type :=
  { disabled : bool;
    class_loading : bool;
    aria_label : option jsstring }.

(** [#emailError], and [#successMessage] with the text of its [span]. *)
Record message_element : Type :=
  { textContent : jsstring;
    class_show : bool }.

Record handler : Type :=
  { emailInput : input_element;
    submitButton : button_element;
    errorMessage : message_element;
    successMessage : message_element;
    announcementElement : jsstring;       (* its textContent *)
    isSubmitting : bool;
    debounceTimeout : option nat;
    timers : list timer;                  (* set and not yet run or cleared *)
    next_id : nat }.                      (* the id setTimeout gives next *)

Definition set_emailInput (x : input_element) (h : handler) : handler :=
  {| emailInput := x; submitButton := submitButton h;
     errorMessage := errorMessage h; successMessage := successMessage h;
     announcementElement := announcementElement h;
     isSubmitting := isSubmitting h; debounceTimeout := debounceTimeout h;
     timers := timers h; next_id := next_id h |}.

Definition set_submitButton (x : button_element) (h : handler) : handler :=
  {| emailInput := emailInput h; submitButton := x;
     errorMessage := errorMessage h; successMessage := successMessage h;
     announcementElement := announcementElement h;
     isSubmitting := isSubmitting h; debounceTimeout := debounceTimeout h;
     timers := timers h; next_id := next_id h |}.

Definition set_errorMessage (x : message_element) (h : handler) : handler :=
  {| emailInput := emailInput h; submitButton := submitButton h;
     errorMessage := x; successMessage := successMessage h;
     announcementElement := announcementElement h;
     isSubmitting := isSubmitting h; debounceTimeout := debounceTimeout h;
     timers := timers h; next_id := next_id h |}.

Definition set_successMessage (x : message_element) (h : handler)
  : handler :=
  {| emailInput := emailInput h; submitButton := submitButton h;
     errorMessage := errorMessage h; successMessage := x;
     announcementElement := announcementElement h;
     isSubmitting := isSubmitting h; debounceTimeout := debounceTimeout h;
     timers := timers h; next_id := next_id h |}.

Definition set_announcement (x : jsstring) (h : handler) : handler :=
  {| emailInput := emailInput h; submitButton := submitButton h;
     errorMessage := errorMessage h; successMessage := successMessage h;
     announcementElement := x;
     isSubmitting := isSubmitting h; debounceTimeout := debounceTimeout h;
     timers := timers h; next_id := next_id h |}.

Definition set_isSubmitting (x : bool) (h : handler) : handler :=
  {| emailInput := emailInput h; submitButton := submitButton h;
     errorMessage := errorMessage h; successMessage := successMessage h;
     announcementElement := announcementElement h;
     isSubmitting := x; debounceTimeout := debounceTimeout h;
     timers := timers h; next_id := next_id h |}.

Definition set_debounceTimeout (x : option nat) (h : handler) : handler :=
  {| emailInput := emailInput h; submitButton := submitButton h;
     errorMessage := errorMessage h; successMessage := successMessage h;
     announcementElement := announcementElement h;
     isSubmitting := isSubmitting h; debounceTimeout := x;
     timers := timers h; next_id := next_id h |}.

Definition set_timers (x : list timer) (n : nat) (h : handler) : handler :=
  {| emailInput := emailInput h; submitButton := submitButton h;
     errorMessage := errorMessage h; successMessage := successMessage h;
     announcementElement := announcementElement h;
     isSubmitting := isSubmitting h; debounceTimeout := debounceTimeout h;
     timers := x; next_id := n |}.

(** [setTimeout(cb, ms)]: the new timer's id, and the handler with the
    timer set. *)
Definition setTimeout (cb : callback) (ms : nat) (h : handler)
  : nat * handler :=
  (next_id h,
   set_timers (timers h ++ [{| timer_id := next_id h; delay := ms;
                               callback_of := cb |}])
              (S (next_id h)) h).

(** [clearTimeout(id)]; nothing happens for [null] or for an id that is
    not set. *)
Definition clearTimeout (id : option nat) (h : handler) : handler :=
  match id with
  | None => h
  | Some i =>
      set_timers (filter (fun t => negb (timer_id t =? i)) (timers h))
                 (next_id h) h
  end.

(** [showError(message)] *)
Definition showError (text : jsstring) (h : handler) : handler :=
  let h := set_errorMessage {| textContent := text; class_show := true |} h in
  set_emailInput
    {| value := value (emailInput h);
       class_valid := class_valid (emailInput h);
       class_error := true;
       aria_invalid := Some true;
       focused := focused (emailInput h) |} h.

(** [clearError()] *)
Definition clearError (h : handler) : handler :=
  let h :=
    set_errorMessage {| textContent := textContent (errorMessage h);
                        class_show := false |} h in
  set_emailInput
    {| value := value (emailInput h);
       class_valid := class_valid (emailInput h);
       class_error := false;
       aria_invalid := Some false;
       focused := focused (emailInput h) |} h.

(** [showSuccess(message)] *)
Definition showSuccess (text : jsstring) (h : handler) : handler :=
  set_successMessage {| textContent := text; class_show := true |} h.

(** [hideSuccess()] *)
Definition hideSuccess (h : handler) : handler :=
  set_successMessage {| textContent := textContent (successMessage h);
                        class_show := false |} h.

(** [clearMessages()] *)
Definition clearMessages (h : handler) : handler :=
  hideSuccess (clearError h).

(** [announceToScreenReader(message)] *)
Definition announceToScreenReader (text : jsstring) (h : handler)
  : handler :=
  let h := set_announcement text h in
  snd (setTimeout ClearAnnouncement 1000 h).

(** [setSubmittingState(isSubmitting)] *)
Definition setSubmittingState (b : bool) (h : handler) : handler :=
  let h := set_isSubmitting b h in
  set_submitButton
    {| disabled := b;
       class_loading := b;
       aria_label :=
         Some (if b then message_text submitting
               else js "Subscribe to notifications") |} h.

(** [emailInput.classList.add('valid')] and [remove('valid')] *)
Definition set_class_valid (b : bool) (h : handler) : handler :=
  set_emailInput
    {| value := value (emailInput h);
       class_valid := b;
       class_error := class_error (emailInput h);
       aria_invalid := aria_invalid (emailInput h);
       focused := focused (emailInput h) |} h.

(** [emailInput.value = v] *)
Definition set_value (v : jsstring) (h : handler) : handler :=
  set_emailInput
    {| value := v;
       class_valid := class_valid (emailInput h);
       class_error := class_error (emailInput h);
       aria_invalid := aria_invalid (emailInput h);
       focused := focused (emailInput h) |} h.

Definition set_focused (b : bool) (h : handler) : handler :=
  set_emailInput
    {| value := value (emailInput h);
       class_valid := class_valid (emailInput h);
       class_error := class_error (emailInput h);
       aria_invalid := aria_invalid (emailInput h);
       focused := b |} h.

(** [validateInput(email, showSuccess)] *)
Definition validateInput (email : jsstring) (showSuccess : bool)
  (h : handler) : bool * handler :=
  let validation := validate email in
  let h :=
    if isValid validation
    then
      let h := clearError h in
      if showSuccess then set_class_valid true h else h
    else
      let h := showError (message_text (EmailValidator.message validation)) h
      in set_class_valid false h
  in
  (isValid validation, h).

(** [handleInputChange()] *)
Definition handleInputChange (h : handler) : handler :=
  let h := clearTimeout (debounceTimeout h) h in
  let (id, h) := setTimeout DebouncedValidation debounceDelay h in
  set_debounceTimeout (Some id) h.

(** The function [handleInputChange] gives to [setTimeout]. *)
Definition debounced_validation (h : handler) : handler :=
  let email := trim (value (emailInput h)) in
  match email with
  | [] => clearMessages h
  | _ :: _ => snd (validateInput email false h)
  end.

(** The listener of the [focus] event of the input. *)
Definition on_focus (h : handler) : handler := clearMessages h.

(** [this.emailInput.focus()]: nothing when the input has the focus
    already; otherwise it gets it and its [focus] listener runs. *)
Definition focus (h : handler) : handler :=
  if focused (emailInput h) then h else on_focus (set_focused true h).

(** [handleSubmissionSuccess(result)] *)
Definition handleSubmissionSuccess
  (result : EmailSubmissionHandler.SubmissionResult) (h : handler)
  : handler :=
  let text := message_text (EmailSubmissionHandler.message result) in
  let h := showSuccess text h in
  let h := clearError h in
  let h := set_value [] h in
  let h := set_class_valid false h in
  let h := announceToScreenReader text h in
  snd (setTimeout HideSuccess successDisplayTime h).

(** [destroy()]; a timer id is truthy when it is not 0. *)
Definition destroy (h : handler) : handler :=
  match debounceTimeout h with
  | Some O | None => h
  | Some id => clearTimeout (Some id) h
  end.

Section Host.

Variable toLowerCase : jsstring -> jsstring.

(** The [message] of an exception the host throws (a DOMException, a
    SyntaxError, a TypeError). *)
Variable host_message : exn -> jsstring.

Definition error_message (error : exn) : jsstring :=
  match error with
  | Error m => message_text m
  | StorageError | SyntaxError | TypeError => host_message error
  end.

(** [handleSubmissionError(error)] *)
Definition handleSubmissionError (error : exn) (h : handler) : handler :=
  let text :=
    match error_message error with
    | [] => message_text serverError
    | c :: rest => c :: rest
    end in
  let h := showError text h in
  let h := hideSuccess h in
  let h := announceToScreenReader (js "Error: " ++ text) h in
  snd (setTimeout ClearError errorDisplayTime h).

(** [submitEmail(email)] up to its [await]: it throws, or it waits for
    the timer. *)
Definition submitEmail_begin (now1 now2 : Z) (email : jsstring) : M unit :=
  limited <- isRateLimited now1;;
  if limited then throw (Error rateLimited)
  else
    recordAttempt now2;;
    submitted <- wasEmailSubmitted toLowerCase email;;
    if submitted then throw (Error alreadySubscribed)
    else ret tt.

(** [submitEmail(email)] from its [await] on. *)
Definition submitEmail_resume (random : Q) (email : jsstring)
  : M EmailSubmissionHandler.SubmissionResult :=
  if EmailSubmissionHandler.lt_005 random then throw (Error networkError)
  else
    storeSubmission toLowerCase email;;
    ret {| EmailSubmissionHandler.success := true;
           EmailSubmissionHandler.message := FORM_CONFIG.success |}.

(** [handleSubmit()] up to the [await] of [submitEmail]: when
    [submitEmail] throws before it waits, the [catch] and the [finally]
    of [handleSubmit] run before anything else can. *)
Definition handleSubmit (now1 now2 : Z) (w : handler * localStorage)
  : handler * localStorage :=
  let (h, st) := w in
  if isSubmitting h then w
  else
    let email := trim (value (emailInput h)) in
    let (ok, h) := validateInput email true h in
    if negb ok
    then
      let h :=
        announceToScreenReader
          (js "Please fix the errors before submitting") h in
      (focus h, st)
    else
      let h := setSubmittingState true h in
      let h := announceToScreenReader (js "Submitting your email...") h in
      match submitEmail_begin now1 now2 email st with
      | (inr _, st) => (snd (setTimeout (ResumeSubmit email) submitDelay h), st)
      | (inl error, st) =>
          (setSubmittingState false (handleSubmissionError error h), st)
      end.

(** [handleSubmit()] from the [await] on, for the submission of
    [email]. *)
Definition handleSubmit_resume (random : Q) (email : jsstring)
  (w : handler * localStorage) : handler * localStorage :=
  let (h, st) := w in
  match submitEmail_resume random email st with
  | (inr result, st) =>
      (setSubmittingState false (handleSubmissionSuccess result h), st)
  | (inl error, st) =>
      (setSubmittingState false (handleSubmissionError error h), st)
  end.

Definition run_callback (cb : callback) (random : Q)
  (w : handler * localStorage) : handler * localStorage :=
  let (h, st) := w in
  match cb with
  | DebouncedValidation => (debounced_validation h, st)
  | DelayedInputChange => (handleInputChange h, st)
  | HideSuccess => (hideSuccess h, st)
  | ClearError => (clearError h, st)
  | ClearAnnouncement => (set_announcement [] h, st)
  | ResumeSubmit email => handleSubmit_resume random email w
  end.

(** What happens to the page. *)
Inductive event : Type :=
| SubmitEvent (now1 now2 : Z)        (* submit of the form *)
| InputEvent (v : jsstring)          (* the value becomes v; input *)
| FocusEvent                         (* the user focuses the input *)
| BlurEvent                          (* the input loses the focus *)
| PasteEvent                         (* paste, before the value changes *)
| KeydownEvent (enter : bool) (now1 now2 : Z)
| TimerEvent (id : nat) (random : Q). (* the timer id is due and runs;
                                         random is Math.random() *)

Definition dispatch (e : event) (w : handler * localStorage)
  : handler * localStorage :=
  let (h, st) := w in
  match e with
  | SubmitEvent now1 now2 => handleSubmit now1 now2 w
  | InputEvent v => (handleInputChange (set_value v h), st)
  | FocusEvent =>
      if focused (emailInput h) then w
      else (on_focus (set_focused true h), st)
  | BlurEvent => (set_focused false h, st)
  | PasteEvent => (snd (setTimeout DelayedInputChange 10 h), st)
  | KeydownEvent enter now1 now2 =>
      if enter && negb (isSubmitting h) then handleSubmit now1 now2 w
      else w
  | TimerEvent id random =>
      match find (fun t => timer_id t =? id) (timers h) with
      | None => w
      | Some t =>
          run_callback (callback_of t) random
            (set_timers (filter (fun t => negb (timer_id t =? id))
                                (timers h))
                        (next_id h) h,
             st)
      end
  end.

Definition dispatch_all (es : list event) (w : handler * localStorage)
  : handler * localStorage :=
  fold_left (fun w e => dispatch e w) es w.

End Host.

(** The handler as its constructor leaves it on a page whose input is
    empty. *)
Definition initial : handler :=
  {| emailInput := {| value := []; class_valid := false;
                      class_error := false; aria_invalid := None;
                      focused := false |};
     submitButton := {| disabled := false; class_loading := false;
                        aria_label := None |};
     errorMessage := {| textContent := []; class_show := false |};
     successMessage := {| textContent := []; class_show := false |};
     announcementElement := [];
     isSubmitting := false;
     debounceTimeout := None;
     timers := [];
     next_id := 1 |}.

(** The timers of the debounced validation, and those of a waiting
    submission. *)
Definition is_debounce (t : timer) : bool :=
  match callback_of t with
  | DebouncedValidation => true
  | _ => false
  end.

Definition is_resume (t : timer) : bool :=
  match callback_of t with
  | ResumeSubmit _ => true
  | _ => false
  end.

(** What holds of the timers at any time: their ids are below the next
    id and all different, and a timer is the debounced validation
    exactly when its id is the one the handler remembers. *)
Record timers_wf (h : handler) : Prop :=
  { ids_below : Forall (fun t => timer_id t < next_id h) (timers h);
    ids_differ : NoDup (map timer_id (timers h));
    debounce_below :
      forall i, debounceTimeout h = Some i -> i < next_id h;
    debounce_known :
      Forall (fun t => is_debounce t = true <->
                       debounceTimeout h = Some (timer_id t)) (timers h) }.

(** Besides, a submission waits on its timer exactly when [isSubmitting]
    is set, which is also when the button is disabled. *)
Record timers_ok (h : handler) : Prop :=
  { timers_are_wf : timers_wf h;
    one_resume :
      length (filter is_resume (timers h))
      = if isSubmitting h then 1 else 0;
    button_follows : disabled (submitButton h) = isSubmitting h }.

(** The callbacks that are neither the debounced validation nor the
    rest of a submission. *)
Definition plain (cb : callback) : Prop :=
  match cb with
  | DebouncedValidation | ResumeSubmit _ => False
  | _ => True
  end.

(** [h'] is [h] after writes to the page and after setting timers that
    are neither the debounced validation nor the rest of a submission. *)
Definition extends (h h' : handler) : Prop :=
  (timers_wf h -> timers_wf h')
  /\ filter is_resume (timers h') = filter is_resume (timers h)
  /\ isSubmitting h' = isSubmitting h
  /\ disabled (submitButton h') = disabled (submitButton h).

(** The part of the handler that [timers_ok] speaks of. *)
Definition core (h : handler)
  : list timer * nat * bool * option nat * bool :=
  (timers h, next_id h, isSubmitting h, debounceTimeout h,
   disabled (submitButton h)).

(** The addresses that wait on a timer to be stored. *)
Definition waiting (h : handler) : list jsstring :=
  flat_map (fun t => match callback_of t with
                     | ResumeSubmit email => [email]
                     | _ => []
                     end) (timers h).

(** The events that can reach [submitEmail]: a submit, the Enter key,
    and the timer a submission waits on. *)
Definition may_submit (e : event) (h : handler) : bool :=
  match e with
  | SubmitEvent _ _ => true
  | KeydownEvent enter _ _ => enter
  | TimerEvent id _ =>
      match find (fun t => timer_id t =? id) (timers h) with
      | Some t => is_resume t
      | None => false
      end
  | InputEvent _ | FocusEvent | BlurEvent | PasteEvent => false
  end.

(** The texts [showError] can be given by this file: the four of the
    validator and the three of [submitEmail]. *)
Definition error_texts : list jsstring :=
  map message_text
      [required; invalid; tooShort; tooLong;
       rateLimited; alreadySubscribed; networkError].

End EmailFormHandler.

(** Every stored submission is the lower-cased form of an address that
    [validate] accepts, and so is every address waiting to be stored. *)
Definition entry_valid (toLowerCase : jsstring -> jsstring) (x : element)
  : Prop :=
  exists e, x = Str (toLowerCase e) /\ isValid (validate e) = true.

Definition stored_valid (toLowerCase : jsstring -> jsstring)
  (w : EmailFormHandler.handler * localStorage) : Prop :=
  match emailSubmissions (snd w) with
  | None => True
  | Some (Json (SArray l)) => Forall (entry_valid toLowerCase) l
  | Some _ => False
  end
  /\ Forall (fun e => isValid (validate e) = true)
            (EmailFormHandler.waiting (fst w)).

(** * Properties *)

(** ** Running the storage code *)

Ltac unfold_storage :=
  cbv [EmailSubmissionHandler.submitEmail
       wasEmailSubmitted storeSubmission getSubmissions isRateLimited
       recordAttempt value_includes value_push destructure bump
       bind ret throw try_catch getItem setItem removeItem
       JSON_parse JSON_stringify truthy storageKey rateLimitKey
       read write accessible writable emailSubmissions rateLimiting].

Ltac storage_cases st :=
  let acc := fresh "acc" in
  let wr := fresh "wr" in
  let subs := fresh "subs" in
  let rate := fresh "rate" in
  destruct st as [acc wr subs rate];
  destruct acc, wr;
  destruct subs as [[ | | [? | ? | ]] | ];
  destruct rate as [[ | | [? ? | | | ]] | ].

(** ** The matcher decides the language *)

Module RegexFacts.

Lemma lang_seq_inv r1 r2 s :
  lang (Seq r1 r2) s ->
  exists s1 s2, s = s1 ++ s2 /\ lang r1 s1 /\ lang r2 s2.
Proof. intros H. inversion H; subst. eauto. Qed.

Lemma nullable_lang r : nullable r = true <-> lang r [].
Proof.
  induction r as [ | | p | r1 IH1 r2 IH2 | r1 IH1 r2 IH2 | r IH]; cbn.
  - split; [discriminate | intros H; inversion H].
  - split; [intros _; constructor | reflexivity].
  - split; [discriminate | intros H; inversion H].
  - rewrite andb_true_iff, IH1, IH2. split.
    + intros [H1 H2]. exact (LSeq H1 H2).
    + intros H. destruct (lang_seq_inv H) as (s1 & s2 & E & H1 & H2).
      symmetry in E. apply app_eq_nil in E. destruct E; subst.
      split; assumption.
  - rewrite orb_true_iff, IH1, IH2. split.
    + intros [H | H]; [apply LAltL | apply LAltR]; exact H.
    + intros H. inversion H; subst; [left | right]; assumption.
  - split; [intros _; constructor | reflexivity].
Qed.

(** A non-empty word of [r*] starts with a non-empty word of [r]. *)
Lemma star_cons r w :
  lang (Star r) w ->
  forall c s, w = c :: s ->
  exists s1 s2, s = s1 ++ s2 /\ lang r (c :: s1) /\ lang (Star r) s2.
Proof.
  remember (Star r) as q eqn:Eq. intros H.
  induction H as [ | | | | | | r' s1 s2 H1 _ H2 IH2]; try discriminate Eq.
  - intros c s E. discriminate E.
  - injection Eq as ->. intros c s E.
    destruct s1 as [ | c1 s1]; cbn in E.
    + apply IH2; [reflexivity | exact E].
    + injection E as -> <-. exists s1, s2. repeat split; assumption.
Qed.

Lemma deriv_lang c r : forall s, lang (deriv c r) s <-> lang r (c :: s).
Proof.
  induction r as [ | | p | r1 IH1 r2 IH2 | r1 IH1 r2 IH2 | r IH];
    intros s; cbn [deriv].
  - split; intros H; inversion H.
  - split; intros H; inversion H.
  - destruct (p c) eqn:Ep; split; intros H.
    + inversion H; subst. constructor. exact Ep.
    + inversion H; subst. constructor.
    + inversion H.
    + inversion H; subst. congruence.
  - assert (Hseq : lang (Seq (deriv c r1) r2) s ->
                   lang (Seq r1 r2) (c :: s)).
    { intros H. destruct (lang_seq_inv H) as (s1 & s2 & -> & H1 & H2).
      apply IH1 in H1. exact (LSeq H1 H2). }
    assert (Hinv : lang (Seq r1 r2) (c :: s) ->
                   lang (Seq (deriv c r1) r2) s
                   \/ (lang r1 [] /\ lang r2 (c :: s))).
    { intros H. destruct (lang_seq_inv H) as (s1 & s2 & E & H1 & H2).
      destruct s1 as [ | c1 s1]; cbn in E.
      - right. subst. split; assumption.
      - injection E as <- ->. left. apply IH1 in H1. exact (LSeq H1 H2). }
    destruct (nullable r1) eqn:En; split; intros H.
    + inversion H; subst; [apply Hseq; assumption | ].
      apply nullable_lang in En.
      match goal with K : lang (deriv c r2) s |- _ => apply IH2 in K;
        exact (LSeq En K) end.
    + destruct (Hinv H) as [K | [_ K]];
        [apply LAltL; exact K | apply LAltR; apply IH2; exact K].
    + apply Hseq; exact H.
    + destruct (Hinv H) as [K | [K _]]; [exact K | ].
      apply nullable_lang in K. congruence.
  - split; intros H; inversion H; subst.
    + apply LAltL. apply IH1. assumption.
    + apply LAltR. apply IH2. assumption.
    + apply LAltL. apply IH1. assumption.
    + apply LAltR. apply IH2. assumption.
  - split; intros H.
    + destruct (lang_seq_inv H) as (s1 & s2 & -> & H1 & H2).
      apply IH in H1. exact (LStarApp H1 H2).
    + destruct (star_cons H eq_refl) as (s1 & s2 & -> & H1 & H2).
      apply IH in H1. exact (LSeq H1 H2).
Qed.

Theorem test_lang s : forall r, test r s = true <-> lang r s.
Proof.
  induction s as [ | c s IH]; intros r; cbn [test].
  - apply nullable_lang.
  - rewrite IH. apply deriv_lang.
Qed.

(** The languages of the shapes the validator uses. *)

Lemma lang_class p s : lang (Class p) s -> exists c, s = [c] /\ p c = true.
Proof. intros H. inversion H; subst. eauto. Qed.

Lemma lang_star_class p s :
  lang (Star (Class p)) s <-> Forall (fun c => p c = true) s.
Proof.
  split.
  - remember (Star (Class p)) as q eqn:Eq. intros H.
    induction H as [ | | | | | | r' s1 s2 H1 _ H2 IH2];
      try discriminate Eq.
    + constructor.
    + injection Eq as ->. destruct (lang_class H1) as (c & -> & Hc).
      constructor; [exact Hc | apply IH2; reflexivity].
  - induction 1 as [ | c s Hc _ IH].
    + constructor.
    + change (c :: s) with ([c] ++ s).
      apply LStarApp; [constructor; exact Hc | exact IH].
Qed.

Lemma lang_plus_class p s :
  lang (Plus (Class p)) s <-> s <> [] /\ Forall (fun c => p c = true) s.
Proof.
  unfold Plus. split.
  - intros H. destruct (lang_seq_inv H) as (s1 & s2 & -> & H1 & H2).
    destruct (lang_class H1) as (c & -> & Hc). split; [discriminate | ].
    constructor; [exact Hc | apply lang_star_class; exact H2].
  - intros [Hne Hall]. destruct Hall as [ | c s Hc Hs]; [congruence | ].
    change (c :: s) with ([c] ++ s).
    apply LSeq; [constructor; exact Hc | apply lang_star_class; exact Hs].
Qed.

Lemma test_plus_class p s :
  test (Plus (Class p)) s = true
  <-> s <> [] /\ Forall (fun c => p c = true) s.
Proof. rewrite test_lang. apply lang_plus_class. Qed.

Lemma lang_upto_class p n : forall s,
  Forall (fun c => p c = true) s -> length s <= n ->
  lang (Upto n (Class p)) s.
Proof.
  induction n as [ | n IH]; intros s Hall Hlen; cbn [Upto]; unfold Opt.
  - destruct s; [constructor | cbn in Hlen; lia].
  - destruct Hall as [ | c s Hc Hs]; [apply LAltR; constructor | ].
    apply LAltL. change (c :: s) with ([c] ++ s).
    apply LSeq; [constructor; exact Hc | ].
    apply IH; [exact Hs | cbn in Hlen; lia].
Qed.

End RegexFacts.
Import RegexFacts.

(** ** The string operations *)

Module StringFacts.

Lemma trimStart_length s : length (trimStart s) <= length s.
Proof.
  induction s as [ | c s IH]; cbn; [lia | ].
  destruct (is_white_space c); cbn; lia.
Qed.

Lemma trimStart_fixed c s :
  trimStart (c :: s) = c :: s <-> is_white_space c = false.
Proof.
  cbn. destruct (is_white_space c); split; try reflexivity; try discriminate.
  intros E. pose proof (trimStart_length s) as L. rewrite E in L.
  cbn in L. lia.
Qed.

Lemma trimStart_idem s : trimStart (trimStart s) = trimStart s.
Proof.
  induction s as [ | c s IH]; [reflexivity | ].
  cbn. destruct (is_white_space c) eqn:E; [exact IH | ].
  cbn. rewrite E. reflexivity.
Qed.

Lemma trimStart_suffix s : exists w, s = w ++ trimStart s.
Proof.
  induction s as [ | c s [w IH]]; [exists []; reflexivity | ].
  cbn. destruct (is_white_space c).
  - exists (c :: w). cbn. f_equal. exact IH.
  - exists []. reflexivity.
Qed.

Lemma trimEnd_prefix s : exists w, s = trimEnd s ++ w.
Proof.
  unfold trimEnd. destruct (trimStart_suffix (rev s)) as [w E].
  exists (rev w). rewrite <- rev_app_distr, <- E, rev_involutive.
  reflexivity.
Qed.

Lemma trimEnd_idem s : trimEnd (trimEnd s) = trimEnd s.
Proof.
  unfold trimEnd. rewrite rev_involutive, trimStart_idem. reflexivity.
Qed.

Lemma trimStart_trimEnd s :
  trimStart s = s -> trimStart (trimEnd s) = trimEnd s.
Proof.
  intros Hs. destruct (trimEnd_prefix s) as [w E].
  destruct (trimEnd s) as [ | c u]; [reflexivity | ].
  apply trimStart_fixed. rewrite E in Hs. cbn [app] in Hs.
  apply trimStart_fixed in Hs. exact Hs.
Qed.

Lemma trim_idem s : trim (trim s) = trim s.
Proof.
  unfold trim.
  rewrite (trimStart_trimEnd (trimStart_idem s)).
  apply trimEnd_idem.
Qed.

Lemma str_eqb_eq a b : str_eqb a b = true <-> a = b.
Proof.
  unfold str_eqb. destruct (list_eq_dec N.eq_dec a b);
    split; congruence.
Qed.

Lemma startsWith_prefix s : forall p,
  startsWith s p = true <-> exists b, s = p ++ b.
Proof.
  induction s as [ | c s IH]; intros [ | a p]; cbn.
  - split; [exists []; reflexivity | reflexivity].
  - split; [discriminate | intros [b E]; discriminate E].
  - split; [exists (c :: s); reflexivity | reflexivity].
  - rewrite andb_true_iff, N.eqb_eq, IH. split.
    + intros [-> [b ->]]. exists b. reflexivity.
    + intros [b E]. injection E as -> ->. split; [reflexivity | eauto].
Qed.

Lemma startsWith_one s c :
  startsWith s [c] = true <-> hd_error s = Some c.
Proof.
  rewrite startsWith_prefix. split.
  - intros [b ->]. reflexivity.
  - destruct s as [ | x s]; cbn; [discriminate | ].
    intros E. injection E as ->. exists s. reflexivity.
Qed.

Lemma endsWith_one s c :
  endsWith s [c] = true <-> hd_error (rev s) = Some c.
Proof. unfold endsWith. cbn [rev app]. apply startsWith_one. Qed.

Lemma includes_infix s : forall p,
  includes s p = true <-> exists a b, s = a ++ p ++ b.
Proof.
  induction s as [ | c s IH]; intros p; cbn [includes];
    rewrite orb_true_iff, startsWith_prefix.
  - split.
    + intros [[b E] | H]; [exists [], b; exact E | discriminate].
    + intros (a & b & E). left.
      destruct a; [exists b; exact E | discriminate E].
  - rewrite IH. split.
    + intros [[b E] | (a & b & E)].
      * exists [], b. exact E.
      * exists (c :: a), b. cbn. rewrite E. reflexivity.
    + intros (a & b & E). destruct a as [ | x a]; cbn in E.
      * left. exists b. exact E.
      * right. injection E as _ E. exists a, b. exact E.
Qed.

Lemma count_matches_none c s : count_matches c s = 0 <-> ~ In c s.
Proof.
  induction s as [ | x s IH]; cbn.
  - split; [intros _ [] | reflexivity].
  - destruct (N.eqb_spec x c) as [E | E].
    + split; [discriminate | intros H; exfalso; apply H; left; exact E].
    + cbn. rewrite IH. split.
      * intros H [K | K]; [congruence | exact (H K)].
      * intros H K. apply H. right. exact K.
Qed.

Lemma count_matches_app c a b :
  count_matches c (a ++ b) = count_matches c a + count_matches c b.
Proof.
  induction a as [ | x a IH]; cbn; [reflexivity | ].
  rewrite IH. lia.
Qed.

Lemma split_not_nil c s : split c s <> [].
Proof.
  destruct s as [ | x s]; cbn; [discriminate | ].
  destruct (x =? c)%N; [discriminate | ].
  destruct (split c s); discriminate.
Qed.

Lemma split_whole c s : ~ In c s -> split c s = [s].
Proof.
  induction s as [ | x s IH]; cbn; [reflexivity | ].
  intros H. destruct (N.eqb_spec x c) as [E | E].
  - exfalso. apply H. left. exact E.
  - rewrite IH; [reflexivity | intros K; apply H; right; exact K].
Qed.

Lemma split_at_first c l d :
  ~ In c l -> split c (l ++ c :: d) = l :: split c d.
Proof.
  induction l as [ | x l IH]; cbn.
  - intros _. rewrite N.eqb_refl. reflexivity.
  - intros H. destruct (N.eqb_spec x c) as [E | E].
    + exfalso. apply H. left. exact E.
    + rewrite IH; [reflexivity | intros K; apply H; right; exact K].
Qed.

Lemma join_split c s : join c (split c s) = s.
Proof.
  induction s as [ | x s IH]; cbn [split]; [reflexivity | ].
  destruct (N.eqb_spec x c) as [E | E].
  - subst x. pose proof (split_not_nil c s) as Hne.
    cbn [join]. destruct (split c s) as [ | y ys];
      [congruence | ].
    cbn [app]. rewrite IH. reflexivity.
  - pose proof (split_not_nil c s) as Hne.
    destruct (split c s) as [ | y ys]; [congruence | ].
    cbn [join] in *. destruct ys; cbn [app]; rewrite <- IH; reflexivity.
Qed.

Lemma split_join c parts :
  parts <> [] -> Forall (fun x => ~ In c x) parts ->
  split c (join c parts) = parts.
Proof.
  intros Hne Hall. induction Hall as [ | x rest Hx Hrest IH]; [congruence | ].
  cbn [join]. destruct rest as [ | y rest].
  - apply split_whole. exact Hx.
  - rewrite split_at_first by exact Hx. rewrite IH; [reflexivity | ].
    discriminate.
Qed.

Lemma join_length c parts :
  Forall (fun x => 1 <= length x) parts -> parts <> [] ->
  1 <= length (join c parts).
Proof.
  intros Hall Hne. destruct Hall as [ | x rest Hx _]; [congruence | ].
  cbn [join]. destruct rest; [exact Hx | ].
  rewrite length_app. lia.
Qed.

End StringFacts.
Import StringFacts.

(** ** The validator *)

Module ValidatorFacts.

Lemma class_excludes (p : code_unit -> bool) c s :
  p c = false -> Forall (fun x => p x = true) s -> ~ In c s.
Proof.
  intros Hc Hall Hin. rewrite Forall_forall in Hall.
  apply Hall in Hin. congruence.
Qed.

Lemma validateLocalPart_ok l :
  validateLocalPart (Some l) = true <-> local_part_ok l.
Proof.
  unfold validateLocalPart.
  change (js ".") with [ch "."].
  destruct (Nat.eqb_spec (length l) 0) as [E0 | E0]; cbn [orb].
  { split; [discriminate | intros [[H _] _ _ _]; lia]. }
  destruct (Nat.ltb_spec 64 (length l)) as [E1 | E1].
  { split; [discriminate | intros [[_ H] _ _ _]; lia]. }
  destruct (startsWith l [ch "."]) eqn:Es; cbn [orb].
  { split; [discriminate | intros [_ H _ _]].
    apply startsWith_one in Es. contradiction. }
  destruct (endsWith l [ch "."]) eqn:Ee; cbn [orb].
  { split; [discriminate | intros [_ _ H _]].
    apply endsWith_one in Ee. contradiction. }
  destruct (includes l (js "..")) eqn:Ei.
  { split; [discriminate | intros [_ _ _ H]].
    apply includes_infix in Ei. destruct Ei as (a & b & E).
    exfalso. exact (H a b E). }
  split; [intros _ | reflexivity].
  constructor.
  - lia.
  - rewrite <- startsWith_one. congruence.
  - rewrite <- endsWith_one. congruence.
  - intros a b E.
    assert (K : includes l (js "..") = true)
      by (apply includes_infix; eauto).
    congruence.
Qed.

Lemma domain_part_ok_label x : domain_part_ok x = true <-> label_ok x.
Proof.
  unfold domain_part_ok.
  change (js "-") with [ch "-"].
  destruct (Nat.eqb_spec (length x) 0) as [E0 | E0]; cbn [orb].
  { split; [discriminate | intros [[H _] _ _ _]; lia]. }
  destruct (Nat.ltb_spec 63 (length x)) as [E1 | E1].
  { split; [discriminate | intros [[_ H] _ _ _]; lia]. }
  destruct (test (Plus (Class is_label_char)) x) eqn:Et; cbn [negb].
  2:{ split; [discriminate | intros [_ H _ _]].
      assert (K : test (Plus (Class is_label_char)) x = true).
      { apply test_plus_class. split; [ | exact H].
        destruct x; [cbn in E0; congruence | discriminate]. }
      congruence. }
  apply test_plus_class in Et. destruct Et as [_ Hall].
  destruct (startsWith x [ch "-"]) eqn:Es; cbn [orb].
  { split; [discriminate | intros [_ _ H _]].
    apply startsWith_one in Es. contradiction. }
  destruct (endsWith x [ch "-"]) eqn:Ee.
  { split; [discriminate | intros [_ _ _ H]].
    apply endsWith_one in Ee. contradiction. }
  split; [intros _ | reflexivity].
  constructor.
  - lia.
  - exact Hall.
  - rewrite <- startsWith_one. congruence.
  - rewrite <- endsWith_one. congruence.
Qed.

(** A character of a label that is not the hyphen is a letter or a
    digit. *)
Lemma label_char_alnum c :
  is_label_char c = true -> c <> ch "-" -> is_alnum c = true.
Proof.
  unfold is_label_char, is_char. intros H Hne.
  apply orb_true_iff in H. destruct H as [H | H]; [exact H | ].
  apply N.eqb_eq in H. contradiction.
Qed.

Lemma label_in_regex x : label_ok x -> lang label_regex x.
Proof.
  intros [[Hlo Hhi] Hall Hfirst Hlast]. unfold label_regex, Opt.
  destruct x as [ | a m]; [cbn in Hlo; lia | ].
  assert (Ha : is_alnum a = true).
  { apply label_char_alnum; [inversion Hall; assumption | ].
    intros ->. apply Hfirst. reflexivity. }
  change (a :: m) with ([a] ++ m).
  apply LSeq; [constructor; exact Ha | ].
  destruct m as [ | m0 ms]; [apply LAltR; constructor | ].
  destruct (@exists_last _ (m0 :: ms)) as (mid & b & E); [discriminate | ].
  rewrite E in *. clear E m0 ms.
  apply LAltL. apply LSeq.
  - apply lang_upto_class.
    + inversion Hall as [ | ? ? _ Hm]; subst.
      apply Forall_app in Hm. tauto.
    + cbn in Hhi. rewrite length_app in Hhi. cbn in Hhi. lia.
  - constructor. apply label_char_alnum.
    + inversion Hall as [ | ? ? _ Hm]; subst.
      apply Forall_app in Hm. destruct Hm as [_ Hb].
      inversion Hb; assumption.
    + intros ->. apply Hlast.
      change (a :: mid ++ [ch "-"]) with ((a :: mid) ++ [ch "-"]).
      rewrite rev_app_distr. reflexivity.
Qed.

Lemma label_no_sep c x :
  is_label_char c = false -> label_ok x -> ~ In c x.
Proof. intros Hc [_ Hall _ _]. exact (@class_excludes is_label_char c x Hc Hall). Qed.

Lemma domain_in_regex parts :
  Forall label_ok parts -> parts <> [] ->
  lang (Seq label_regex (Star (Seq (Class (is_char ".")) label_regex)))
       (join (ch ".") parts).
Proof.
  intros Hall Hne. destruct Hall as [ | x rest Hx Hrest]; [congruence | ].
  clear Hne. revert x Hx. induction Hrest as [ | y rest Hy Hrest IH];
    intros x Hx.
  - cbn [join]. rewrite <- (app_nil_r x).
    apply LSeq; [apply label_in_regex; exact Hx | constructor].
  - change (join (ch ".") (x :: y :: rest))
      with (x ++ ch "." :: join (ch ".") (y :: rest)).
    apply LSeq; [apply label_in_regex; exact Hx | ].
    destruct (lang_seq_inv (IH y Hy)) as (s1 & s2 & E & H1 & H2).
    rewrite E.
    change (ch "." :: s1 ++ s2) with (([ch "."] ++ s1) ++ s2).
    apply LStarApp; [ | exact H2].
    apply LSeq; [constructor; reflexivity | exact H1].
Qed.

Lemma domain_ok_of_parts d (parts : list jsstring) :
  join (ch ".") parts = d ->
  2 <= length parts ->
  Forall label_ok parts ->
  2 <= length (last parts []) ->
  Forall (fun c => is_alpha c = true) (last parts []) ->
  domain_ok d.
Proof.
  intros Hjoin H2 Hall Htld Halpha.
  destruct (@exists_last _ parts) as (labels & tld & E).
  { destruct parts; [cbn in H2; lia | discriminate]. }
  subst parts. rewrite last_last in Htld, Halpha.
  exists labels, tld. repeat split; try assumption.
  - symmetry. exact Hjoin.
  - intros ->. cbn in H2. lia.
Qed.

Lemma validateDomainPart_ok d :
  validateDomainPart (Some d) = true -> domain_ok d.
Proof.
  unfold validateDomainPart.
  destruct ((length d =? 0) || (253 <? length d)); [discriminate | ].
  cbv zeta.
  destruct (Nat.ltb_spec (length (split (ch ".") d)) 2) as [E2 | E2];
    [discriminate | ].
  destruct (forallb domain_part_ok (split (ch ".") d)) eqn:Ef;
    [ | discriminate].
  cbn [negb].
  destruct (Nat.ltb_spec (length (last (split (ch ".") d) [])) 2)
    as [Et | Et]; [discriminate | ].
  cbn [orb].
  destruct (test (Plus (Class is_alpha)) (last (split (ch ".") d) []))
    eqn:Ea; [ | discriminate].
  intros _. apply test_plus_class in Ea. destruct Ea as [_ Ha].
  apply (@domain_ok_of_parts d (split (ch ".") d)).
  - apply join_split.
  - exact E2.
  - rewrite forallb_forall in Ef. apply Forall_forall. intros x Hx.
    apply domain_part_ok_label. apply Ef. exact Hx.
  - exact Et.
  - exact Ha.
Qed.

Lemma domain_ok_validateDomainPart d :
  domain_ok d -> length d <= 253 -> validateDomainPart (Some d) = true.
Proof.
  intros (labels & tld & -> & Hne & Hall & Htld & Halpha) Hlen.
  set (parts := labels ++ [tld]) in *.
  assert (Hparts : parts <> [])
    by (subst parts; destruct labels; discriminate).
  unfold validateDomainPart.
  assert (Hpos : 1 <= length (join (ch ".") parts)).
  { apply join_length; [ | exact Hparts].
    eapply Forall_impl; [ | exact Hall]. intros x [[H _] _ _ _]. exact H. }
  destruct (Nat.eqb_spec (length (join (ch ".") parts)) 0) as [E0 | _];
    [lia | ].
  destruct (Nat.ltb_spec 253 (length (join (ch ".") parts))) as [E1 | _];
    [lia | ].
  cbn [orb]. cbv zeta.
  rewrite split_join; [ | exact Hparts | ].
  2:{ eapply Forall_impl; [ | exact Hall]. intros x Hx.
      apply label_no_sep; [reflexivity | exact Hx]. }
  assert (H2 : 2 <= length parts).
  { subst parts. rewrite length_app. cbn.
    destruct labels; [congruence | cbn; lia]. }
  destruct (Nat.ltb_spec (length parts) 2) as [E2 | _]; [lia | ].
  assert (Hf : forallb domain_part_ok parts = true).
  { apply forallb_forall. intros x Hx. apply domain_part_ok_label.
    rewrite Forall_forall in Hall. apply Hall. exact Hx. }
  rewrite Hf. cbn [negb].
  assert (Hlast : last parts [] = tld) by (subst parts; apply last_last).
  rewrite Hlast.
  destruct (Nat.ltb_spec (length tld) 2) as [E3 | _]; [lia | ].
  cbn [orb].
  assert (Ht : test (Plus (Class is_alpha)) tld = true).
  { apply test_plus_class. split; [ | exact Halpha].
    destruct tld; [cbn in Htld; lia | discriminate]. }
  rewrite Ht. reflexivity.
Qed.

(** The pattern splits the address at its [@]. *)
Lemma emailRegex_parts t :
  lang VALIDATION.emailRegex t ->
  exists l d,
    t = l ++ ch "@" :: d /\ l <> []
    /\ Forall (fun c => is_local_char c = true) l.
Proof.
  unfold VALIDATION.emailRegex. intros H.
  destruct (lang_seq_inv H) as (l & r & -> & Hl & Hr).
  destruct (lang_seq_inv Hr) as (a & d & -> & Ha & _).
  destruct (lang_class Ha) as (c & -> & Hc).
  unfold is_char in Hc. apply N.eqb_eq in Hc. subst c.
  apply lang_plus_class in Hl. destruct Hl as [Hne Hall].
  exists l, d. repeat split; assumption.
Qed.

Lemma structure_of_parts t l d :
  parts_of t l d ->
  validateEmailStructure t
  = validateLocalPart (Some l) && validateDomainPart (Some d).
Proof.
  intros (-> & Hl & Hd). unfold validateEmailStructure.
  rewrite count_matches_app. cbn [count_matches]. rewrite N.eqb_refl.
  apply count_matches_none in Hl, Hd. rewrite Hl, Hd. cbn [plus Nat.eqb negb].
  cbv zeta. apply count_matches_none in Hl, Hd.
  rewrite (@split_at_first (ch "@") l d Hl), (@split_whole (ch "@") d Hd). cbn [nth_error].
  destruct (validateLocalPart (Some l)), (validateDomainPart (Some d));
    reflexivity.
Qed.

(** What the pattern and the structural checks accept together, among
    the strings of at most 254 code units. *)
Theorem accepted_iff t :
  length t <= 254 ->
  test VALIDATION.emailRegex t && validateEmailStructure t = true
  <-> address_accepted t.
Proof.
  intros Hlen. rewrite andb_true_iff. split.
  - intros [Hre Hst]. apply test_lang in Hre.
    destruct (emailRegex_parts Hre) as (l & d & E & _ & Hall).
    assert (Hl : ~ In (ch "@") l)
      by (exact (@class_excludes is_local_char (ch "@") l eq_refl Hall)).
    assert (Hd : ~ In (ch "@") d).
    { unfold validateEmailStructure in Hst.
      destruct (Nat.eqb_spec (count_matches (ch "@") t) 1) as [E1 | E1];
        [ | discriminate].
      rewrite E, count_matches_app in E1. cbn [count_matches] in E1.
      rewrite N.eqb_refl in E1. apply count_matches_none. lia. }
    assert (Hp : parts_of t l d) by (repeat split; assumption).
    rewrite (structure_of_parts Hp) in Hst.
    apply andb_true_iff in Hst. destruct Hst as [H1 H2].
    exists l, d.
    split; [exact Hp | ]. split; [exact Hall | ]. split.
    + apply validateLocalPart_ok. exact H1.
    + apply validateDomainPart_ok. exact H2.
  - intros (l & d & Hp & Hall & Hl & Hd).
    pose proof Hp as (E & _ & _).
    split.
    + apply test_lang. rewrite E. unfold VALIDATION.emailRegex.
      apply LSeq.
      * apply lang_plus_class. split; [ | exact Hall].
        destruct Hl as [[H _] _ _ _]. destruct l; [cbn in H; lia | discriminate].
      * change (ch "@" :: d) with ([ch "@"] ++ d).
        apply LSeq; [constructor; reflexivity | ].
        destruct Hd as (labels & tld & -> & Hne & Hlab & _).
        apply domain_in_regex; [exact Hlab | ].
        destruct labels; discriminate.
    + rewrite (structure_of_parts Hp). apply andb_true_iff. split.
      * apply validateLocalPart_ok. exact Hl.
      * apply domain_ok_validateDomainPart; [exact Hd | ].
        rewrite E, length_app in Hlen. cbn in Hlen. lia.
Qed.

End ValidatorFacts.
Import ValidatorFacts.

(** [validate] as a chain of tests on the trimmed input. *)
Lemma validate_trimmed s :
  validate s
  = let t := trim s in
    if str_eqb t [] then {| isValid := false; message := required |}
    else if length t <? 5 then {| isValid := false; message := tooShort |}
    else if 254 <? length t then {| isValid := false; message := tooLong |}
    else if test VALIDATION.emailRegex t && validateEmailStructure t
    then {| isValid := true; message := validEmailAddress |}
    else {| isValid := false; message := invalid |}.
Proof.
  unfold validate, VALIDATION.minLength, VALIDATION.maxLength. cbv zeta.
  destruct s as [ | c s]; [reflexivity | ]. cbn [orb].
  destruct (str_eqb (trim (c :: s)) []); [reflexivity | ].
  destruct (length (trim (c :: s)) <? 5); [reflexivity | ].
  destruct (254 <? length (trim (c :: s))); [reflexivity | ].
  destruct (test VALIDATION.emailRegex (trim (c :: s))); [ | reflexivity].
  destruct (validateEmailStructure (trim (c :: s))); reflexivity.
Qed.

(** C10: [validate] gives the same result on a string and on the string
    trimmed. *)
Theorem validate_trim s : validate (trim s) = validate s.
Proof. rewrite !validate_trimmed, trim_idem. reflexivity. Qed.

(** C1, as amended: on the trimmed input [t], [validate] answers
    required exactly when [t] is empty, tooShort exactly when [t] is not
    empty and shorter than 5, tooLong exactly when [t] is longer than
    254, valid exactly when [t] has between 5 and 254 code units and
    follows the rules of section 4.1 with, in addition, a local part made
    only of the characters the pattern allows there, and invalid exactly
    when [t] has between 5 and 254 code units and does not. *)
Theorem validate_follows_rules s :
  let t := trim s in
  (validate s = {| isValid := false; message := required |} <-> t = [])
  /\ (validate s = {| isValid := false; message := tooShort |}
      <-> t <> [] /\ length t < 5)
  /\ (validate s = {| isValid := false; message := tooLong |}
      <-> 254 < length t)
  /\ (validate s = {| isValid := false; message := invalid |}
      <-> 5 <= length t <= 254 /\ ~ address_accepted t)
  /\ (validate s = {| isValid := true; message := validEmailAddress |}
      <-> 5 <= length t <= 254 /\ address_accepted t).
Proof.
  rewrite validate_trimmed. cbv zeta.
  set (t := trim s).
  destruct (str_eqb t []) eqn:E0.
  { apply str_eqb_eq in E0. rewrite E0. cbn [length].
    repeat split; try discriminate; try reflexivity; try lia;
      try (intros [K _]; congruence); intros [K _]; lia. }
  assert (Hne : t <> []).
  { intros K. apply str_eqb_eq in K. congruence. }
  destruct (Nat.ltb_spec (length t) 5) as [E1 | E1].
  { repeat split; try discriminate; try assumption; try lia;
      try congruence; intros [K _]; lia. }
  destruct (Nat.ltb_spec 254 (length t)) as [E2 | E2].
  { repeat split; try discriminate; try assumption; try lia;
      try congruence; intros [K _]; lia. }
  pose proof (@accepted_iff t E2) as Hacc.
  destruct (test VALIDATION.emailRegex t && validateEmailStructure t).
  - assert (A : address_accepted t) by (apply Hacc; reflexivity).
    repeat split; try discriminate; try assumption; try lia;
      try congruence; try (intros [K _]; lia).
    intros [_ K]. contradiction.
  - assert (A : ~ address_accepted t).
    { intros K. apply Hacc in K. discriminate K. }
    repeat split; try discriminate; try assumption; try lia;
      try congruence; try (intros [K _]; lia).
    intros [_ K]. contradiction.
Qed.


Section StoreProperties.

Variable toLowerCase : jsstring -> jsstring.

Lemma getSubmissions_returns st :
  exists v, getSubmissions st = (inr v, st).
Proof.
  destruct st as [acc wr subs rate].
  destruct acc; destruct subs as [[ | | v] | ]; unfold_storage; eauto.
Qed.

Lemma wasEmailSubmitted_returns email st :
  exists b, wasEmailSubmitted toLowerCase email st = (inr b, st).
Proof.
  destruct st as [acc wr subs rate].
  destruct acc; destruct subs as [[ | | [l | s | ]] | ];
    unfold_storage; eauto.
Qed.

Lemma storeSubmission_returns email st :
  exists st', storeSubmission toLowerCase email st = (inr tt, st')
              /\ rateLimiting st' = rateLimiting st.
Proof.
  destruct st as [acc wr subs rate].
  destruct acc, wr; destruct subs as [[ | | [l | s | ]] | ];
    unfold_storage; repeat esplit; reflexivity.
Qed.

Lemma isRateLimited_returns now st :
  exists b st', isRateLimited now st = (inr b, st')
                /\ emailSubmissions st' = emailSubmissions st.
Proof.
  destruct st as [acc wr subs rate].
  destruct acc; destruct rate as [[ | | [t a | | | ]] | ];
    unfold_storage; try (repeat esplit; reflexivity).
  destruct (elapsed_gt now t fiveMinutes); repeat esplit; reflexivity.
Qed.

Lemma recordAttempt_returns now st :
  exists st', recordAttempt now st = (inr tt, st')
              /\ emailSubmissions st' = emailSubmissions st.
Proof.
  destruct st as [acc wr subs rate].
  destruct acc, wr; destruct rate as [[ | | [t a | | | ]] | ];
    unfold_storage; repeat esplit; reflexivity.
Qed.

(** *** Reading the submissions *)

(** C9: for every e-mail and every storage state, [wasEmailSubmitted]
    leaves the storage as it found it, so that a second call, with no
    [storeSubmission] in between, returns what the first returned. *)
Theorem wasEmailSubmitted_twice email st :
  snd (wasEmailSubmitted toLowerCase email st) = st
  /\ wasEmailSubmitted toLowerCase email
       (snd (wasEmailSubmitted toLowerCase email st))
     = wasEmailSubmitted toLowerCase email st.
Proof.
  destruct (wasEmailSubmitted_returns email st) as [b Hb].
  rewrite Hb. cbn [snd]. split; [reflexivity | exact Hb].
Qed.

(** The rate-limit calls do not touch the submissions either. *)
Lemma perform_keeps_submissions c st :
  emailSubmissions (perform c st) = emailSubmissions st
  /\ accessible (perform c st) = accessible st
  /\ writable (perform c st) = writable st.
Proof.
  destruct c as [now | now]; storage_cases st; cbn [perform];
    unfold_storage; try (repeat split; reflexivity);
    match goal with
    | |- context [elapsed_gt ?n ?t ?l] => destruct (elapsed_gt n t l)
    end; repeat split; reflexivity.
Qed.

Lemma wasEmailSubmitted_after_calls cs : forall email st,
  fst (wasEmailSubmitted toLowerCase email (after cs st))
  = fst (wasEmailSubmitted toLowerCase email st).
Proof.
  induction cs as [ | c cs IH]; intros email st; [reflexivity | ].
  unfold after in *. cbn [fold_left]. rewrite IH.
  destruct (perform_keeps_submissions c st) as (Hs & Ha & _).
  unfold wasEmailSubmitted, getSubmissions, try_catch, bind, getItem.
  cbn [read storageKey]. rewrite Hs, Ha.
  destruct (accessible st); [ | reflexivity].
  destruct (truthy (emailSubmissions st)) as [[ | | [l | x | ]] | ];
    reflexivity.
Qed.

(** *** Storage failures *)

(** C6: whatever the e-mail and the state of the storage, none of the
    storage manager's methods throws, an inaccessible or unparsable
    storage reads as no submissions and no rate limit, a failed write
    changes nothing, and [submitEmail] either succeeds or is rejected
    with one of the three messages rateLimited, alreadySubscribed and
    networkError. *)
Theorem storage_failures_stay_inside now1 now2 random email st :
  (exists v, getSubmissions st = (inr v, st))
  /\ (exists b, fst (wasEmailSubmitted toLowerCase email st) = inr b)
  /\ (exists b, fst (isRateLimited now1 st) = inr b)
  /\ fst (storeSubmission toLowerCase email st) = inr tt
  /\ fst (recordAttempt now2 st) = inr tt
  /\ (forall w subs rate,
        let broken := {| accessible := false; writable := w;
                         emailSubmissions := subs; rateLimiting := rate |} in
        getSubmissions broken = (inr (SArray []), broken)
        /\ wasEmailSubmitted toLowerCase email broken = (inr false, broken)
        /\ isRateLimited now1 broken = (inr false, broken)
        /\ storeSubmission toLowerCase email broken = (inr tt, broken)
        /\ recordAttempt now2 broken = (inr tt, broken))
  /\ (forall a w,
        let garbled := {| accessible := a; writable := w;
                          emailSubmissions := Some NotJson;
                          rateLimiting := Some NotJson |} in
        getSubmissions garbled = (inr (SArray []), garbled)
        /\ wasEmailSubmitted toLowerCase email garbled = (inr false, garbled)
        /\ isRateLimited now1 garbled = (inr false, garbled)
        /\ recordAttempt now2 garbled = (inr tt, garbled))
  /\ (forall subs rate,
        let full := {| accessible := true; writable := false;
                       emailSubmissions := subs; rateLimiting := rate |} in
        storeSubmission toLowerCase email full = (inr tt, full)
        /\ recordAttempt now2 full = (inr tt, full))
  /\ (fst (EmailSubmissionHandler.submitEmail toLowerCase now1 now2 random
             email st)
      = inr {| EmailSubmissionHandler.success := true;
               EmailSubmissionHandler.message := FORM_CONFIG.success |}
      \/ exists m,
          fst (EmailSubmissionHandler.submitEmail toLowerCase now1 now2
                 random email st) = inl (Error m)
          /\ (m = rateLimited \/ m = alreadySubscribed \/ m = networkError)).
Proof.
  split; [apply getSubmissions_returns | ].
  split; [destruct (wasEmailSubmitted_returns email st) as [b ->]; cbn; eauto | ].
  split; [destruct (isRateLimited_returns now1 st) as (b & st' & -> & _);
          cbn; eauto | ].
  split; [destruct (storeSubmission_returns email st) as (st' & -> & _);
          reflexivity | ].
  split; [destruct (recordAttempt_returns now2 st) as (st' & -> & _);
          reflexivity | ].
  split; [intros w subs rate; repeat split; reflexivity | ].
  split; [intros [ | ] w; repeat split; reflexivity | ].
  split.
  { intros subs rate.
    destruct subs as [[ | | [l | x | ]] | ];
      destruct rate as [[ | | [t c | | | ]] | ];
      split; reflexivity. }
  unfold EmailSubmissionHandler.submitEmail, bind.
  destruct (isRateLimited_returns now1 st) as (b & st1 & -> & _).
  destruct b.
  { right. exists rateLimited. cbn. auto. }
  destruct (recordAttempt_returns now2 st1) as (st2 & -> & _).
  destruct (wasEmailSubmitted_returns email st2) as [d ->].
  destruct d.
  { right. exists alreadySubscribed. cbn. auto. }
  destruct (EmailSubmissionHandler.lt_005 random).
  { right. exists networkError. cbn. auto. }
  destruct (storeSubmission_returns email st2) as (st3 & -> & _).
  left. reflexivity.
Qed.

(** *** Lower-casing *)

Lemma wasEmailSubmitted_array email st l :
  getSubmissions st = (inr (SArray l), st) ->
  wasEmailSubmitted toLowerCase email st
  = (inr (existsb (element_is (toLowerCase email)) l), st).
Proof.
  intros H. unfold wasEmailSubmitted, try_catch, bind.
  rewrite H. reflexivity.
Qed.

Lemma storeSubmission_array email st l :
  getSubmissions st = (inr (SArray l), st) ->
  storeSubmission toLowerCase email st
  = (if accessible st && writable st
     then (inr tt,
           write storageKey
                 (Some (Json (SArray (l ++ [Str (toLowerCase email)]))))
                 st)
     else (inr tt, st)).
Proof.
  intros H. unfold storeSubmission, try_catch, bind.
  rewrite H. cbn [value_push ret].
  unfold setItem, JSON_stringify.
  destruct (accessible st && writable st); reflexivity.
Qed.

(** C4, as amended: [wasEmailSubmitted] lower-cases the e-mail, and does
    nothing else to it, before it looks it up in what [getSubmissions]
    returns; [storeSubmission] appends the lower-cased e-mail to that
    array and writes it back. *)
Theorem submissions_are_lower_cased email st l :
  getSubmissions st = (inr (SArray l), st) ->
  wasEmailSubmitted toLowerCase email st
  = (inr (existsb (element_is (toLowerCase email)) l), st)
  /\ storeSubmission toLowerCase email st
     = (if accessible st && writable st
        then (inr tt,
              write storageKey
                    (Some (Json (SArray (l ++ [Str (toLowerCase email)]))))
                    st)
        else (inr tt, st)).
Proof.
  intros H. split.
  - apply wasEmailSubmitted_array. exact H.
  - apply storeSubmission_array. exact H.
Qed.

(** *** Submitting *)

(** The check keeps a sane rate-limit state sane. *)
Lemma isRateLimited_keeps_sane now st :
  rate_sane st -> rate_sane (snd (isRateLimited now st)).
Proof.
  unfold rate_sane. destruct st as [acc wr subs rate].
  destruct acc; destruct rate as [[ | | [t a | | | ]] | ];
    unfold_storage; cbn -[fiveMinutes]; intros H; try exact H.
  destruct (elapsed_gt now t fiveMinutes); cbn; [exact I | exact H].
Qed.

(** When the check answers true it has written nothing. *)
Lemma isRateLimited_true_unchanged now st :
  fst (isRateLimited now st) = inr true -> snd (isRateLimited now st) = st.
Proof.
  destruct st as [acc wr subs rate].
  destruct acc; destruct rate as [[ | | [t a | | | ]] | ];
    unfold_storage; cbn -[fiveMinutes]; try discriminate; try reflexivity.
  destruct (elapsed_gt now t fiveMinutes); cbn;
    [discriminate | reflexivity].
Qed.

(** What [recordAttempt] leaves behind, on a sane rate-limit state: on a
    storage that can be read and written the object with the time of the
    call and a counter one more than the stored one, 1 when none is
    stored; on any other storage, what it found. *)
Lemma recordAttempt_counts now st :
  rate_sane st ->
  snd (recordAttempt now st)
  = if accessible st && writable st
    then write rateLimitKey
           (Some (Json (RObject (Some now)
                          (Some match attemptCount st with
                                | Some a => (a + 1)%Z
                                | None => 1%Z
                                end))))
           st
    else st.
Proof.
  unfold rate_sane, attemptCount. destruct st as [acc wr subs rate].
  destruct acc, wr; destruct rate as [[ | | [t [a | ] | | | ]] | ];
    cbn; try contradiction; reflexivity.
Qed.

(** C2, as amended: [submitEmail] checks the rate limit first.  When the
    check says limited, the call is rejected with rateLimited and the
    storage is left as it was: no attempt is recorded.  Otherwise the
    call is not rejected with rateLimited and the attempt is recorded
    before the duplicate check: on a storage that can be read and
    written, the rate-limit state at the end of the call is the object
    with the time of the attempt and a counter one more than the check
    left (1 when it left none), whether the call then fails as a
    duplicate, fails on the network, or succeeds; on a storage that
    cannot be read or refuses the write, the rate-limit state stays as
    the check left it and no attempt is counted. *)
Theorem submitEmail_records_attempt_after_check now1 now2 random email st :
  rate_sane st ->
  let checked := isRateLimited now1 st in
  let result :=
    EmailSubmissionHandler.submitEmail toLowerCase now1 now2 random email st
  in
  match fst checked with
  | inr true => result = (inl (Error rateLimited), st)
  | _ =>
      fst result <> inl (Error rateLimited)
      /\ rateLimiting (snd result)
         = if accessible st && writable st
           then Some (Json (RObject (Some now2)
                              (Some match attemptCount (snd checked) with
                                    | Some a => (a + 1)%Z
                                    | None => 1%Z
                                    end)))
           else rateLimiting (snd checked)
  end.
Proof.
  intros Hsane. cbv zeta.
  pose proof (@isRateLimited_keeps_sane now1 st Hsane) as Hsane1.
  pose proof (isRateLimited_true_unchanged now1 st) as Hsame.
  destruct (perform_keeps_submissions (IsRateLimited now1) st)
    as (_ & Ha1 & Hw1).
  cbn [perform] in Ha1, Hw1.
  pose proof (@recordAttempt_counts now2 _ Hsane1) as Hrec.
  rewrite Ha1, Hw1 in Hrec.
  unfold EmailSubmissionHandler.submitEmail, bind.
  destruct (isRateLimited_returns now1 st) as (b & st1 & E1 & _).
  rewrite E1 in *. cbn [fst snd] in *.
  destruct b.
  { rewrite (Hsame eq_refl). reflexivity. }
  destruct (recordAttempt_returns now2 st1) as (st2 & E2 & _).
  rewrite E2 in *. cbn [snd] in Hrec.
  assert (Hrate : rateLimiting st2
                  = if accessible st && writable st
                    then Some (Json (RObject (Some now2)
                                 (Some match attemptCount st1 with
                                       | Some a => (a + 1)%Z
                                       | None => 1%Z
                                       end)))
                    else rateLimiting st1).
  { rewrite Hrec. destruct (accessible st && writable st); reflexivity. }
  destruct (wasEmailSubmitted_returns email st2) as [d ->].
  destruct d; [split; [discriminate | exact Hrate] | ].
  destruct (EmailSubmissionHandler.lt_005 random);
    [split; [discriminate | exact Hrate] | ].
  destruct (storeSubmission_returns email st2) as (st3 & -> & Hr).
  cbn [fst snd]. split; [discriminate | ]. cbn. rewrite Hr. exact Hrate.
Qed.

(** C7: on a working storage that is not rate-limited and whose
    submissions do not have the e-mail, with [Math.random()] not below
    0.05, [submitEmail] stores the submission, is fulfilled with the
    success message, and [wasEmailSubmitted] then answers true. *)
Theorem submitEmail_fresh_succeeds now1 now2 random email st l :
  accessible st = true ->
  writable st = true ->
  fst (isRateLimited now1 st) = inr false ->
  getSubmissions st = (inr (SArray l), st) ->
  fst (wasEmailSubmitted toLowerCase email st) = inr false ->
  EmailSubmissionHandler.lt_005 random = false ->
  let attempted := snd (recordAttempt now2 (snd (isRateLimited now1 st))) in
  let result :=
    EmailSubmissionHandler.submitEmail toLowerCase now1 now2 random email st
  in
  fst result
  = inr {| EmailSubmissionHandler.success := true;
           EmailSubmissionHandler.message := FORM_CONFIG.success |}
  /\ snd result = snd (storeSubmission toLowerCase email attempted)
  /\ emailSubmissions (snd result)
     = Some (Json (SArray (l ++ [Str (toLowerCase email)])))
  /\ fst (wasEmailSubmitted toLowerCase email (snd result)) = inr true.
Proof.
  intros Ha Hw Hlim Hget Hwas Hrnd. cbv zeta.
  unfold EmailSubmissionHandler.submitEmail, bind. rewrite Hrnd.
  destruct (perform_keeps_submissions (IsRateLimited now1) st)
    as (Hs1 & Ha1 & Hw1).
  cbn [perform] in Hs1, Ha1, Hw1.
  destruct (isRateLimited_returns now1 st) as (b & st1 & E1 & _).
  rewrite E1 in *. cbn [fst snd] in *. injection Hlim as ->.
  destruct (perform_keeps_submissions (RecordAttempt now2) st1)
    as (Hs2 & Ha2 & Hw2).
  cbn [perform] in Hs2, Ha2, Hw2.
  destruct (recordAttempt_returns now2 st1) as (st2 & E2 & _).
  rewrite E2 in *. cbn [fst snd] in *.
  assert (Hget2 : getSubmissions st2 = (inr (SArray l), st2)).
  { revert Hget. unfold getSubmissions, try_catch, bind, getItem.
    cbn [read storageKey]. rewrite Ha2, Ha1, Hs2, Hs1, Ha.
    destruct (truthy (emailSubmissions st)) as [[ | | v] | ]; cbn;
      intros E; injection E as E; rewrite E; reflexivity. }
  pose proof (wasEmailSubmitted_array email Hget) as W.
  pose proof (wasEmailSubmitted_array email Hget2) as W2.
  pose proof (storeSubmission_array email Hget2) as S2.
  rewrite W in Hwas. cbn [fst] in Hwas. injection Hwas as Hwas.
  rewrite W2, Hwas, S2. rewrite Ha2, Ha1, Ha, Hw2, Hw1, Hw.
  cbn [andb fst snd write storageKey emailSubmissions].
  repeat split.
  unfold wasEmailSubmitted, getSubmissions, try_catch, bind, getItem.
  cbn. rewrite Ha2, Ha1, Ha. cbn.
  rewrite existsb_app. cbn. unfold str_eqb.
  destruct (list_eq_dec N.eq_dec (toLowerCase email) (toLowerCase email));
    [ | congruence].
  rewrite orb_true_r. reflexivity.
Qed.


(** *** The rate limit *)





End StoreProperties.

(** ** The validator on the examples of the specification *)

Example validate_a_b_co :
  validate (js "a@b.co") = {| isValid := true; message := validEmailAddress |}.
Proof. vm_compute. reflexivity. Qed.

Example validate_bad :
  validate (js "bad") = {| isValid := false; message := tooShort |}.
Proof. vm_compute. reflexivity. Qed.

Example validate_dotdot :
  validate (js "a..b@example.com") = {| isValid := false; message := invalid |}.
Proof. vm_compute. reflexivity. Qed.

Example validate_leading_hyphen :
  validate (js "user@-example.com") = {| isValid := false; message := invalid |}.
Proof. vm_compute. reflexivity. Qed.

Example validate_paren :
  validate (js " a(b@example.com ") = {| isValid := false; message := invalid |}.
Proof. vm_compute. reflexivity. Qed.

(** ** The storage manager on small stores *)

Example attempts_count_up :
  attemptCount (after [RecordAttempt 0; RecordAttempt 10] fresh) = Some 2%Z
  /\ attemptCount
       (after [RecordAttempt 0; IsRateLimited 300001; RecordAttempt 300002]
              fresh) = Some 1%Z.
Proof. split; reflexivity. Qed.

Example null_rate_state_is_left_alone :
  let st := {| accessible := true; writable := true;
               emailSubmissions := None;
               rateLimiting := Some (Json RNull) |} in
  isRateLimited 0 st = (inr false, st) /\ recordAttempt 0 st = (inr tt, st).
Proof. split; reflexivity. Qed.

Example stored_string_is_searched :
  let st := {| accessible := true; writable := true;
               emailSubmissions := Some (Json (SString (js "xa@b.coy")));
               rateLimiting := None |} in
  wasEmailSubmitted ascii_toLowerCase (js "A@B.co") st = (inr true, st)
  /\ storeSubmission ascii_toLowerCase (js "A@B.co") st = (inr tt, st).
Proof. split; reflexivity. Qed.

(** ** The properties on inputs *)

(** C1, as first stated, does not hold: [a(b@example.com] follows every
    rule listed in section 4.1 and is not valid, the pattern having no
    parenthesis among the characters of a local part. *)
Lemma validate_rejects_parenthesis :
  ~ (forall s,
       validate s = {| isValid := true; message := validEmailAddress |}
       <-> 5 <= length (trim s) <= 254 /\ address_ok (trim s)).
Proof.
  intros H. specialize (H (js "a(b@example.com")). destruct H as [_ H].
  assert (K : validate (js "a(b@example.com")
              = {| isValid := true; message := validEmailAddress |}).
  { apply H. change (trim (js "a(b@example.com")) with (js "a(b@example.com").
    split; [cbn; lia | ].
    exists (js "a(b"), (js "example.com"). split; [ | split].
    - split; [reflexivity | ].
      split; apply count_matches_none; reflexivity.
    - apply validateLocalPart_ok. reflexivity.
    - apply validateDomainPart_ok. reflexivity. }
  discriminate K.
Qed.

(** C2, as first stated, does not hold: on a storage that is rate
    limited, [submitEmail] is rejected before any attempt is recorded;
    the counter stays at 3 where [recordAttempt] would have made it 4. *)
Lemma submitEmail_limited_records_nothing :
  ~ (forall toLowerCase now1 now2 random email st,
       rateLimiting
         (snd (EmailSubmissionHandler.submitEmail toLowerCase now1 now2
                 random email st))
       = rateLimiting (snd (recordAttempt now2 (snd (isRateLimited now1 st))))).
Proof.
  intros H.
  specialize (H ascii_toLowerCase 1000%Z 1000%Z (1 # 2)%Q (js "a@b.co")
                limited).
  discriminate H.
Qed.

Lemma limited_submission_rejected :
  EmailSubmissionHandler.submitEmail ascii_toLowerCase 1000 1000 (1 # 2)
    (js "a@b.co") limited
  = (inl (Error rateLimited), limited).
Proof. reflexivity. Qed.



(** C4, as first stated, does not hold: [wasEmailSubmitted] does not
    trim; with [a@b.co] stored, the e-mail [ a@b.co], which normalizes to
    it, is reported as not submitted. *)
Lemma wasEmailSubmitted_does_not_trim :
  ~ (forall toLowerCase email st l,
       getSubmissions st = (inr (SArray l), st) ->
       wasEmailSubmitted toLowerCase email st
       = (inr (existsb (element_is (spec_normalize toLowerCase email)) l),
          st)).
Proof.
  intros H.
  specialize (H ascii_toLowerCase (js " a@b.co") (seeded [js "a@b.co"])
                [Str (js "a@b.co")] eq_refl).
  discriminate H.
Qed.

Lemma submissions_are_lower_cased_witness :
  let st := seeded [js "a@b.co"] in
  wasEmailSubmitted ascii_toLowerCase (js "A@B.co") st = (inr true, st)
  /\ storeSubmission ascii_toLowerCase (js "C@D.co") st
     = (inr tt, seeded [js "a@b.co"; js "c@d.co"]).
Proof.
  split.
  - exact (proj1 (@submissions_are_lower_cased ascii_toLowerCase
                    (js "A@B.co") (seeded [js "a@b.co"])
                    [Str (js "a@b.co")] eq_refl)).
  - exact (proj2 (@submissions_are_lower_cased ascii_toLowerCase
                    (js "C@D.co") (seeded [js "a@b.co"])
                    [Str (js "a@b.co")] eq_refl)).
Defined.

Lemma submitEmail_fresh_succeeds_witness :
  let email := js "new@example.com" in
  let result :=
    EmailSubmissionHandler.submitEmail ascii_toLowerCase 0 0 (1 # 2)
      email fresh
  in
  fst result
  = inr {| EmailSubmissionHandler.success := true;
           EmailSubmissionHandler.message := FORM_CONFIG.success |}
  /\ snd result
     = snd (storeSubmission ascii_toLowerCase email
              (snd (recordAttempt 0 (snd (isRateLimited 0 fresh)))))
  /\ emailSubmissions (snd result) = Some (Json (SArray [Str email]))
  /\ fst (wasEmailSubmitted ascii_toLowerCase email (snd result)) = inr true.
Proof.
  exact (@submitEmail_fresh_succeeds ascii_toLowerCase 0 0 (1 # 2)
           (js "new@example.com") fresh [] eq_refl eq_refl eq_refl eq_refl
           eq_refl eq_refl).
Defined.


Lemma submitEmail_records_attempt_after_check_witness :
  let st := attempted [js "dup@example.com"] 0 2 in
  let result email :=
    EmailSubmissionHandler.submitEmail ascii_toLowerCase 1000 2000 (1 # 2)
      email st
  in
  (fst (result (js "dup@example.com")) <> inl (Error rateLimited)
   /\ rateLimiting (snd (result (js "dup@example.com")))
      = Some (Json (RObject (Some 2000%Z) (Some 3%Z))))
  /\ (fst (result (js "new@example.com")) <> inl (Error rateLimited)
      /\ rateLimiting (snd (result (js "new@example.com")))
         = Some (Json (RObject (Some 2000%Z) (Some 3%Z))))
  /\ EmailSubmissionHandler.submitEmail ascii_toLowerCase 3000 4000 (1 # 2)
       (js "dup@example.com") (snd (result (js "new@example.com")))
     = (inl (Error rateLimited), snd (result (js "new@example.com"))).
Proof.
  split; [ | split].
  - apply (@submitEmail_records_attempt_after_check ascii_toLowerCase
             1000 2000 (1 # 2) (js "dup@example.com")
             (attempted [js "dup@example.com"] 0 2)).
    cbn. lia.
  - apply (@submitEmail_records_attempt_after_check ascii_toLowerCase
             1000 2000 (1 # 2) (js "new@example.com")
             (attempted [js "dup@example.com"] 0 2)).
    cbn. lia.
  - apply (@submitEmail_records_attempt_after_check ascii_toLowerCase
             3000 4000 (1 # 2) (js "dup@example.com")
             (snd (EmailSubmissionHandler.submitEmail ascii_toLowerCase
                     1000 2000 (1 # 2) (js "new@example.com")
                     (attempted [js "dup@example.com"] 0 2)))).
    cbn. lia.
Defined.


(** * More of the validator *)

Module PatternFacts.

Lemma lang_alt_inv r1 r2 s : lang (Alt r1 r2) s -> lang r1 s \/ lang r2 s.
Proof. intros H. inversion H; subst; auto. Qed.

Lemma lang_eps_inv s : lang Eps s -> s = [].
Proof. intros H. inversion H. reflexivity. Qed.

Lemma lang_upto_class_inv p n : forall s,
  lang (Upto n (Class p)) s ->
  Forall (fun c => p c = true) s /\ length s <= n.
Proof.
  induction n as [ | n IH]; intros s H; cbn [Upto] in H.
  - apply lang_eps_inv in H. subst. split; [constructor | cbn; lia].
  - unfold Opt in H. destruct (lang_alt_inv H) as [K | K].
    + destruct (lang_seq_inv K) as (s1 & s2 & -> & H1 & H2).
      destruct (lang_class H1) as (c & -> & Hc).
      destruct (IH _ H2) as [Hall Hlen].
      split; [constructor; assumption | cbn; lia].
    + apply lang_eps_inv in K. subst. split; [constructor | cbn; lia].
Qed.

Lemma alnum_label_char c : is_alnum c = true -> is_label_char c = true.
Proof. unfold is_label_char. intros ->. reflexivity. Qed.

Lemma alnum_not_hyphen c : is_alnum c = true -> c <> ch "-".
Proof. intros H ->. discriminate H. Qed.

(** The pattern of a label describes exactly the labels of section 4.1. *)
Lemma label_regex_lang x : lang label_regex x <-> label_ok x.
Proof.
  split; [ | apply label_in_regex].
  unfold label_regex, Opt. intros H.
  destruct (lang_seq_inv H) as (s1 & s2 & -> & H1 & H2).
  destruct (lang_class H1) as (a & -> & Ha).
  destruct (lang_alt_inv H2) as [K | K].
  - destruct (lang_seq_inv K) as (mid & s3 & -> & Hm & Hb).
    destruct (lang_class Hb) as (b & -> & Hbc).
    destruct (@lang_upto_class_inv _ _ _ Hm) as [Hall Hlen].
    constructor.
    + cbn. rewrite length_app. cbn. lia.
    + constructor; [apply alnum_label_char; exact Ha | ].
      apply Forall_app. split; [exact Hall | ].
      constructor; [apply alnum_label_char; exact Hbc | constructor].
    + cbn. intros E. injection E as E. exact (alnum_not_hyphen Ha E).
    + change ([a] ++ mid ++ [b]) with ((a :: mid) ++ [b]).
      rewrite rev_app_distr. cbn. intros E. injection E as E.
      exact (alnum_not_hyphen Hbc E).
  - apply lang_eps_inv in K. subst. cbn.
    constructor.
    + cbn. lia.
    + constructor; [apply alnum_label_char; exact Ha | constructor].
    + cbn. intros E. injection E as E. exact (alnum_not_hyphen Ha E).
    + cbn. intros E. injection E as E. exact (alnum_not_hyphen Ha E).
Qed.

Lemma dotted_labels_lang s :
  lang (Star (Seq (Class (is_char ".")) label_regex)) s ->
  forall x, label_ok x ->
  exists labels,
    Forall label_ok labels /\ x ++ s = join (ch ".") (x :: labels).
Proof.
  remember (Star (Seq (Class (is_char ".")) label_regex)) as q eqn:Eq.
  intros H.
  induction H as [ | | | | | | r' s1 s2 H1 _ H2 IH2]; try discriminate Eq.
  - intros x Hx. exists []. split; [constructor | apply app_nil_r].
  - injection Eq as ->. intros x Hx.
    destruct (lang_seq_inv H1) as (a & y & -> & Ha & Hy).
    destruct (lang_class Ha) as (c & -> & Hc).
    unfold is_char in Hc. apply N.eqb_eq in Hc. subst c.
    apply label_regex_lang in Hy.
    destruct (IH2 eq_refl y Hy) as (labels & Hall & E).
    exists (y :: labels). split; [constructor; assumption | ].
    change (join (ch ".") (x :: y :: labels))
      with (x ++ ch "." :: join (ch ".") (y :: labels)).
    f_equal. cbn [app]. f_equal. exact E.
Qed.

(** The language of [emailRegex]. *)
Lemma emailRegex_lang t :
  lang VALIDATION.emailRegex t
  <-> exists l labels,
        t = l ++ ch "@" :: join (ch ".") labels
        /\ l <> [] /\ Forall (fun c => is_local_char c = true) l
        /\ labels <> [] /\ Forall label_ok labels.
Proof.
  split.
  - unfold VALIDATION.emailRegex. intros H.
    destruct (lang_seq_inv H) as (l & r & -> & Hl & Hr).
    destruct (lang_seq_inv Hr) as (a & d & -> & Ha & Hd).
    destruct (lang_class Ha) as (c & -> & Hc).
    unfold is_char in Hc. apply N.eqb_eq in Hc. subst c.
    apply lang_plus_class in Hl. destruct Hl as [Hne Hall].
    destruct (lang_seq_inv Hd) as (x & s & -> & Hx & Hs).
    apply label_regex_lang in Hx.
    destruct (dotted_labels_lang Hs Hx) as (labels & Hlab & E).
    exists l, (x :: labels). rewrite E.
    repeat split; try assumption; try discriminate.
    constructor; assumption.
  - intros (l & labels & -> & Hne & Hall & Hlne & Hlab).
    unfold VALIDATION.emailRegex. apply LSeq.
    + apply lang_plus_class. split; assumption.
    + change (ch "@" :: join (ch ".") labels)
        with ([ch "@"] ++ join (ch ".") labels).
      apply LSeq; [constructor; reflexivity | ].
      apply domain_in_regex; assumption.
Qed.

Lemma count_one_parts c : forall s,
  count_matches c s = 1 ->
  exists l d, s = l ++ c :: d /\ ~ In c l /\ ~ In c d.
Proof.
  induction s as [ | x s IH]; cbn; [discriminate | ].
  destruct (N.eqb_spec x c) as [E | E]; intros H.
  - subst x. exists [], s. split; [reflexivity | ].
    split; [intros [] | ]. apply count_matches_none. lia.
  - cbn in H. destruct (IH H) as (l & d & -> & Hl & Hd).
    exists (x :: l), d. split; [reflexivity | ].
    split; [ | exact Hd]. intros [K | K]; [congruence | exact (Hl K)].
Qed.

Lemma join_no_sep c k labels :
  c <> k -> Forall (fun x => ~ In c x) labels -> ~ In c (join k labels).
Proof.
  intros Hne Hall. induction Hall as [ | x rest Hx _ IH]; [intros [] | ].
  cbn [join]. destruct rest as [ | y rest]; [exact Hx | ].
  intros H. apply in_app_or in H. destruct H as [H | [H | H]].
  - exact (Hx H).
  - congruence.
  - exact (IH H).
Qed.

End PatternFacts.
Import PatternFacts.

(** Evaluate the character constants and read the boolean tests of a
    hypothesis as arithmetic. *)
Ltac eval_chars_in H :=
  repeat match type of H with
         | context [ch ?a] =>
             let v := eval vm_compute in (ch a) in change (ch a) with v in H
         | context [js ?a] =>
             let v := eval vm_compute in (js a) in change (js a) with v in H
         end.

Ltac eval_chars :=
  repeat match goal with
         | |- context [ch ?a] =>
             let v := eval vm_compute in (ch a) in change (ch a) with v
         | |- context [js ?a] =>
             let v := eval vm_compute in (js a) in change (js a) with v
         end.

Ltac bool_facts :=
  repeat match goal with
         | H : _ || _ = true |- _ =>
             apply orb_true_iff in H; destruct H as [H | H]
         | H : _ && _ = true |- _ =>
             let H' := fresh H in
             apply andb_true_iff in H; destruct H as [H H']
         | H : (_ <=? _)%N = true |- _ => apply N.leb_le in H
         | H : (_ =? _)%N = true |- _ => apply N.eqb_eq in H
         | H : false = true |- _ => discriminate H
         end.

Module ClassFacts.

Lemma local_char_printable c :
  is_local_char c = true -> is_printable_ascii c = true.
Proof.
  unfold is_local_char, is_alnum, is_alpha, is_digit, is_printable_ascii,
    in_range.
  intros H. eval_chars_in H. cbn [existsb] in H.
  apply andb_true_iff. rewrite !N.leb_le.
  bool_facts; lia.
Qed.

Lemma label_char_printable c :
  is_label_char c = true -> is_printable_ascii c = true.
Proof.
  unfold is_label_char, is_alnum, is_alpha, is_digit, is_char,
    is_printable_ascii, in_range.
  intros H. eval_chars_in H.
  apply andb_true_iff. rewrite !N.leb_le.
  bool_facts; lia.
Qed.

Lemma printable_not_white c :
  is_printable_ascii c = true -> is_white_space c = false.
Proof.
  unfold is_printable_ascii, is_white_space, in_range. intros H.
  bool_facts.
  repeat (apply orb_false_iff; split);
    try (apply andb_false_iff);
    rewrite ?N.leb_gt, ?N.eqb_neq; lia.
Qed.

Lemma join_forall (P : code_unit -> Prop) k labels :
  P k -> Forall (Forall P) labels -> Forall P (join k labels).
Proof.
  intros Hk Hall. induction Hall as [ | x rest Hx _ IH]; [constructor | ].
  cbn [join]. destruct rest as [ | y rest]; [exact Hx | ].
  apply Forall_app. split; [exact Hx | ]. constructor; assumption.
Qed.

End ClassFacts.
Import ClassFacts.

Lemma validate_valid_inv s :
  isValid (validate s) = true ->
  5 <= length (trim s) <= 254
  /\ test VALIDATION.emailRegex (trim s) = true
  /\ validateEmailStructure (trim s) = true.
Proof.
  rewrite validate_trimmed. cbv zeta.
  destruct (str_eqb (trim s) []); [discriminate | ].
  destruct (Nat.ltb_spec (length (trim s)) 5); [discriminate | ].
  destruct (Nat.ltb_spec 254 (length (trim s))); [discriminate | ].
  destruct (test VALIDATION.emailRegex (trim s)); [ | discriminate].
  destruct (validateEmailStructure (trim s)); [ | discriminate].
  intros _. repeat split; assumption.
Qed.

Lemma validateDomainPart_length d :
  validateDomainPart (Some d) = true -> 1 <= length d <= 253.
Proof.
  unfold validateDomainPart.
  destruct (Nat.eqb_spec (length d) 0); [discriminate | ].
  destruct (Nat.ltb_spec 253 (length d)); [discriminate | ].
  intros _. lia.
Qed.

(** X1: [validateEmailStructure] accepts a string exactly when it has
    one [@], a local part of 1 to 64 code units that neither starts nor
    ends with a dot nor has two dots in a row, and a domain of at most
    253 code units made of two or more labels joined by dots, each of 1
    to 63 letters, digits and hyphens with no hyphen first or last, the
    last label being two or more letters. *)
Theorem validateEmailStructure_rules t :
  validateEmailStructure t = true
  <-> exists l d,
        parts_of t l d /\ local_part_ok l /\ domain_ok d /\ length d <= 253.
Proof.
  split.
  - intros H.
    assert (Hc : count_matches (ch "@") t = 1).
    { unfold validateEmailStructure in H.
      destruct (Nat.eqb_spec (count_matches (ch "@") t) 1);
        [assumption | discriminate]. }
    destruct (@count_one_parts (ch "@") t Hc) as (l & d & E & Hl & Hd).
    assert (Hp : parts_of t l d) by (repeat split; assumption).
    rewrite (structure_of_parts Hp) in H.
    apply andb_true_iff in H. destruct H as [H1 H2].
    exists l, d. split; [exact Hp | ]. split; [ | split].
    + apply validateLocalPart_ok. exact H1.
    + apply validateDomainPart_ok. exact H2.
    + apply validateDomainPart_length in H2. lia.
  - intros (l & d & Hp & Hl & Hd & Hlen).
    rewrite (structure_of_parts Hp). apply andb_true_iff. split.
    + apply validateLocalPart_ok. exact Hl.
    + apply domain_ok_validateDomainPart; assumption.
Qed.

(** X2: [validateLocalPart] rejects [undefined] and accepts a string
    exactly when it has 1 to 64 code units, does not start or end with a
    dot and has no two dots in a row; nothing else about its characters
    is looked at. *)
Theorem validateLocalPart_rules local :
  validateLocalPart local = true
  <-> exists l, local = Some l /\ local_part_ok l.
Proof.
  destruct local as [l | ].
  - rewrite validateLocalPart_ok. split.
    + intros H. exists l. split; [reflexivity | exact H].
    + intros (l' & E & H). injection E as ->. exact H.
  - cbn. split; [discriminate | intros (l & E & _); discriminate E].
Qed.

(** X3: [emailRegex] matches exactly the strings made of a non-empty
    run of the allowed local characters, one [@], and one or more
    labels joined by dots; it asks for no dot in the domain and puts no
    bound on the local part. *)
Theorem emailRegex_accepts t :
  test VALIDATION.emailRegex t = true
  <-> exists l labels,
        t = l ++ ch "@" :: join (ch ".") labels
        /\ l <> [] /\ Forall (fun c => is_local_char c = true) l
        /\ labels <> [] /\ Forall label_ok labels.
Proof. rewrite test_lang. apply emailRegex_lang. Qed.

(** X4: once [emailRegex] has matched, the count of [@] is 1, the split
    at [@] gives exactly a non-empty local part and a non-empty domain,
    and every dot-separated part of the domain passes the checks of the
    loop of [validateDomainPart]: those checks of the structural
    validation cannot fail in [validate]. *)
Theorem emailRegex_subsumes_checks t :
  test VALIDATION.emailRegex t = true ->
  count_matches (ch "@") t = 1
  /\ exists l d,
       split (ch "@") t = [l; d] /\ l <> [] /\ d <> []
       /\ forallb domain_part_ok (split (ch ".") d) = true.
Proof.
  intros H. apply test_lang, emailRegex_lang in H.
  destruct H as (l & labels & -> & Hne & Hall & Hlne & Hlab).
  assert (Hl : ~ In (ch "@") l)
    by (exact (@class_excludes is_local_char (ch "@") l eq_refl Hall)).
  assert (Hd : ~ In (ch "@") (join (ch ".") labels)).
  { apply join_no_sep; [discriminate | ].
    eapply Forall_impl; [ | exact Hlab]. intros x Hx.
    apply label_no_sep; [reflexivity | exact Hx]. }
  split.
  - rewrite count_matches_app. cbn [count_matches]. rewrite N.eqb_refl.
    apply count_matches_none in Hl, Hd. lia.
  - exists l, (join (ch ".") labels).
    rewrite (@split_at_first (ch "@") l _ Hl), (@split_whole (ch "@") _ Hd).
    split; [reflexivity | ]. split; [exact Hne | ]. split.
    + assert (K : 1 <= length (join (ch ".") labels)).
      { apply join_length; [ | exact Hlne].
        eapply Forall_impl; [ | exact Hlab]. intros x [[K _] _ _ _].
        exact K. }
      intros E. rewrite E in K. cbn in K. lia.
    + rewrite split_join; [ | exact Hlne | ].
      * apply forallb_forall. intros x Hx. apply domain_part_ok_label.
        rewrite Forall_forall in Hlab. exact (Hlab x Hx).
      * eapply Forall_impl; [ | exact Hlab]. intros x Hx.
        apply label_no_sep; [reflexivity | exact Hx].
Qed.

(** X5: an input that [validate] accepts is, once trimmed, made only of
    printable ASCII characters: no white space inside, no control
    character, nothing outside ASCII. *)
Theorem valid_address_is_printable_ascii s :
  isValid (validate s) = true ->
  Forall (fun c => is_printable_ascii c = true
                   /\ is_white_space c = false) (trim s).
Proof.
  intros H. destruct (validate_valid_inv s H) as (_ & Ht & _).
  apply test_lang, emailRegex_lang in Ht.
  destruct Ht as (l & labels & -> & _ & Hall & _ & Hlab).
  assert (P : forall c, is_printable_ascii c = true ->
                        is_printable_ascii c = true
                        /\ is_white_space c = false).
  { intros c Hc. split; [exact Hc | apply printable_not_white; exact Hc]. }
  apply Forall_app. split.
  - eapply Forall_impl; [ | exact Hall]. intros c Hc.
    apply P, local_char_printable, Hc.
  - constructor; [apply P; reflexivity | ].
    apply join_forall; [apply P; reflexivity | ].
    eapply Forall_impl; [ | exact Hlab]. intros x [_ Hx _ _].
    eapply Forall_impl; [ | exact Hx]. intros c Hc.
    apply P, label_char_printable, Hc.
Qed.

(** ** Renaming characters

    What a character-by-character renaming [f] does to the validator,
    when it keeps the three separators and the classes of the patterns
    and of [trim]. *)

Module Renaming.
Section Rename.

Variable f : code_unit -> code_unit.

Lemma deriv_rename c r : class_stable f r -> deriv (f c) r = deriv c r.
Proof.
  induction r as [ | | p | r1 IH1 r2 IH2 | r1 IH1 r2 IH2 | r IH];
    cbn; intros H; try reflexivity.
  - rewrite H. reflexivity.
  - destruct H as [H1 H2]. rewrite IH1, IH2 by assumption. reflexivity.
  - destruct H as [H1 H2]. rewrite IH1, IH2 by assumption. reflexivity.
  - rewrite IH by assumption. reflexivity.
Qed.

Lemma class_stable_deriv c r : class_stable f r -> class_stable f (deriv c r).
Proof.
  induction r as [ | | p | r1 IH1 r2 IH2 | r1 IH1 r2 IH2 | r IH];
    cbn; intros H; try exact I.
  - destruct (p c); exact I.
  - destruct H as [H1 H2]. destruct (nullable r1); cbn; auto.
  - destruct H as [H1 H2]. auto.
  - auto.
Qed.

Lemma test_rename s : forall r,
  class_stable f r -> test r (map f s) = test r s.
Proof.
  induction s as [ | c s IH]; intros r H; cbn [map test]; [reflexivity | ].
  rewrite deriv_rename by exact H. apply IH, class_stable_deriv, H.
Qed.

Lemma class_stable_upto n r : class_stable f r -> class_stable f (Upto n r).
Proof.
  intros H. induction n as [ | n IH]; cbn; [exact I | ].
  repeat split; assumption.
Qed.

Lemma startsWith_rename p : forall s,
  (forall k c, In k p -> (k =? f c)%N = (k =? c)%N) ->
  startsWith (map f s) p = startsWith s p.
Proof.
  induction p as [ | k p IH]; intros s H; destruct s as [ | c s]; cbn;
    try reflexivity.
  rewrite H by (left; reflexivity).
  rewrite IH; [reflexivity | ].
  intros k' c' Hk. apply H. right. exact Hk.
Qed.

Lemma endsWith_rename p s :
  (forall k c, In k p -> (k =? f c)%N = (k =? c)%N) ->
  endsWith (map f s) p = endsWith s p.
Proof.
  intros H. unfold endsWith. rewrite <- map_rev.
  apply startsWith_rename. intros k c Hk. apply H.
  apply in_rev. exact Hk.
Qed.

Lemma includes_rename p s :
  (forall k c, In k p -> (k =? f c)%N = (k =? c)%N) ->
  includes (map f s) p = includes s p.
Proof.
  intros H. induction s as [ | c s IH]; [reflexivity | ].
  cbn [map includes]. rewrite IH.
  change (f c :: map f s) with (map f (c :: s)).
  rewrite (startsWith_rename p (c :: s) H). reflexivity.
Qed.

Lemma count_matches_rename k s :
  (forall c, (f c =? k)%N = (c =? k)%N) ->
  count_matches k (map f s) = count_matches k s.
Proof.
  intros H. induction s as [ | c s IH]; cbn; [reflexivity | ].
  rewrite H, IH. reflexivity.
Qed.

Lemma split_rename k s :
  (forall c, (f c =? k)%N = (c =? k)%N) ->
  split k (map f s) = map (map f) (split k s).
Proof.
  intros H. induction s as [ | c s IH]; cbn; [reflexivity | ].
  rewrite H, IH. destruct (c =? k)%N; [reflexivity | ].
  destruct (split k s); reflexivity.
Qed.

Lemma trimStart_rename s :
  (forall c, is_white_space (f c) = is_white_space c) ->
  trimStart (map f s) = map f (trimStart s).
Proof.
  intros H. induction s as [ | c s IH]; cbn; [reflexivity | ].
  rewrite H. destruct (is_white_space c); [exact IH | reflexivity].
Qed.

Lemma trim_rename s :
  (forall c, is_white_space (f c) = is_white_space c) ->
  trim (map f s) = map f (trim s).
Proof.
  intros H. unfold trim, trimEnd.
  rewrite (trimStart_rename s H), <- map_rev.
  rewrite (trimStart_rename _ H), map_rev. reflexivity.
Qed.

Lemma last_rename (l : list jsstring) :
  last (map (map f) l) [] = map f (last l []).
Proof.
  induction l as [ | x l IH]; [reflexivity | ].
  destruct l as [ | y l]; [reflexivity | ].
  exact IH.
Qed.

Hypothesis keeps_white : forall c, is_white_space (f c) = is_white_space c.
Hypothesis keeps_local : forall c, is_local_char (f c) = is_local_char c.
Hypothesis keeps_label : forall c, is_label_char (f c) = is_label_char c.
Hypothesis keeps_alnum : forall c, is_alnum (f c) = is_alnum c.
Hypothesis keeps_alpha : forall c, is_alpha (f c) = is_alpha c.
Hypothesis keeps_dot : forall c, (f c =? ch ".")%N = (c =? ch ".")%N.
Hypothesis keeps_at : forall c, (f c =? ch "@")%N = (c =? ch "@")%N.
Hypothesis keeps_hyphen : forall c, (f c =? ch "-")%N = (c =? ch "-")%N.

Lemma keeps_one k :
  (forall c, (f c =? k)%N = (c =? k)%N) ->
  forall k' c, In k' [k] -> (k' =? f c)%N = (k' =? c)%N.
Proof.
  intros H k' c [<- | []]. rewrite (N.eqb_sym k (f c)), (N.eqb_sym k c).
  apply H.
Qed.

Lemma validateLocalPart_rename l :
  validateLocalPart (Some (map f l)) = validateLocalPart (Some l).
Proof.
  unfold validateLocalPart. rewrite length_map.
  change (js ".") with [ch "."]. change (js "..") with [ch "."; ch "."].
  rewrite (startsWith_rename [ch "."] l (keeps_one keeps_dot)).
  rewrite (endsWith_rename [ch "."] l (keeps_one keeps_dot)).
  rewrite (includes_rename [ch "."; ch "."] l).
  - reflexivity.
  - intros k c [<- | Hk]; [ | exact (@keeps_one (ch ".") keeps_dot k c Hk)].
    rewrite (N.eqb_sym (ch ".") (f c)), (N.eqb_sym (ch ".") c).
    apply keeps_dot.
Qed.

Lemma domain_part_ok_rename x :
  domain_part_ok (map f x) = domain_part_ok x.
Proof.
  unfold domain_part_ok. rewrite length_map.
  change (js "-") with [ch "-"].
  rewrite (startsWith_rename [ch "-"] x (keeps_one keeps_hyphen)).
  rewrite (endsWith_rename [ch "-"] x (keeps_one keeps_hyphen)).
  rewrite test_rename; [reflexivity | ].
  cbn. split; exact keeps_label.
Qed.

Lemma validateDomainPart_rename d :
  validateDomainPart (Some (map f d)) = validateDomainPart (Some d).
Proof.
  unfold validateDomainPart. rewrite length_map. cbv zeta.
  rewrite (@split_rename (ch ".") d keeps_dot), length_map, last_rename,
    length_map.
  assert (F : forall parts,
             forallb domain_part_ok (map (map f) parts)
             = forallb domain_part_ok parts).
  { induction parts as [ | x parts IH]; [reflexivity | ].
    cbn [map forallb]. rewrite domain_part_ok_rename, IH. reflexivity. }
  rewrite F.
  rewrite test_rename; [reflexivity | ].
  cbn. split; exact keeps_alpha.
Qed.

Lemma emailRegex_stable : class_stable f VALIDATION.emailRegex.
Proof.
  assert (L : class_stable f label_regex).
  { unfold label_regex, Opt. split; [exact keeps_alnum | ].
    split; [ | exact I].
    split; [apply class_stable_upto; exact keeps_label | exact keeps_alnum]. }
  unfold VALIDATION.emailRegex, Plus. split.
  - split; exact keeps_local.
  - split; [exact keeps_at | ].
    split; [exact L | ]. split; [exact keeps_dot | exact L].
Qed.

Lemma validateEmailStructure_rename t :
  validateEmailStructure (map f t) = validateEmailStructure t.
Proof.
  unfold validateEmailStructure. cbv zeta.
  rewrite (@count_matches_rename (ch "@") t keeps_at),
    (@split_rename (ch "@") t keeps_at).
  destruct (split (ch "@") t) as [ | l [ | d rest]]; cbn [map nth_error].
  - reflexivity.
  - rewrite validateLocalPart_rename. reflexivity.
  - rewrite validateLocalPart_rename, validateDomainPart_rename.
    reflexivity.
Qed.

Theorem validate_rename s : validate (map f s) = validate s.
Proof.
  rewrite !validate_trimmed. cbv zeta.
  rewrite (trim_rename s keeps_white), length_map.
  rewrite (@test_rename _ _ emailRegex_stable), validateEmailStructure_rename.
  replace (str_eqb (map f (trim s)) []) with (str_eqb (trim s) []);
    [reflexivity | ].
  destruct (trim s); reflexivity.
Qed.

End Rename.
End Renaming.

Module LowerFacts.

Lemma capital_range c :
  in_range (ch "A") (ch "Z") c = true -> (65 <= c)%N /\ (c <= 90)%N.
Proof.
  unfold in_range. intros H. eval_chars_in H. bool_facts. lia.
Qed.

Lemma capital_alpha c :
  in_range (ch "A") (ch "Z") c = true ->
  is_alpha c = true /\ is_alpha (c + 32)%N = true.
Proof.
  intros H. pose proof (capital_range c H) as R.
  unfold is_alpha, in_range. eval_chars.
  split; apply orb_true_iff; [right | left];
    apply andb_true_iff; rewrite !N.leb_le; lia.
Qed.

Lemma capital_printable c :
  in_range (ch "A") (ch "Z") c = true ->
  is_printable_ascii c = true /\ is_printable_ascii (c + 32)%N = true.
Proof.
  intros H. pose proof (capital_range c H) as R.
  unfold is_printable_ascii, in_range.
  split; apply andb_true_iff; rewrite !N.leb_le; lia.
Qed.

Lemma lower_alpha c : is_alpha (ascii_lower c) = is_alpha c.
Proof.
  unfold ascii_lower.
  destruct (in_range (ch "A") (ch "Z") c) eqn:E; [ | reflexivity].
  destruct (capital_alpha c E) as [-> ->]. reflexivity.
Qed.

Lemma lower_alnum c : is_alnum (ascii_lower c) = is_alnum c.
Proof.
  unfold ascii_lower.
  destruct (in_range (ch "A") (ch "Z") c) eqn:E; [ | reflexivity].
  unfold is_alnum. destruct (capital_alpha c E) as [-> ->]. reflexivity.
Qed.

Lemma lower_label c : is_label_char (ascii_lower c) = is_label_char c.
Proof.
  unfold ascii_lower.
  destruct (in_range (ch "A") (ch "Z") c) eqn:E; [ | reflexivity].
  unfold is_label_char, is_alnum.
  destruct (capital_alpha c E) as [-> ->]. reflexivity.
Qed.

Lemma lower_local c : is_local_char (ascii_lower c) = is_local_char c.
Proof.
  unfold ascii_lower.
  destruct (in_range (ch "A") (ch "Z") c) eqn:E; [ | reflexivity].
  unfold is_local_char, is_alnum.
  destruct (capital_alpha c E) as [-> ->]. reflexivity.
Qed.

Lemma lower_white c : is_white_space (ascii_lower c) = is_white_space c.
Proof.
  unfold ascii_lower.
  destruct (in_range (ch "A") (ch "Z") c) eqn:E; [ | reflexivity].
  destruct (capital_printable c E) as [P Q].
  rewrite (printable_not_white _ P), (printable_not_white _ Q).
  reflexivity.
Qed.

Lemma lower_separator k c :
  (k < 65)%N -> (ascii_lower c =? k)%N = (c =? k)%N.
Proof.
  intros Hk. unfold ascii_lower.
  destruct (in_range (ch "A") (ch "Z") c) eqn:E; [ | reflexivity].
  pose proof (capital_range c E) as R.
  transitivity false; [ | symmetry]; apply N.eqb_neq; lia.
Qed.

End LowerFacts.
Import LowerFacts.

(** X6: [validate] does not look at the case of ASCII letters: an input
    and the same input with its capitals A to Z lower-cased get the same
    result. *)
Theorem validate_ascii_toLowerCase s :
  validate (ascii_toLowerCase s) = validate s.
Proof.
  change (ascii_toLowerCase s) with (map ascii_lower s).
  apply Renaming.validate_rename.
  - exact lower_white.
  - exact lower_local.
  - exact lower_label.
  - exact lower_alnum.
  - exact lower_alpha.
  - intros c. apply lower_separator. reflexivity.
  - intros c. apply lower_separator. reflexivity.
  - intros c. apply lower_separator. reflexivity.
Qed.

(** * More of the storage manager and of [submitEmail] *)

Section MoreStore.

Variable toLowerCase : jsstring -> jsstring.

Lemma submitted_spec email st :
  wasEmailSubmitted toLowerCase email st
  = (inr (submitted toLowerCase email st), st).
Proof.
  unfold submitted.
  destruct (wasEmailSubmitted_returns toLowerCase email st) as [b ->].
  reflexivity.
Qed.

(** [submitEmail], step by step. *)
Lemma submitEmail_steps now1 now2 random email st :
  EmailSubmissionHandler.submitEmail toLowerCase now1 now2 random email st
  = match isRateLimited now1 st with
    | (inr true, st1) => (inl (Error rateLimited), st1)
    | (_, st1) =>
        let st2 := snd (recordAttempt now2 st1) in
        if submitted toLowerCase email st2
        then (inl (Error alreadySubscribed), st2)
        else if EmailSubmissionHandler.lt_005 random
             then (inl (Error networkError), st2)
             else (inr {| EmailSubmissionHandler.success := true;
                          EmailSubmissionHandler.message :=
                            FORM_CONFIG.success |},
                   snd (storeSubmission toLowerCase email st2))
    end.
Proof.
  unfold EmailSubmissionHandler.submitEmail, bind.
  destruct (isRateLimited_returns now1 st) as (b & st1 & -> & _).
  destruct b; [reflexivity | ]. cbv zeta.
  destruct (recordAttempt_returns now2 st1) as (st2 & -> & _).
  cbn [snd]. rewrite submitted_spec.
  destruct (submitted toLowerCase email st2); [reflexivity | ].
  destruct (EmailSubmissionHandler.lt_005 random); [reflexivity | ].
  destruct (storeSubmission_returns toLowerCase email st2) as (st3 & -> & _).
  reflexivity.
Qed.

Lemma submitted_same email st st' :
  emailSubmissions st' = emailSubmissions st ->
  accessible st' = accessible st ->
  submitted toLowerCase email st' = submitted toLowerCase email st.
Proof.
  intros Hs Ha. unfold submitted, wasEmailSubmitted, getSubmissions,
    try_catch, bind, getItem.
  cbn [read storageKey]. rewrite Hs, Ha.
  destruct (accessible st); [ | reflexivity].
  destruct (truthy (emailSubmissions st)) as [[ | | [l | x | ]] | ];
    reflexivity.
Qed.

Lemma storeSubmission_flags email st :
  accessible (snd (storeSubmission toLowerCase email st)) = accessible st
  /\ writable (snd (storeSubmission toLowerCase email st)) = writable st
  /\ rateLimiting (snd (storeSubmission toLowerCase email st))
     = rateLimiting st.
Proof.
  destruct st as [acc wr subs rate].
  destruct acc, wr; destruct subs as [[ | | [l | x | ]] | ];
    repeat split; reflexivity.
Qed.

(** What [storeSubmission] leaves behind: the array that
    [getSubmissions] returns with the lower-cased address appended, when
    the storage can be read and written and does not hold a string or
    another value that is no array; and what it found when not. *)
Lemma storeSubmission_stores email st :
  if can_store st
  then exists l,
         getSubmissions st = (inr (SArray l), st)
         /\ snd (storeSubmission toLowerCase email st)
            = write storageKey
                (Some (Json (SArray (l ++ [Str (toLowerCase email)])))) st
  else snd (storeSubmission toLowerCase email st) = st.
Proof.
  unfold can_store. destruct st as [acc wr subs rate].
  destruct acc, wr; destruct subs as [[ | | [l | x | ]] | ]; cbn;
    try reflexivity; eexists; split; reflexivity.
Qed.

Lemma existsb_element_app x l y :
  existsb (element_is x) (l ++ [Str y])
  = existsb (element_is x) l || str_eqb y x.
Proof. rewrite existsb_app. cbn. rewrite orb_false_r. reflexivity. Qed.

(** X7: on a storage where [storeSubmission] goes through, after
    [storeSubmission(e)] the answer of [wasEmailSubmitted(e')] is true
    exactly when it was true before or [e'] and [e] have the same lower
    case: the stored address is found again under any spelling of its
    case, and no other address appears. *)
Theorem wasEmailSubmitted_after_store e e' st :
  can_store st = true ->
  submitted toLowerCase e' (snd (storeSubmission toLowerCase e st))
  = submitted toLowerCase e' st
    || str_eqb (toLowerCase e) (toLowerCase e').
Proof.
  unfold can_store. destruct st as [acc wr subs rate].
  destruct acc, wr; try discriminate.
  destruct subs as [[ | | [l | x | ]] | ]; cbn; try discriminate;
    intros _; unfold submitted; cbn;
    rewrite ?existsb_element_app, ?orb_false_r; reflexivity.
Qed.

Lemma submitted_kept_by_store e e' st :
  submitted toLowerCase e st = true ->
  submitted toLowerCase e (snd (storeSubmission toLowerCase e' st)) = true.
Proof.
  destruct st as [acc wr subs rate].
  destruct acc, wr; destruct subs as [[ | | [l | x | ]] | ];
    unfold submitted; cbn; try discriminate; try (intros H; exact H).
  intros H. rewrite existsb_element_app, H. reflexivity.
Qed.

Lemma submitted_kept_by_step e c st :
  submitted toLowerCase e st = true ->
  submitted toLowerCase e (manager_step toLowerCase c st) = true.
Proof.
  intros H. destruct c as [ | e' | e' | now | now | now1 now2 random e'];
    cbn [manager_step].
  - destruct (getSubmissions_returns st) as [v ->]. exact H.
  - rewrite submitted_spec. exact H.
  - apply submitted_kept_by_store. exact H.
  - destruct (perform_keeps_submissions (IsRateLimited now) st)
      as (Hs & Ha & _).
    cbn [perform] in Hs, Ha. rewrite (submitted_same e _ _ Hs Ha). exact H.
  - destruct (perform_keeps_submissions (RecordAttempt now) st)
      as (Hs & Ha & _).
    cbn [perform] in Hs, Ha. rewrite (submitted_same e _ _ Hs Ha). exact H.
  - rewrite submitEmail_steps.
    destruct (perform_keeps_submissions (IsRateLimited now1) st)
      as (Hs1 & Ha1 & _).
    cbn [perform] in Hs1, Ha1.
    assert (H1 : submitted toLowerCase e (snd (isRateLimited now1 st)) = true)
      by (rewrite (submitted_same e _ _ Hs1 Ha1); exact H).
    destruct (isRateLimited now1 st) as [[x | [ | ]] st1]; cbn [snd] in *;
      try exact H1;
      (destruct (perform_keeps_submissions (RecordAttempt now2) st1)
         as (Hs2 & Ha2 & _);
       cbn [perform] in Hs2, Ha2;
       assert (H2 : submitted toLowerCase e (snd (recordAttempt now2 st1))
                    = true)
         by (rewrite (submitted_same e _ _ Hs2 Ha2); exact H1);
       cbv zeta;
       destruct (submitted toLowerCase e' (snd (recordAttempt now2 st1)));
       [exact H2 | ];
       destruct (EmailSubmissionHandler.lt_005 random); [exact H2 | ];
       cbn [snd]; apply submitted_kept_by_store; exact H2).
Qed.

(** X8: an address that [wasEmailSubmitted] reports as submitted stays
    reported through every sequence of calls of the storage manager and
    of [submitEmail]: nothing in this code removes a submission. *)
Theorem submissions_are_never_removed cs : forall e st,
  submitted toLowerCase e st = true ->
  submitted toLowerCase e (manager_run toLowerCase cs st) = true.
Proof.
  induction cs as [ | c cs IH]; intros e st H; [exact H | ].
  unfold manager_run in *. cbn [fold_left].
  apply IH, submitted_kept_by_step, H.
Qed.

(** X9: a second [isRateLimited] at the same time returns what the
    first returned and leaves the storage as the first left it: the
    check removes an expired state once and otherwise changes nothing. *)
Theorem isRateLimited_again now st :
  isRateLimited now (snd (isRateLimited now st))
  = (fst (isRateLimited now st), snd (isRateLimited now st)).
Proof.
  destruct st as [acc wr subs rate].
  destruct acc; destruct rate as [[ | | [t a | | | ]] | ];
    try reflexivity.
  unfold_storage.
  destruct (elapsed_gt now t fiveMinutes) eqn:E; cbn -[fiveMinutes];
    rewrite ?E; reflexivity.
Qed.

End MoreStore.

Section MoreSubmit.

Variable toLowerCase : jsstring -> jsstring.

Lemma isRateLimited_locked now st t a :
  accessible st = true ->
  rateLimiting st = Some (Json (RObject (Some t) (Some a))) ->
  (3 <= a)%Z -> (now - t <= fiveMinutes)%Z ->
  isRateLimited now st = (inr true, st).
Proof.
  intros Ha Hr H3 Hn. destruct st as [acc wr subs rate].
  cbn in Ha, Hr. subst. unfold_storage. cbn [elapsed_gt ge3].
  destruct (now - t >? fiveMinutes)%Z eqn:E;
    [apply Z.gtb_lt in E; lia | ].
  replace (a >=? 3)%Z with true; [reflexivity | ].
  symmetry. apply Z.geb_le. exact H3.
Qed.

Lemma submitEmail_locked now1 now2 random email st t a :
  accessible st = true ->
  rateLimiting st = Some (Json (RObject (Some t) (Some a))) ->
  (3 <= a)%Z -> (now1 - t <= fiveMinutes)%Z ->
  EmailSubmissionHandler.submitEmail toLowerCase now1 now2 random email st
  = (inl (Error rateLimited), st).
Proof.
  intros Ha Hr H3 Hn. rewrite submitEmail_steps.
  rewrite (@isRateLimited_locked now1 st t a Ha Hr H3 Hn). reflexivity.
Qed.

Lemma locked_step c st t a :
  accessible st = true ->
  rateLimiting st = Some (Json (RObject (Some t) (Some a))) ->
  (3 <= a)%Z -> during_lockout t c ->
  manager_step toLowerCase c st = st.
Proof.
  intros Ha Hr H3 Hc.
  destruct c as [ | e | e | now | now | now1 now2 random e];
    cbn [manager_step during_lockout] in *; try contradiction.
  - destruct (getSubmissions_returns st) as [v ->]. reflexivity.
  - rewrite submitted_spec. reflexivity.
  - rewrite (@isRateLimited_locked now st t a Ha Hr H3 Hc). reflexivity.
  - rewrite (@submitEmail_locked now1 now2 random e st t a Ha Hr H3 Hc).
    reflexivity.
Qed.

(** X10: once three or more attempts are counted, every [submitEmail]
    made up to five minutes after the last recorded attempt is rejected
    with rateLimited and changes nothing, and so does any run of such
    submissions, rate-limit checks and reads: rejected submissions are
    not counted and do not push the end of the lockout back. *)
Theorem lockout_is_stable cs st t a :
  accessible st = true ->
  rateLimiting st = Some (Json (RObject (Some t) (Some a))) ->
  (3 <= a)%Z ->
  Forall (during_lockout t) cs ->
  manager_run toLowerCase cs st = st
  /\ forall now1 now2 random email,
       (now1 - t <= fiveMinutes)%Z ->
       EmailSubmissionHandler.submitEmail toLowerCase now1 now2 random
         email st
       = (inl (Error rateLimited), st).
Proof.
  intros Ha Hr H3 Hcs. split.
  - induction Hcs as [ | c cs Hc _ IH]; [reflexivity | ].
    unfold manager_run in *. cbn [fold_left].
    rewrite (@locked_step c st t a Ha Hr H3 Hc). exact IH.
  - intros now1 now2 random email Hn.
    exact (@submitEmail_locked now1 now2 random email st t a Ha Hr H3 Hn).
Qed.

(** X11: the first [submitEmail] made more than five minutes after the
    last recorded attempt is not rejected for the rate limit, whatever
    the count was, and on a writable storage it starts the count again:
    the state it leaves has one attempt, recorded at the time of this
    call. *)
Theorem lockout_ends_after_five_minutes now1 now2 random email st t a :
  accessible st = true ->
  writable st = true ->
  rateLimiting st = Some (Json (RObject (Some t) a)) ->
  (now1 - t > fiveMinutes)%Z ->
  let result :=
    EmailSubmissionHandler.submitEmail toLowerCase now1 now2 random email st
  in
  fst result <> inl (Error rateLimited)
  /\ rateLimiting (snd result)
     = Some (Json (RObject (Some now2) (Some 1%Z))).
Proof.
  intros Ha Hw Hr Hn. cbv zeta. rewrite submitEmail_steps.
  destruct st as [acc wr subs rate]. cbn in Ha, Hw, Hr. subst.
  assert (E : (now1 - t >? fiveMinutes)%Z = true)
    by (apply Z.gtb_lt; lia).
  assert (E1 : isRateLimited now1
                 {| accessible := true; writable := true;
                    emailSubmissions := subs;
                    rateLimiting := Some (Json (RObject (Some t) a)) |}
               = (inr false,
                  {| accessible := true; writable := true;
                     emailSubmissions := subs; rateLimiting := None |})).
  { unfold_storage. cbn [elapsed_gt]. rewrite E. reflexivity. }
  rewrite E1. cbv zeta.
  set (st2 := snd (recordAttempt now2 _)).
  assert (R2 : rateLimiting st2
               = Some (Json (RObject (Some now2) (Some 1%Z))))
    by reflexivity.
  destruct (submitted toLowerCase email st2);
    [split; [discriminate | exact R2] | ].
  destruct (EmailSubmissionHandler.lt_005 random);
    [split; [discriminate | exact R2] | ].
  split; [discriminate | ]. cbn [snd].
  destruct (storeSubmission_flags toLowerCase email st2) as (_ & _ & ->).
  exact R2.
Qed.

(** A submission that passes the check counts one attempt, whatever it
    does next. *)
Lemma submitEmail_counts now1 now2 random email st :
  accessible st = true -> writable st = true ->
  match truthy (rateLimiting st) with
  | None => True
  | Some (Json (RObject (Some t) (Some a))) =>
      (a < 3)%Z /\ (now1 - t <= fiveMinutes)%Z
  | Some _ => False
  end ->
  let st' :=
    snd (EmailSubmissionHandler.submitEmail toLowerCase now1 now2 random
           email st) in
  accessible st' = true /\ writable st' = true
  /\ rateLimiting st'
     = Some (Json (RObject (Some now2)
                           (Some (or0_plus1 (attemptCount st))))).
Proof.
  intros Ha Hw Hr. cbv zeta. rewrite submitEmail_steps.
  destruct st as [acc wr subs rate]. cbn in Ha, Hw. subst.
  assert (E1 : exists st1,
             isRateLimited now1
               {| accessible := true; writable := true;
                  emailSubmissions := subs; rateLimiting := rate |}
             = (inr false, st1)
             /\ st1 = {| accessible := true; writable := true;
                         emailSubmissions := subs; rateLimiting := rate |}).
  { destruct rate as [[ | | [[t | ] [a | ] | | | ]] | ]; cbn in Hr;
      try contradiction; try (eexists; split; reflexivity).
    destruct Hr as [H3 Hn]. eexists. split; [ | reflexivity].
    unfold_storage. cbn [elapsed_gt ge3].
    destruct (now1 - t >? fiveMinutes)%Z eqn:E;
      [apply Z.gtb_lt in E; unfold fiveMinutes in *; lia | ].
    destruct (a >=? 3)%Z eqn:G; [apply Z.geb_le in G; lia | reflexivity]. }
  destruct E1 as (st1 & -> & ->). cbv zeta.
  set (st2 := snd (recordAttempt now2 _)).
  assert (R2 : accessible st2 = true /\ writable st2 = true
               /\ rateLimiting st2
                  = Some (Json (RObject (Some now2)
                          (Some (or0_plus1
                             (attemptCount
                                {| accessible := true; writable := true;
                                   emailSubmissions := subs;
                                   rateLimiting := rate |})))))).
  { subst st2.
    destruct rate as [[ | | [[t | ] [a | ] | | | ]] | ]; cbn in Hr;
      try contradiction; repeat split; reflexivity. }
  destruct (submitted toLowerCase email st2); [exact R2 | ].
  destruct (EmailSubmissionHandler.lt_005 random); [exact R2 | ].
  cbn [snd].
  destruct (storeSubmission_flags toLowerCase email st2) as (-> & -> & ->).
  exact R2.
Qed.

(** X12: starting with no rate-limit state on a working storage, after
    three calls of [submitEmail], each checked no more than five minutes
    after the attempt recorded by the one before, the fourth is rejected
    with rateLimited and changes nothing, whatever the addresses and
    whatever the first three did: a duplicate, a network error and a
    success all count. *)
Theorem fourth_submission_is_limited st
        a1 b1 r1 e1 a2 b2 r2 e2 a3 b3 r3 e3 a4 b4 r4 e4 :
  accessible st = true -> writable st = true ->
  no_rate_state st = true ->
  (a2 - b1 <= fiveMinutes)%Z ->
  (a3 - b2 <= fiveMinutes)%Z ->
  (a4 - b3 <= fiveMinutes)%Z ->
  let st3 :=
    manager_run toLowerCase
      [CallSubmitEmail a1 b1 r1 e1; CallSubmitEmail a2 b2 r2 e2;
       CallSubmitEmail a3 b3 r3 e3] st in
  EmailSubmissionHandler.submitEmail toLowerCase a4 b4 r4 e4 st3
  = (inl (Error rateLimited), st3).
Proof.
  intros Ha Hw Hn H2 H3 H4. unfold manager_run.
  cbn [fold_left manager_step].
  destruct (@submitEmail_counts a1 b1 r1 e1 st Ha Hw) as (Ha1 & Hw1 & R1).
  { unfold no_rate_state in Hn.
    destruct (truthy (rateLimiting st)); [discriminate | exact I]. }
  assert (C0 : or0_plus1 (attemptCount st) = 1%Z).
  { unfold no_rate_state, attemptCount in *.
    destruct (rateLimiting st) as [[ | | v] | ]; try reflexivity;
      discriminate. }
  rewrite C0 in R1.
  set (st1 := snd (EmailSubmissionHandler.submitEmail toLowerCase
                     a1 b1 r1 e1 st)) in *.
  destruct (@submitEmail_counts a2 b2 r2 e2 st1 Ha1 Hw1) as (Ha2 & Hw2 & R2).
  { rewrite R1. cbn. split; [lia | exact H2]. }
  unfold attemptCount in R2. rewrite R1 in R2. cbn [or0_plus1] in R2.
  set (st2 := snd (EmailSubmissionHandler.submitEmail toLowerCase
                     a2 b2 r2 e2 st1)) in *.
  destruct (@submitEmail_counts a3 b3 r3 e3 st2 Ha2 Hw2) as (Ha3 & Hw3 & R3).
  { rewrite R2. cbn. split; [lia | exact H3]. }
  unfold attemptCount in R3. rewrite R2 in R3. cbn [or0_plus1] in R3.
  eapply submitEmail_locked; [exact Ha3 | exact R3 | lia | exact H4].
Qed.

(** X13: [submitEmail] is fulfilled only when [Math.random()] is not
    below 0.05, and when it is rejected, for whatever reason, the stored
    submissions are what they were. *)
Theorem rejected_submission_stores_nothing now1 now2 random email st :
  match
    fst (EmailSubmissionHandler.submitEmail toLowerCase now1 now2 random
           email st)
  with
  | inr _ => EmailSubmissionHandler.lt_005 random = false
  | inl _ =>
      emailSubmissions
        (snd (EmailSubmissionHandler.submitEmail toLowerCase now1 now2
                random email st))
      = emailSubmissions st
  end.
Proof.
  rewrite submitEmail_steps.
  destruct (perform_keeps_submissions (IsRateLimited now1) st)
    as (Hs1 & _ & _).
  cbn [perform] in Hs1.
  destruct (isRateLimited now1 st) as [[x | [ | ]] st1]; cbn [snd] in Hs1;
    try exact Hs1;
    (destruct (perform_keeps_submissions (RecordAttempt now2) st1)
       as (Hs2 & _ & _);
     cbn [perform] in Hs2; cbv zeta;
     destruct (submitted toLowerCase email (snd (recordAttempt now2 st1)));
     [cbn [fst snd]; congruence | ];
     destruct (EmailSubmissionHandler.lt_005 random);
     [cbn [fst snd]; congruence | reflexivity]).
Qed.

(** X14: when the storage cannot be accessed at all, [submitEmail] is
    never rejected for the rate limit or as a duplicate: it fails on the
    network when [Math.random()] is below 0.05 and otherwise reports
    success, and nothing is kept of it. *)
Theorem submitEmail_without_storage now1 now2 random email st :
  accessible st = false ->
  EmailSubmissionHandler.submitEmail toLowerCase now1 now2 random email st
  = (if EmailSubmissionHandler.lt_005 random
     then inl (Error networkError)
     else inr {| EmailSubmissionHandler.success := true;
                 EmailSubmissionHandler.message := FORM_CONFIG.success |},
     st).
Proof.
  intros Ha. destruct st as [acc wr subs rate]. cbn in Ha. subst acc.
  unfold EmailSubmissionHandler.submitEmail. unfold_storage.
  destruct (EmailSubmissionHandler.lt_005 random); reflexivity.
Qed.

End MoreSubmit.

(** * The form handler *)

Module FormFacts.
Import EmailFormHandler.

(** ** Lists of timers *)

Lemma NoDup_map_filter (f : timer -> nat) (p : timer -> bool) l :
  NoDup (map f l) -> NoDup (map f (filter p l)).
Proof.
  induction l as [ | x l IH]; cbn; intros H; [constructor | ].
  apply NoDup_cons_iff in H. destruct H as [Hx Hl].
  destruct (p x); cbn; [ | exact (IH Hl)].
  constructor; [ | exact (IH Hl)].
  intros K. apply Hx. apply in_map_iff in K.
  destruct K as (y & E & Hy). apply filter_In in Hy.
  apply in_map_iff. exists y. tauto.
Qed.

Lemma Forall_filter_keep (P : timer -> Prop) (p : timer -> bool) l :
  Forall P l -> Forall P (filter p l).
Proof.
  intros H. apply Forall_forall. intros x Hx. apply filter_In in Hx.
  rewrite Forall_forall in H. apply H. tauto.
Qed.

(** Removing the timer [id] takes one timer off the list of those that
    satisfy [p] when the timer found satisfies [p], and none otherwise. *)
Lemma filter_remove_id (p : timer -> bool) id : forall l t,
  NoDup (map timer_id l) ->
  find (fun t => timer_id t =? id) l = Some t ->
  length (filter p l)
  = length (filter p (filter (fun t => negb (timer_id t =? id)) l))
    + (if p t then 1 else 0).
Proof.
  induction l as [ | x l IH]; intros t Hnd Hf; [discriminate | ].
  cbn in Hnd. apply NoDup_cons_iff in Hnd. destruct Hnd as [Hx Hl].
  cbn [find filter] in *.
  destruct (Nat.eqb_spec (timer_id x) id) as [E | E].
  - injection Hf as <-. cbn [negb].
    assert (K : filter (fun t => negb (timer_id t =? id)) l = l).
    { clear IH. induction l as [ | y l IHl]; [reflexivity | ].
      cbn in Hx, Hl |- *. apply NoDup_cons_iff in Hl.
      destruct (Nat.eqb_spec (timer_id y) id) as [E' | E'].
      - exfalso. apply Hx. left. congruence.
      - cbn. f_equal. apply IHl; [tauto | tauto]. }
    rewrite K. destruct (p x); cbn; lia.
  - cbn [negb]. cbn [filter]. pose proof (IH t Hl Hf) as K.
    destruct (p x); cbn [length]; lia.
Qed.

Lemma filter_none_id (p : timer -> bool) id : forall l,
  find (fun t => timer_id t =? id) l = None ->
  filter (fun t => negb (timer_id t =? id)) l = l.
Proof.
  induction l as [ | x l IH]; cbn; [reflexivity | ].
  destruct (timer_id x =? id); [discriminate | ].
  cbn. intros H. rewrite (IH H). reflexivity.
Qed.

(** ** What the methods do to the timers *)

(** These methods only write to the page. *)
Lemma core_showError t h : core (showError t h) = core h.
Proof. reflexivity. Qed.
Lemma core_clearError h : core (clearError h) = core h.
Proof. reflexivity. Qed.
Lemma core_showSuccess t h : core (showSuccess t h) = core h.
Proof. reflexivity. Qed.
Lemma core_hideSuccess h : core (hideSuccess h) = core h.
Proof. reflexivity. Qed.
Lemma core_clearMessages h : core (clearMessages h) = core h.
Proof. reflexivity. Qed.
Lemma core_set_value v h : core (set_value v h) = core h.
Proof. reflexivity. Qed.
Lemma core_set_focused b h : core (set_focused b h) = core h.
Proof. reflexivity. Qed.
Lemma core_set_announcement t h : core (set_announcement t h) = core h.
Proof. reflexivity. Qed.

Lemma core_focus h : core (focus h) = core h.
Proof. unfold focus. destruct (focused (emailInput h)); reflexivity. Qed.

Lemma core_validateInput email b h :
  core (snd (validateInput email b h)) = core h.
Proof.
  unfold validateInput. cbv zeta.
  destruct (isValid (validate email)); [destruct b | ]; reflexivity.
Qed.

Lemma core_debounced_validation h : core (debounced_validation h) = core h.
Proof.
  unfold debounced_validation.
  destruct (trim (value (emailInput h))); [reflexivity | ].
  apply core_validateInput.
Qed.

Lemma wf_core h h' : core h' = core h -> timers_wf h -> timers_wf h'.
Proof.
  unfold core. intros E. injection E as E1 E2 E3 E4 E5.
  intros [H1 H2 H3 H4]. constructor; rewrite ?E1, ?E2, ?E4; assumption.
Qed.

Lemma ok_core h h' : core h' = core h -> timers_ok h -> timers_ok h'.
Proof.
  intros E [H1 H2 H3]. pose proof (wf_core E H1) as W.
  unfold core in E. injection E as E1 E2 E3 E4 E5.
  constructor; [exact W | rewrite E1, E3; exact H2 | congruence].
Qed.

Lemma filter_same_id_short (p : timer -> bool) d : forall l,
  NoDup (map timer_id l) ->
  (forall t, In t l -> p t = true -> timer_id t = d) ->
  length (filter p l) <= 1.
Proof.
  induction l as [ | x l IH]; cbn; intros Hnd H; [lia | ].
  apply NoDup_cons_iff in Hnd. destruct Hnd as [Hx Hl].
  assert (IH' : length (filter p l) <= 1)
    by (apply IH; [exact Hl | intros t Ht; apply H; right; exact Ht]).
  destruct (p x) eqn:Px; [ | exact IH'].
  assert (K : filter p l = []).
  { destruct (filter p l) as [ | y ys] eqn:F; [reflexivity | ].
    exfalso. assert (Hy : In y (filter p l)) by (rewrite F; left; reflexivity).
    apply filter_In in Hy. destruct Hy as [Hy Py].
    apply Hx. apply in_map_iff. exists y. split; [ | exact Hy].
    rewrite (H x (or_introl eq_refl) Px).
    apply H; [right; exact Hy | exact Py]. }
  rewrite K. cbn. lia.
Qed.

Lemma debounce_at_most_one h :
  timers_wf h -> length (filter is_debounce (timers h)) <= 1.
Proof.
  intros [H1 H2 H3 H4].
  destruct (debounceTimeout h) as [d | ] eqn:D.
  - apply (@filter_same_id_short is_debounce d); [exact H2 | ].
    intros t Ht Pt. rewrite Forall_forall in H4.
    apply (H4 t Ht) in Pt. congruence.
  - replace (filter is_debounce (timers h)) with (@nil timer); [cbn; lia | ].
    symmetry. induction (timers h) as [ | x l IH]; [reflexivity | ].
    inversion H4 as [ | ? ? Hx Hl]; subst. cbn.
    destruct (is_debounce x) eqn:Px.
    + destruct Hx as [Hx _]. discriminate (Hx eq_refl).
    + apply IH; [inversion H1; assumption | | exact Hl].
      cbn in H2. apply NoDup_cons_iff in H2. tauto.
Qed.

Lemma wf_setTimeout cb ms h :
  cb <> DebouncedValidation ->
  timers_wf h -> timers_wf (snd (setTimeout cb ms h)).
Proof.
  intros Hcb [H1 H2 H3 H4]. constructor; cbn.
  - apply Forall_app. split.
    + eapply Forall_impl; [ | exact H1]. cbn. intros t Ht. lia.
    + constructor; [cbn; lia | constructor].
  - rewrite map_app. apply NoDup_app; [exact H2 | | ].
    + cbn. constructor; [intros [] | constructor].
    + intros i Hi [<- | []]. apply in_map_iff in Hi.
      destruct Hi as (t & E & Ht). rewrite Forall_forall in H1.
      apply H1 in Ht. cbv beta in Ht. cbn in E. lia.
  - intros i Hi. apply H3 in Hi. lia.
  - apply Forall_app. split; [exact H4 | ].
    constructor; [ | constructor]. cbn. split.
    + unfold is_debounce. cbn. destruct cb; try discriminate. congruence.
    + intros E. apply H3 in E. lia.
Qed.

Lemma resume_count_setTimeout cb ms h :
  length (filter is_resume (timers (snd (setTimeout cb ms h))))
  = length (filter is_resume (timers h))
    + match cb with ResumeSubmit _ => 1 | _ => 0 end.
Proof.
  cbn. rewrite filter_app, length_app. cbn. unfold is_resume. cbn.
  destruct cb; reflexivity.
Qed.

Lemma plain_not_debounce cb : plain cb -> cb <> DebouncedValidation.
Proof. intros H ->. exact H. Qed.

Lemma ok_setTimeout cb ms h :
  plain cb -> timers_ok h -> timers_ok (snd (setTimeout cb ms h)).
Proof.
  intros Hcb [H1 H2 H3]. constructor.
  - apply wf_setTimeout; [apply plain_not_debounce; exact Hcb | exact H1].
  - rewrite resume_count_setTimeout, H2.
    destruct cb; try contradiction; cbn; lia.
  - exact H3.
Qed.

Lemma ok_announce text h :
  timers_ok h -> timers_ok (announceToScreenReader text h).
Proof.
  intros H. unfold announceToScreenReader. cbv zeta.
  apply ok_setTimeout; [exact I | ].
  exact (ok_core (core_set_announcement text h) H).
Qed.

Lemma wf_remove id h :
  timers_wf h ->
  timers_wf (set_timers (filter (fun t => negb (timer_id t =? id))
                                (timers h)) (next_id h) h).
Proof.
  intros [H1 H2 H3 H4]. constructor; cbn.
  - apply Forall_filter_keep. exact H1.
  - apply NoDup_map_filter. exact H2.
  - exact H3.
  - apply Forall_filter_keep. exact H4.
Qed.

(** [clearTimeout(this.debounceTimeout)] leaves no debounced validation
    pending and touches no other timer. *)
Lemma ok_clear_debounce h :
  timers_ok h ->
  timers_ok (clearTimeout (debounceTimeout h) h)
  /\ Forall (fun t => is_debounce t = false)
            (timers (clearTimeout (debounceTimeout h) h)).
Proof.
  intros [W R B]. pose proof W as [H1 H2 H3 H4].
  unfold clearTimeout. destruct (debounceTimeout h) as [d | ] eqn:D.
  - split.
    + constructor; [apply wf_remove; exact W | | exact B].
      cbn. rewrite <- R. clear R.
      induction (timers h) as [ | x l IH]; [reflexivity | ].
      inversion H4 as [ | ? ? Hx Hl]; subst.
      inversion H1 as [ | ? ? Bx Bl]; subst.
      cbn in H2. apply NoDup_cons_iff in H2. destruct H2 as [_ H2].
      cbn [filter].
      destruct (Nat.eqb_spec (timer_id x) d) as [E | E]; cbn [negb].
      * assert (Px : is_debounce x = true) by (apply Hx; congruence).
        unfold is_debounce, is_resume in *.
        destruct (callback_of x); try discriminate; apply IH; assumption.
      * cbn [filter]. destruct (is_resume x); cbn [length];
          rewrite IH; auto.
    + cbn. apply Forall_forall. intros t Ht. apply filter_In in Ht.
      destruct Ht as [Ht Hn]. rewrite Forall_forall in H4.
      destruct (is_debounce t) eqn:Pt; [ | reflexivity].
      apply (H4 t Ht) in Pt. injection Pt as Pt.
      rewrite Pt, Nat.eqb_refl in Hn. discriminate Hn.
  - split; [constructor; assumption | ].
    apply Forall_forall. intros t Ht. rewrite Forall_forall in H4.
    destruct (is_debounce t) eqn:Pt; [ | reflexivity].
    apply (H4 t Ht) in Pt. discriminate Pt.
Qed.

Lemma ok_handleInputChange h :
  timers_ok h ->
  timers_ok (handleInputChange h)
  /\ length (filter is_debounce (timers (handleInputChange h))) = 1
  /\ isSubmitting (handleInputChange h) = isSubmitting h.
Proof.
  intros H. destruct (ok_clear_debounce H) as [[W R B] N].
  unfold handleInputChange.
  set (h1 := clearTimeout (debounceTimeout h) h) in *.
  assert (S1 : isSubmitting h1 = isSubmitting h).
  { subst h1. unfold clearTimeout. destruct (debounceTimeout h); reflexivity. }
  cbn. destruct W as [H1 H2 H3 H4]. split; [ | split].
  - constructor; [constructor | | exact B]; cbn.
    + apply Forall_app. split.
      * eapply Forall_impl; [ | exact H1]. cbn. intros t Ht. lia.
      * constructor; [cbn; lia | constructor].
    + rewrite map_app. apply NoDup_app; [exact H2 | | ].
      * cbn. constructor; [intros [] | constructor].
      * intros i Hi [<- | []]. apply in_map_iff in Hi.
        destruct Hi as (t & E & Ht). rewrite Forall_forall in H1.
        apply H1 in Ht. cbv beta in Ht. cbn in E. lia.
    + intros i E. injection E as <-. lia.
    + apply Forall_app. split.
      * apply Forall_forall. intros t Ht. rewrite Forall_forall in N, H1.
        rewrite (N t Ht). split; [discriminate | ].
        intros E. injection E as E. apply H1 in Ht. cbv beta in Ht. lia.
      * constructor; [ | constructor]. cbn. split; reflexivity.
    + rewrite filter_app, length_app. cbn. rewrite <- R. lia.
  - rewrite filter_app, length_app. cbn.
    replace (filter is_debounce (timers h1)) with (@nil timer);
      [reflexivity | ].
    symmetry. clear - N. induction N as [ | x l Hx _ IH]; [reflexivity | ].
    cbn. rewrite Hx. exact IH.
  - exact S1.
Qed.

(** ** Methods that write to the page and set plain timers *)

Lemma extends_refl h : extends h h.
Proof. split; [auto | repeat split; reflexivity]. Qed.

Lemma extends_trans h1 h2 h3 : extends h1 h2 -> extends h2 h3 -> extends h1 h3.
Proof.
  intros (A1 & B1 & C1 & D1) (A2 & B2 & C2 & D2).
  split; [auto | repeat split; congruence].
Qed.

Lemma extends_core h h' : core h' = core h -> extends h h'.
Proof.
  intros E. split; [apply wf_core; exact E | ].
  unfold core in E. injection E as E1 E2 E3 E4 E5.
  repeat split; congruence.
Qed.

Lemma extends_setTimeout cb ms h :
  plain cb -> extends h (snd (setTimeout cb ms h)).
Proof.
  intros Hcb. split; [apply wf_setTimeout, plain_not_debounce, Hcb | ].
  split; [ | split; reflexivity].
  cbn. rewrite filter_app. cbn. unfold is_resume. cbn.
  destruct cb; try contradiction; apply app_nil_r.
Qed.

Lemma extends_announce text h : extends h (announceToScreenReader text h).
Proof.
  unfold announceToScreenReader. cbv zeta.
  eapply extends_trans; [ | apply extends_setTimeout; exact I].
  apply extends_core. reflexivity.
Qed.

Lemma extends_validateInput email b h :
  extends h (snd (validateInput email b h)).
Proof. apply extends_core, core_validateInput. Qed.

Lemma extends_handleSubmissionSuccess result h :
  extends h (handleSubmissionSuccess result h).
Proof.
  unfold handleSubmissionSuccess. cbv zeta.
  eapply extends_trans; [ | apply extends_setTimeout; exact I].
  eapply extends_trans; [ | apply extends_announce].
  apply extends_core. reflexivity.
Qed.

Lemma extends_ok h h' :
  extends h h' -> timers_ok h -> timers_ok h'.
Proof.
  intros (A & B & C & D) [W R Bt].
  constructor; [exact (A W) | rewrite B, C; exact R | congruence].
Qed.

(** What [setSubmittingState] changes. *)
Lemma setSubmittingState_ok (b : bool) h h0 :
  extends h0 h -> timers_wf h0 ->
  length (filter is_resume (timers h)) = (if b then 1 else 0) ->
  timers_ok (setSubmittingState b h).
Proof.
  intros (A & _) W R. specialize (A W). destruct A as [H1 H2 H3 H4].
  constructor; [constructor; assumption | exact R | reflexivity].
Qed.

Section Host.

Variable toLowerCase : jsstring -> jsstring.
Variable host_message : exn -> jsstring.

Lemma extends_handleSubmissionError error h :
  extends h (handleSubmissionError host_message error h).
Proof.
  unfold handleSubmissionError. cbv zeta.
  eapply extends_trans; [ | apply extends_setTimeout; exact I].
  eapply extends_trans; [ | apply extends_announce].
  apply extends_core. reflexivity.
Qed.

Lemma ok_handleSubmit now1 now2 h st :
  timers_ok h ->
  timers_ok (fst (handleSubmit toLowerCase host_message now1 now2 (h, st))).
Proof.
  intros H. unfold handleSubmit.
  destruct (isSubmitting h) eqn:S; [exact H | ].
  destruct (validateInput (trim (value (emailInput h))) true h)
    as [ok h1] eqn:V.
  assert (E1 : extends h h1).
  { pose proof (extends_validateInput (trim (value (emailInput h))) true h)
      as K. rewrite V in K. exact K. }
  destruct ok; cbn [negb].
  - set (h2 := announceToScreenReader _ (setSubmittingState true h1)).
    assert (W2 : timers_wf h2
                 /\ filter is_resume (timers h2) = filter is_resume (timers h)).
    { destruct (extends_announce (js "Submitting your email...")
                  (setSubmittingState true h1)) as (A & B & _).
      destruct E1 as (A1 & B1 & _). destruct H as [W _ _].
      split; [ | subst h2; rewrite B; exact B1].
      apply A. specialize (A1 W). destruct A1 as [K1 K2 K3 K4].
      constructor; assumption. }
    destruct W2 as [W2 R2]. destruct H as [W R Bt]. rewrite S in R.
    destruct (submitEmail_begin toLowerCase now1 now2
                (trim (value (emailInput h))) st) as [[error | u] st'];
      cbn [fst].
    + apply (@setSubmittingState_ok false _ h2);
        [apply extends_handleSubmissionError | exact W2 | ].
      destruct (extends_handleSubmissionError error h2) as (_ & B & _).
      rewrite B, R2. exact R.
    + constructor.
      * apply wf_setTimeout; [discriminate | exact W2].
      * rewrite resume_count_setTimeout, R2, R. reflexivity.
      * reflexivity.
  - cbn [fst]. apply (extends_ok (h := h)); [ | exact H].
    eapply extends_trans; [exact E1 | ].
    eapply extends_trans; [apply extends_announce | ].
    apply extends_core, core_focus.
Qed.

Lemma ok_handleSubmit_resume random email h st h0 :
  extends h0 h -> timers_wf h0 ->
  filter is_resume (timers h) = [] ->
  timers_ok
    (fst (handleSubmit_resume toLowerCase host_message random email (h, st))).
Proof.
  intros E W R. unfold handleSubmit_resume.
  destruct (submitEmail_resume toLowerCase random email st)
    as [[error | result] st']; cbn [fst].
  - apply (@setSubmittingState_ok false _ h0); [ | exact W | ].
    + eapply extends_trans; [exact E | apply extends_handleSubmissionError].
    + destruct (extends_handleSubmissionError error h) as (_ & B & _).
      rewrite B, R. reflexivity.
  - apply (@setSubmittingState_ok false _ h0); [ | exact W | ].
    + eapply extends_trans; [exact E | apply extends_handleSubmissionSuccess].
    + destruct (extends_handleSubmissionSuccess result h) as (_ & B & _).
      rewrite B, R. reflexivity.
Qed.

Lemma ok_dispatch e w :
  timers_ok (fst w) ->
  timers_ok (fst (dispatch toLowerCase host_message e w)).
Proof.
  destruct w as [h st]. cbn [fst]. intros H.
  destruct e as [now1 now2 | v | | | | enter now1 now2 | id random];
    cbn [dispatch].
  - apply ok_handleSubmit. exact H.
  - cbn [fst]. apply ok_handleInputChange.
    exact (ok_core (core_set_value v h) H).
  - destruct (focused (emailInput h)); [exact H | ].
    cbn [fst]. apply (ok_core (h := h)); [reflexivity | exact H].
  - cbn [fst]. exact (ok_core (core_set_focused false h) H).
  - cbn [fst]. apply ok_setTimeout; [exact I | exact H].
  - destruct (enter && negb (isSubmitting h));
      [apply ok_handleSubmit; exact H | exact H].
  - destruct (find (fun t => timer_id t =? id) (timers h)) as [t | ] eqn:F;
      [ | exact H].
    destruct H as [W R Bt].
    set (h1 := set_timers _ (next_id h) h).
    assert (W1 : timers_wf h1) by (apply wf_remove; exact W).
    pose proof (@filter_remove_id is_resume id (timers h) t
                  (ids_differ W) F) as C.
    change (filter (fun t0 => negb (timer_id t0 =? id)) (timers h))
      with (timers h1) in C.
    unfold run_callback.
    assert (Plain : is_resume t = false -> timers_ok h1).
    { intros Pt. rewrite Pt in C.
      constructor; [exact W1 | | exact Bt].
      change (isSubmitting h1) with (isSubmitting h). rewrite <- R. lia. }
    unfold is_resume in Plain, C.
    destruct (callback_of t) as [ | | | | | email]; cbn [fst].
    + exact (ok_core (core_debounced_validation h1) (Plain eq_refl)).
    + apply ok_handleInputChange. exact (Plain eq_refl).
    + exact (ok_core (core_hideSuccess h1) (Plain eq_refl)).
    + exact (ok_core (core_clearError h1) (Plain eq_refl)).
    + exact (ok_core (core_set_announcement [] h1) (Plain eq_refl)).
    + apply (@ok_handleSubmit_resume random email h1 st h1);
        [apply extends_refl | exact W1 | ].
      fold (is_resume) in C.
      assert (L : length (filter is_resume (timers h1)) = 0).
      { change (fun t0 => match callback_of t0 with
                          | ResumeSubmit _ => true
                          | _ => false
                          end) with is_resume in C.
        destruct (isSubmitting h); lia. }
      destruct (filter is_resume (timers h1)); [reflexivity | discriminate L].
Qed.

End Host.

(** ** The two halves of [submitEmail] *)

Section Halves.

Variable toLowerCase : jsstring -> jsstring.

Lemma submitEmail_begin_steps now1 now2 email st :
  submitEmail_begin toLowerCase now1 now2 email st
  = match isRateLimited now1 st with
    | (inr true, st1) => (inl (Error rateLimited), st1)
    | (_, st1) =>
        let st2 := snd (recordAttempt now2 st1) in
        if submitted toLowerCase email st2
        then (inl (Error alreadySubscribed), st2)
        else (inr tt, st2)
    end.
Proof.
  unfold submitEmail_begin, bind.
  destruct (isRateLimited_returns now1 st) as (b & st1 & -> & _).
  destruct b; [reflexivity | ]. cbv zeta.
  destruct (recordAttempt_returns now2 st1) as (st2 & -> & _).
  cbn [snd]. rewrite submitted_spec.
  destruct (submitted toLowerCase email st2); reflexivity.
Qed.

Lemma submitEmail_resume_steps random email st :
  submitEmail_resume toLowerCase random email st
  = if EmailSubmissionHandler.lt_005 random
    then (inl (Error networkError), st)
    else (inr {| EmailSubmissionHandler.success := true;
                 EmailSubmissionHandler.message := FORM_CONFIG.success |},
          snd (storeSubmission toLowerCase email st)).
Proof.
  unfold submitEmail_resume, bind.
  destruct (EmailSubmissionHandler.lt_005 random); [reflexivity | ].
  destruct (storeSubmission_returns toLowerCase email st) as (st' & -> & _).
  reflexivity.
Qed.

(** [submitEmail] is its first half followed by its second. *)
Lemma submitEmail_halves now1 now2 random email st :
  EmailSubmissionHandler.submitEmail toLowerCase now1 now2 random email st
  = bind (submitEmail_begin toLowerCase now1 now2 email)
         (fun _ => submitEmail_resume toLowerCase random email) st.
Proof.
  unfold bind. rewrite submitEmail_steps, submitEmail_begin_steps.
  destruct (isRateLimited now1 st) as [[x | [ | ]] st1]; try reflexivity;
    cbv zeta;
    (destruct (submitted toLowerCase email (snd (recordAttempt now2 st1)));
     [reflexivity | ]; rewrite submitEmail_resume_steps; reflexivity).
Qed.

Lemma submitEmail_begin_submissions now1 now2 email st :
  emailSubmissions (snd (submitEmail_begin toLowerCase now1 now2 email st))
  = emailSubmissions st.
Proof.
  rewrite submitEmail_begin_steps.
  destruct (perform_keeps_submissions (IsRateLimited now1) st)
    as (Hs1 & _ & _).
  cbn [perform] in Hs1.
  destruct (isRateLimited now1 st) as [[x | [ | ]] st1]; cbn [snd] in Hs1;
    try exact Hs1;
    (destruct (perform_keeps_submissions (RecordAttempt now2) st1)
       as (Hs2 & _ & _);
     cbn [perform] in Hs2; cbv zeta;
     destruct (submitted toLowerCase email (snd (recordAttempt now2 st1)));
     cbn [snd]; congruence).
Qed.

(** The first half throws nothing but the two errors of its tests. *)
Lemma submitEmail_begin_errors now1 now2 email st error :
  fst (submitEmail_begin toLowerCase now1 now2 email st) = inl error ->
  error = Error rateLimited \/ error = Error alreadySubscribed.
Proof.
  rewrite submitEmail_begin_steps.
  destruct (isRateLimited now1 st) as [[x | [ | ]] st1]; cbv zeta;
    try (destruct (submitted toLowerCase email (snd (recordAttempt now2 st1))));
    cbn [fst]; intros E; try discriminate E; injection E as <-; auto.
Qed.

End Halves.

End FormFacts.

Section FormProperties.
Import EmailFormHandler FormFacts.

Variable toLowerCase : jsstring -> jsstring.
Variable host_message : exn -> jsstring.

Lemma waiting_setTimeout cb ms h :
  waiting (snd (setTimeout cb ms h))
  = waiting h ++ match cb with ResumeSubmit email => [email] | _ => [] end.
Proof.
  unfold waiting. cbn. rewrite flat_map_app. cbn.
  destruct cb; rewrite ?app_nil_r; reflexivity.
Qed.

(** X15: when the input, trimmed, is not a valid address, [handleSubmit]
    does not reach [submitEmail]: the storage is untouched (no attempt
    is counted), nothing waits to be stored, the handler is not left
    submitting, the input keeps its value, loses the class valid and has
    the focus, and the text of the error element is the message of the
    validator. *)
Theorem handleSubmit_invalid now1 now2 h st :
  isSubmitting h = false ->
  isValid (validate (trim (value (emailInput h)))) = false ->
  let w' := handleSubmit toLowerCase host_message now1 now2 (h, st) in
  snd w' = st
  /\ isSubmitting (fst w') = false
  /\ waiting (fst w') = waiting h
  /\ value (emailInput (fst w')) = value (emailInput h)
  /\ textContent (errorMessage (fst w'))
     = message_text
         (EmailValidator.message (validate (trim (value (emailInput h)))))
  /\ class_valid (emailInput (fst w')) = false
  /\ focused (emailInput (fst w')) = true.
Proof.
  intros S V. cbv zeta. unfold handleSubmit, validateInput.
  rewrite S, V. cbv zeta. cbn [negb fst snd].
  unfold focus.
  set (text := message_text _).
  set (h1 := announceToScreenReader _ _).
  assert (F : focused (emailInput h1) = focused (emailInput h))
    by reflexivity.
  assert (W : waiting h1 = waiting h).
  { subst h1. unfold announceToScreenReader. cbv zeta.
    rewrite waiting_setTimeout. apply app_nil_r. }
  rewrite F. destruct (focused (emailInput h)) eqn:Fh.
  - repeat split; try reflexivity; try exact S; try exact W; exact F.
  - repeat split; try reflexivity; try exact S; exact W.
Qed.

(** X16: in that case the error just shown stays shown only when the
    input had the focus already (the Enter key): otherwise
    [emailInput.focus()] runs the focus listener, whose [clearMessages]
    hides the error again and takes the class error off the input. *)
Theorem handleSubmit_invalid_error_shown now1 now2 h st :
  isSubmitting h = false ->
  isValid (validate (trim (value (emailInput h)))) = false ->
  let h' := fst (handleSubmit toLowerCase host_message now1 now2 (h, st)) in
  class_show (errorMessage h') = focused (emailInput h)
  /\ class_error (emailInput h') = focused (emailInput h)
  /\ aria_invalid (emailInput h') = Some (focused (emailInput h)).
Proof.
  intros S V. cbv zeta. unfold handleSubmit, validateInput.
  rewrite S, V. cbv zeta. cbn [negb fst snd].
  unfold focus.
  set (h1 := announceToScreenReader _ _).
  assert (F : focused (emailInput h1) = focused (emailInput h))
    by reflexivity.
  rewrite F. destruct (focused (emailInput h)) eqn:Fh;
    repeat split; reflexivity.
Qed.

Lemma waiting_setSubmittingState b h :
  waiting (setSubmittingState b h) = waiting h.
Proof. reflexivity. Qed.

Lemma message_text_shown m h :
  let h' := setSubmittingState false
              (handleSubmissionError host_message (Error m) h) in
  textContent (errorMessage h') = message_text m
  /\ class_show (errorMessage h') = true
  /\ class_show (successMessage h') = false
  /\ value (emailInput h') = value (emailInput h)
  /\ isSubmitting h' = false
  /\ disabled (submitButton h') = false
  /\ waiting h' = waiting h.
Proof.
  cbv zeta. unfold handleSubmissionError, error_message.
  destruct (message_text m) as [ | c rest] eqn:T.
  - destruct m; discriminate T.
  - cbv zeta. repeat split; try reflexivity.
    rewrite waiting_setSubmittingState, waiting_setTimeout, app_nil_r.
    unfold announceToScreenReader. cbv zeta.
    rewrite waiting_setTimeout, app_nil_r. reflexivity.
Qed.

(** X17: when the input, trimmed, is a valid address and no submission
    is waiting, [handleSubmit] runs the first half of [submitEmail] on
    the trimmed value.  If that is rejected (rate limit, duplicate) the
    message of the rejection is shown, the input keeps its value and
    the handler is not left submitting; otherwise the handler is
    submitting, the button is disabled, and the trimmed address, and
    nothing else, is added to what waits to be stored. *)
Theorem handleSubmit_valid now1 now2 h st :
  isSubmitting h = false ->
  isValid (validate (trim (value (emailInput h)))) = true ->
  let email := trim (value (emailInput h)) in
  let begun := submitEmail_begin toLowerCase now1 now2 email st in
  let w' := handleSubmit toLowerCase host_message now1 now2 (h, st) in
  snd w' = snd begun
  /\ value (emailInput (fst w')) = value (emailInput h)
  /\ match fst begun with
     | inr _ =>
         isSubmitting (fst w') = true
         /\ disabled (submitButton (fst w')) = true
         /\ waiting (fst w') = waiting h ++ [email]
     | inl error =>
         isSubmitting (fst w') = false
         /\ disabled (submitButton (fst w')) = false
         /\ waiting (fst w') = waiting h
         /\ class_show (errorMessage (fst w')) = true
         /\ exists m,
              error = Error m
              /\ (m = rateLimited \/ m = alreadySubscribed)
              /\ textContent (errorMessage (fst w')) = message_text m
     end.
Proof.
  intros S V. cbv zeta. unfold handleSubmit, validateInput.
  rewrite S, V. cbv zeta. cbn [negb fst snd].
  set (h2 := announceToScreenReader _ _).
  assert (W2 : waiting h2 = waiting h).
  { subst h2. unfold announceToScreenReader. cbv zeta.
    rewrite waiting_setTimeout. apply app_nil_r. }
  assert (V2 : value (emailInput h2) = value (emailInput h))
    by reflexivity.
  pose proof (@submitEmail_begin_errors toLowerCase now1 now2
                (trim (value (emailInput h))) st) as Herr.
  destruct (submitEmail_begin toLowerCase now1 now2
              (trim (value (emailInput h))) st) as [[error | u] st'];
    cbn [fst snd] in *.
  - split; [reflexivity | ].
    destruct (Herr error eq_refl) as [-> | ->];
      destruct (message_text_shown rateLimited h2)
        as (A1 & B1 & _ & D1 & E1 & F1 & G1);
      destruct (message_text_shown alreadySubscribed h2)
        as (A2 & B2 & _ & D2 & E2 & F2 & G2).
    + split; [congruence | ].
      repeat split; try assumption; try congruence.
      exists rateLimited. repeat split; auto.
    + split; [congruence | ].
      repeat split; try assumption; try congruence.
      exists alreadySubscribed. repeat split; auto.
  - split; [reflexivity | ]. split; [exact V2 | ].
    repeat split. rewrite waiting_setTimeout, W2. reflexivity.
Qed.

(** X18: when the timer of a waiting submission runs, the handler stops
    submitting and the button is enabled again, whatever happens.  If
    [Math.random()] is below 0.05 the network error is shown, the
    storage is untouched and the input keeps its value.  Otherwise the
    success message is shown, the error is hidden and the input is
    emptied, whether or not the address could be stored: on a storage
    where [storeSubmission] goes through, the address that was waiting
    (whatever the input holds now) is appended, lower-cased, to the
    stored array; on any other storage nothing is stored and the storage
    is left as it was. *)
Theorem handleSubmit_resume_outcome random email h st :
  let w' :=
    handleSubmit_resume toLowerCase host_message random email (h, st) in
  isSubmitting (fst w') = false
  /\ disabled (submitButton (fst w')) = false
  /\ waiting (fst w') = waiting h
  /\ if EmailSubmissionHandler.lt_005 random
     then snd w' = st
          /\ textContent (errorMessage (fst w')) = message_text networkError
          /\ class_show (errorMessage (fst w')) = true
          /\ class_show (successMessage (fst w')) = false
          /\ value (emailInput (fst w')) = value (emailInput h)
     else (if can_store st
           then exists l,
                  getSubmissions st = (inr (SArray l), st)
                  /\ snd w'
                     = write storageKey
                         (Some (Json (SArray
                                        (l ++ [Str (toLowerCase email)]))))
                         st
           else snd w' = st)
          /\ textContent (successMessage (fst w'))
             = message_text FORM_CONFIG.success
          /\ class_show (successMessage (fst w')) = true
          /\ class_show (errorMessage (fst w')) = false
          /\ value (emailInput (fst w')) = []
          /\ class_valid (emailInput (fst w')) = false.
Proof.
  cbv zeta. unfold handleSubmit_resume.
  rewrite submitEmail_resume_steps.
  destruct (EmailSubmissionHandler.lt_005 random); cbn [fst snd].
  - destruct (message_text_shown networkError h)
      as (A & B & C & D & E & F & G).
    repeat split; assumption.
  - split; [reflexivity | ]. split; [reflexivity | ].
    split.
    { rewrite waiting_setSubmittingState.
      unfold handleSubmissionSuccess. cbv zeta.
      rewrite waiting_setTimeout, app_nil_r.
      unfold announceToScreenReader. cbv zeta.
      rewrite waiting_setTimeout, app_nil_r. reflexivity. }
    split; [exact (storeSubmission_stores toLowerCase email st) | ].
    repeat split; reflexivity.
Qed.

Lemma validate_message s :
  isValid (validate s) = false ->
  In (EmailValidator.message (validate s))
     [required; invalid; tooShort; tooLong].
Proof.
  rewrite validate_trimmed. cbv zeta.
  destruct (str_eqb (trim s) []); [cbn; auto | ].
  destruct (length (trim s) <? 5); [cbn; auto | ].
  destruct (254 <? length (trim s)); [cbn; auto | ].
  destruct (test VALIDATION.emailRegex (trim s)
            && validateEmailStructure (trim s)); [discriminate | cbn; auto].
Qed.

Lemma error_text_validateInput email b h :
  textContent (errorMessage (snd (validateInput email b h)))
  = textContent (errorMessage h)
  \/ In (textContent (errorMessage (snd (validateInput email b h))))
        error_texts.
Proof.
  unfold validateInput. cbv zeta.
  destruct (isValid (validate email)) eqn:V.
  - left. destruct b; reflexivity.
  - right. cbn [snd]. unfold error_texts.
    change (textContent (errorMessage (set_class_valid false
              (showError (message_text
                 (EmailValidator.message (validate email))) h))))
      with (message_text (EmailValidator.message (validate email))).
    apply in_map. pose proof (validate_message email V) as K.
    cbn in K |- *. tauto.
Qed.

Lemma error_text_handleSubmit now1 now2 h st :
  textContent
    (errorMessage
       (fst (handleSubmit toLowerCase host_message now1 now2 (h, st))))
  = textContent (errorMessage h)
  \/ In (textContent
           (errorMessage
              (fst (handleSubmit toLowerCase host_message now1 now2 (h, st)))))
        error_texts.
Proof.
  unfold handleSubmit. destruct (isSubmitting h); [left; reflexivity | ].
  pose proof (error_text_validateInput (trim (value (emailInput h))) true h)
    as K.
  destruct (validateInput (trim (value (emailInput h))) true h)
    as [ok h1]. cbn [snd] in K.
  destruct ok; cbn [negb].
  - pose proof (@submitEmail_begin_errors toLowerCase now1 now2
                  (trim (value (emailInput h))) st) as Herr.
    destruct (submitEmail_begin toLowerCase now1 now2
                (trim (value (emailInput h))) st) as [[error | u] st'];
      cbn [fst] in *.
    + right. destruct (Herr error eq_refl) as [-> | ->].
      * destruct (message_text_shown rateLimited
                    (announceToScreenReader (js "Submitting your email...")
                       (setSubmittingState true h1))) as (A & _).
        rewrite A. apply in_map. cbn. tauto.
      * destruct (message_text_shown alreadySubscribed
                    (announceToScreenReader (js "Submitting your email...")
                       (setSubmittingState true h1))) as (A & _).
        rewrite A. apply in_map. cbn. tauto.
    + exact K.
  - cbn [fst]. unfold focus.
    destruct (focused (emailInput (announceToScreenReader _ h1))); exact K.
Qed.

Lemma handleSubmit_any_host host' now1 now2 w :
  handleSubmit toLowerCase host' now1 now2 w
  = handleSubmit toLowerCase host_message now1 now2 w.
Proof.
  destruct w as [h st]. unfold handleSubmit.
  destruct (isSubmitting h); [reflexivity | ].
  destruct (validateInput (trim (value (emailInput h))) true h) as [ok h1].
  destruct ok; cbn [negb]; [ | reflexivity].
  pose proof (@submitEmail_begin_errors toLowerCase now1 now2
                (trim (value (emailInput h))) st) as Herr.
  destruct (submitEmail_begin toLowerCase now1 now2
              (trim (value (emailInput h))) st) as [[error | u] st'];
    [ | reflexivity].
  destruct (Herr error eq_refl) as [-> | ->]; reflexivity.
Qed.

(** X19: whatever happens to the page, the text of the error element
    either stays what it was or becomes one of seven messages: the four
    of the validator and rateLimited, alreadySubscribed and
    networkError.  The fallback serverError and the message of an
    exception of the host are never shown: the handler behaves the same
    whatever those messages are. *)
Theorem only_known_errors_are_shown e w :
  (textContent (errorMessage (fst (dispatch toLowerCase host_message e w)))
   = textContent (errorMessage (fst w))
   \/ In (textContent
            (errorMessage (fst (dispatch toLowerCase host_message e w))))
         error_texts)
  /\ forall host',
       dispatch toLowerCase host' e w = dispatch toLowerCase host_message e w.
Proof.
  destruct w as [h st].
  destruct e as [now1 now2 | v | | | | enter now1 now2 | id random];
    cbn [dispatch fst].
  - split; [apply error_text_handleSubmit | ].
    intros host'. apply handleSubmit_any_host.
  - split; [left; unfold handleInputChange, clearTimeout;
            destruct (debounceTimeout (set_value v h)); reflexivity
           | reflexivity].
  - split; [ | reflexivity].
    destruct (focused (emailInput h)); left; reflexivity.
  - split; [left | ]; reflexivity.
  - split; [left | ]; reflexivity.
  - destruct (enter && negb (isSubmitting h)).
    + split; [apply error_text_handleSubmit | ].
      intros host'. apply handleSubmit_any_host.
    + split; [left | ]; reflexivity.
  - destruct (find (fun t => timer_id t =? id) (timers h)) as [t | ];
      [ | split; [left | ]; reflexivity].
    unfold run_callback.
    destruct (callback_of t) as [ | | | | | email]; cbn [fst].
    + split; [ | reflexivity]. unfold debounced_validation.
      match goal with
      | |- context [trim (value (emailInput ?x))] =>
          destruct (trim (value (emailInput x))) as [ | c rest];
          [left; reflexivity | ];
          exact (error_text_validateInput (c :: rest) false x)
      end.
    + split; [left; unfold handleInputChange, clearTimeout;
              match goal with
              | |- context [debounceTimeout ?x] =>
                  destruct (debounceTimeout x)
              end; reflexivity
             | reflexivity].
    + split; [left | ]; reflexivity.
    + split; [left | ]; reflexivity.
    + split; [left | ]; reflexivity.
    + unfold handleSubmit_resume. rewrite submitEmail_resume_steps.
      destruct (EmailSubmissionHandler.lt_005 random); cbn [fst].
      * split; [right | reflexivity].
        match goal with
        | |- context [handleSubmissionError host_message _ ?x] =>
            destruct (message_text_shown networkError x) as (A & _)
        end.
        rewrite A. apply in_map. cbn. tauto.
      * split; [left | ]; reflexivity.
Qed.

(** X20: only a submit, the Enter key and the timer of a waiting
    submission can change the storage: typing, pasting, focusing, any
    other key and every other timer, the debounced validation among
    them, leave it as it is. *)
Theorem typing_leaves_storage e w :
  may_submit e (fst w) = false ->
  snd (dispatch toLowerCase host_message e w) = snd w.
Proof.
  destruct w as [h st]. cbn [fst snd].
  destruct e as [now1 now2 | v | | | | enter now1 now2 | id random];
    cbn [may_submit dispatch]; intros H; try discriminate H;
    try reflexivity.
  - destruct (focused (emailInput h)); reflexivity.
  - rewrite H. reflexivity.
  - destruct (find (fun t => timer_id t =? id) (timers h)) as [t | ];
      [ | reflexivity].
    unfold is_resume in H. unfold run_callback.
    destruct (callback_of t); try discriminate H; reflexivity.
Qed.

Lemma handleSubmit_resume_waiting random email h st :
  waiting (fst (handleSubmit_resume toLowerCase host_message random email
                  (h, st)))
  = waiting h.
Proof.
  unfold handleSubmit_resume. rewrite submitEmail_resume_steps.
  destruct (EmailSubmissionHandler.lt_005 random); cbn [fst].
  - destruct (message_text_shown networkError h)
      as (_ & _ & _ & _ & _ & _ & G). exact G.
  - rewrite waiting_setSubmittingState.
    unfold handleSubmissionSuccess. cbv zeta.
    rewrite waiting_setTimeout, app_nil_r.
    unfold announceToScreenReader. cbv zeta.
    rewrite waiting_setTimeout, app_nil_r. reflexivity.
Qed.

(** X21: from a handler whose timers are in order, whatever happens
    to the page, in whatever order the timers run, they stay in order;
    in particular at most one submission waits on its timer at any time
    (a second submit or Enter while one waits starts nothing), and at
    most one debounced validation is pending. *)
Theorem timers_stay_in_order es : forall w,
  timers_ok (fst w) ->
  let h' := fst (dispatch_all toLowerCase host_message es w) in
  timers_ok h'
  /\ length (filter is_resume (timers h')) <= 1
  /\ length (filter is_debounce (timers h')) <= 1.
Proof.
  induction es as [ | e es IH]; intros w H; cbv zeta.
  - cbn. split; [exact H | ]. split.
    + rewrite (one_resume H). destruct (isSubmitting (fst w)); lia.
    + apply debounce_at_most_one, H.
  - unfold dispatch_all in *. cbn [fold_left].
    apply IH, ok_dispatch, H.
Qed.

Lemma waiting_filter (P : jsstring -> Prop) (p : timer -> bool) h :
  Forall P (waiting h) ->
  Forall P (waiting (set_timers (filter p (timers h)) (next_id h) h)).
Proof.
  unfold waiting. cbn. rewrite !Forall_flat_map.
  apply Forall_filter_keep.
Qed.

Lemma waiting_handleInputChange (P : jsstring -> Prop) h :
  Forall P (waiting h) -> Forall P (waiting (handleInputChange h)).
Proof.
  intros H. unfold handleInputChange.
  assert (K : Forall P (waiting (clearTimeout (debounceTimeout h) h))).
  { unfold clearTimeout. destruct (debounceTimeout h); [ | exact H].
    apply waiting_filter. exact H. }
  destruct (setTimeout DebouncedValidation debounceDelay
              (clearTimeout (debounceTimeout h) h)) as [id h2] eqn:E.
  change (waiting (set_debounceTimeout (Some id) h2)) with (waiting h2).
  replace h2 with (snd (setTimeout DebouncedValidation debounceDelay
                          (clearTimeout (debounceTimeout h) h)))
    by (rewrite E; reflexivity).
  rewrite waiting_setTimeout, app_nil_r. exact K.
Qed.

Lemma waiting_announce text h :
  waiting (announceToScreenReader text h) = waiting h.
Proof.
  unfold announceToScreenReader. cbv zeta.
  rewrite waiting_setTimeout. apply app_nil_r.
Qed.

Lemma waiting_handleSubmit now1 now2 h st :
  let h' := fst (handleSubmit toLowerCase host_message now1 now2 (h, st)) in
  waiting h' = waiting h
  \/ exists email,
       waiting h' = waiting h ++ [email]
       /\ isValid (validate email) = true.
Proof.
  cbv zeta. unfold handleSubmit.
  destruct (isSubmitting h); [left; reflexivity | ].
  unfold validateInput. cbv zeta.
  destruct (isValid (validate (trim (value (emailInput h))))) eqn:V;
    cbn [negb].
  - set (h2 := announceToScreenReader _ _).
    assert (W2 : waiting h2 = waiting h)
      by (subst h2; rewrite waiting_announce; reflexivity).
    pose proof (@submitEmail_begin_errors toLowerCase now1 now2
                  (trim (value (emailInput h))) st) as Herr.
    destruct (submitEmail_begin toLowerCase now1 now2
                (trim (value (emailInput h))) st) as [[error | u] st'];
      cbn [fst] in *.
    + left. destruct (Herr error eq_refl) as [-> | ->].
      * destruct (message_text_shown rateLimited h2)
          as (_ & _ & _ & _ & _ & _ & G). congruence.
      * destruct (message_text_shown alreadySubscribed h2)
          as (_ & _ & _ & _ & _ & _ & G). congruence.
    + right. exists (trim (value (emailInput h))).
      rewrite waiting_setTimeout, W2. split; [reflexivity | exact V].
  - left. cbn [fst]. unfold focus.
    set (h1 := announceToScreenReader _ _).
    assert (W1 : waiting h1 = waiting h)
      by (subst h1; rewrite waiting_announce; reflexivity).
    destruct (focused (emailInput h1)); exact W1.
Qed.

Lemma stored_after_store email st :
  isValid (validate email) = true ->
  match emailSubmissions st with
  | None => True
  | Some (Json (SArray l)) => Forall (entry_valid toLowerCase) l
  | Some _ => False
  end ->
  match emailSubmissions (snd (storeSubmission toLowerCase email st)) with
  | None => True
  | Some (Json (SArray l)) => Forall (entry_valid toLowerCase) l
  | Some _ => False
  end.
Proof.
  intros V. destruct st as [acc wr subs rate].
  destruct acc, wr; destruct subs as [[ | | [l | x | ]] | ]; cbn;
    try tauto.
  - intros H. apply Forall_app. split; [exact H | ].
    constructor; [ | constructor]. exists email. split; [reflexivity | exact V].
  - intros _. constructor; [ | constructor].
    exists email. split; [reflexivity | exact V].
Qed.

Lemma stored_valid_dispatch e w :
  stored_valid toLowerCase w ->
  stored_valid toLowerCase (dispatch toLowerCase host_message e w).
Proof.
  destruct w as [h st]. unfold stored_valid. cbn [fst snd].
  intros [Hs Hw].
  assert (Submit : forall now1 now2,
    match emailSubmissions
            (snd (handleSubmit toLowerCase host_message now1 now2 (h, st)))
    with
    | None => True
    | Some (Json (SArray l)) => Forall (entry_valid toLowerCase) l
    | Some _ => False
    end
    /\ Forall (fun e => isValid (validate e) = true)
              (waiting
                 (fst (handleSubmit toLowerCase host_message now1 now2
                         (h, st))))).
  { intros now1 now2. split.
    - replace (emailSubmissions
                 (snd (handleSubmit toLowerCase host_message now1 now2
                         (h, st))))
        with (emailSubmissions st); [exact Hs | ].
      unfold handleSubmit. destruct (isSubmitting h); [reflexivity | ].
      destruct (validateInput (trim (value (emailInput h))) true h)
        as [ok h1].
      destruct ok; cbn [negb]; [ | reflexivity].
      pose proof (submitEmail_begin_submissions toLowerCase now1 now2
                    (trim (value (emailInput h))) st) as K.
      destruct (submitEmail_begin toLowerCase now1 now2
                  (trim (value (emailInput h))) st) as [[error | u] st'];
        cbn [snd] in *; congruence.
    - destruct (waiting_handleSubmit now1 now2 h st)
        as [-> | (email & -> & V)]; [exact Hw | ].
      apply Forall_app. split; [exact Hw | ].
      constructor; [exact V | constructor]. }
  destruct e as [now1 now2 | v | | | | enter now1 now2 | id random];
    cbn [dispatch].
  - apply Submit.
  - cbn [fst snd]. split; [exact Hs | ].
    apply waiting_handleInputChange. exact Hw.
  - destruct (focused (emailInput h)); cbn [fst snd];
      split; assumption.
  - cbn [fst snd]. split; assumption.
  - cbn [fst snd]. split; [exact Hs | ].
    rewrite waiting_setTimeout, app_nil_r. exact Hw.
  - destruct (enter && negb (isSubmitting h)); [apply Submit | ].
    cbn [fst snd]. split; assumption.
  - destruct (find (fun t => timer_id t =? id) (timers h)) as [t | ] eqn:F;
      [ | cbn [fst snd]; split; assumption].
    set (h1 := set_timers _ (next_id h) h).
    assert (W1 : Forall (fun e => isValid (validate e) = true) (waiting h1))
      by (apply waiting_filter; exact Hw).
    unfold run_callback.
    destruct (callback_of t) as [ | | | | | email] eqn:C; cbn [fst snd];
      try (split; [exact Hs | exact W1]).
    + split; [exact Hs | ].
      replace (waiting (debounced_validation h1)) with (waiting h1);
        [exact W1 | ].
      unfold debounced_validation.
      destruct (trim (value (emailInput h1))); [reflexivity | ].
      unfold validateInput. cbv zeta.
      destruct (isValid (validate (c :: j))); reflexivity.
    + split; [exact Hs | ]. apply waiting_handleInputChange. exact W1.
    + assert (V : isValid (validate email) = true).
      { apply find_some in F. destruct F as [Ht _].
        unfold waiting in Hw. rewrite Forall_flat_map in Hw.
        rewrite Forall_forall in Hw. specialize (Hw t Ht).
        rewrite C in Hw. inversion Hw; assumption. }
      pose proof (handleSubmit_resume_waiting random email h1 st) as K.
      unfold handleSubmit_resume in *.
      rewrite submitEmail_resume_steps in *.
      destruct (EmailSubmissionHandler.lt_005 random); cbn [fst snd] in *.
      * split; [exact Hs | rewrite K; exact W1].
      * split; [apply stored_after_store; assumption | rewrite K; exact W1].
Qed.

(** X22: from a storage without submissions, or whose submissions are
    lower-cased valid addresses, whatever happens to the page, every
    stored submission is the lower-cased form of an address that
    [validate] accepts: nothing invalid is ever stored through the
    form. *)
Theorem form_stores_valid_addresses es : forall w,
  stored_valid toLowerCase w ->
  stored_valid toLowerCase (dispatch_all toLowerCase host_message es w).
Proof.
  induction es as [ | e es IH]; intros w H; [exact H | ].
  unfold dispatch_all in *. cbn [fold_left].
  apply IH, stored_valid_dispatch, H.
Qed.

Lemma typing_frame vs : forall w,
  timers_ok (fst w) ->
  let w' := dispatch_all toLowerCase host_message (map InputEvent vs) w in
  timers_ok (fst w')
  /\ snd w' = snd w
  /\ errorMessage (fst w') = errorMessage (fst w)
  /\ successMessage (fst w') = successMessage (fst w)
  /\ isSubmitting (fst w') = isSubmitting (fst w).
Proof.
  induction vs as [ | v vs IH]; intros [h st] H; cbv zeta.
  - split; [exact H | repeat split; reflexivity].
  - unfold dispatch_all in *. cbn [map fold_left dispatch].
    destruct (@ok_handleInputChange (set_value v h)
                (ok_core (core_set_value v h) H)) as (K & _ & S).
    destruct (IH (handleInputChange (set_value v h), st) K)
      as (A & B & C & D & E).
    cbn [fst snd] in *. split; [exact A | ]. split; [exact B | ].
    rewrite C, D, E, S.
    unfold handleInputChange, clearTimeout.
    destruct (debounceTimeout (set_value v h)); repeat split; reflexivity.
Qed.

(** X23: after any run of input events, however many, exactly one
    debounced validation is pending; the input holds what was typed
    last; and nothing has been validated yet: the error and the success
    elements, the storage and [isSubmitting] are as before the first
    keystroke. *)
Theorem typing_is_debounced vs v w :
  timers_ok (fst w) ->
  let w' :=
    dispatch_all toLowerCase host_message (map InputEvent (vs ++ [v])) w in
  length (filter is_debounce (timers (fst w'))) = 1
  /\ value (emailInput (fst w')) = v
  /\ snd w' = snd w
  /\ errorMessage (fst w') = errorMessage (fst w)
  /\ successMessage (fst w') = successMessage (fst w)
  /\ isSubmitting (fst w') = isSubmitting (fst w).
Proof.
  intros H. cbv zeta. unfold dispatch_all.
  rewrite map_app, fold_left_app. cbn [map fold_left].
  destruct (typing_frame vs w H) as (A & B & C & D & E).
  unfold dispatch_all in *.
  destruct (fold_left (fun w e => dispatch toLowerCase host_message e w)
              (map InputEvent vs) w) as [h1 st1].
  cbn [fst snd dispatch] in *.
  destruct (@ok_handleInputChange (set_value v h1)
              (ok_core (core_set_value v h1) A)) as (_ & K & S).
  split; [exact K | ]. rewrite <- B, <- C, <- D, <- E, S.
  unfold handleInputChange, clearTimeout.
  destruct (debounceTimeout (set_value v h1)); repeat split; reflexivity.
Qed.

End FormProperties.

Section Destroy.
Import EmailFormHandler FormFacts.

Lemma waiting_clear_debounce h :
  timers_wf h ->
  waiting (clearTimeout (debounceTimeout h) h) = waiting h.
Proof.
  intros [H1 H2 H3 H4]. unfold clearTimeout.
  destruct (debounceTimeout h) as [d | ] eqn:D; [ | reflexivity].
  unfold waiting. cbn. clear H1 H2 H3.
  induction H4 as [ | x l Hx _ IH]; [reflexivity | ].
  cbn [filter flat_map].
  destruct (Nat.eqb_spec (timer_id x) d) as [E | E]; cbn [negb].
  - assert (Px : is_debounce x = true) by (apply Hx; congruence).
    unfold is_debounce in Px.
    destruct (callback_of x); try discriminate Px. exact IH.
  - cbn [flat_map]. rewrite IH. reflexivity.
Qed.

(** X24: [destroy] cancels the pending debounced validation and nothing
    else: the other timers stay set, and a submission that waits on its
    timer still completes. *)
Theorem destroy_cancels_validation_only h :
  timers_ok h ->
  debounceTimeout h <> Some 0 ->
  timers_ok (destroy h)
  /\ filter is_debounce (timers (destroy h)) = []
  /\ filter (fun t => negb (is_debounce t)) (timers (destroy h))
     = filter (fun t => negb (is_debounce t)) (timers h)
  /\ waiting (destroy h) = waiting h.
Proof.
  intros H Hz.
  assert (E : destroy h = clearTimeout (debounceTimeout h) h).
  { unfold destroy. destruct (debounceTimeout h) as [[ | n] | ];
      [congruence | reflexivity | reflexivity]. }
  rewrite E. destruct (ok_clear_debounce H) as [K N].
  split; [exact K | ]. split; [ | split].
  - clear - N. induction N as [ | x l Hx _ IH]; [reflexivity | ].
    cbn. rewrite Hx. exact IH.
  - destruct H as [[H1 H2 H3 H4] _ _]. unfold clearTimeout.
    destruct (debounceTimeout h) as [d | ] eqn:D; [ | reflexivity].
    cbn. clear - H4.
    induction H4 as [ | x l Hx _ IH]; [reflexivity | ].
    cbn [filter].
    destruct (Nat.eqb_spec (timer_id x) d) as [E | E]; cbn [negb].
    + assert (Px : is_debounce x = true) by (apply Hx; congruence).
      rewrite Px. cbn [negb]. exact IH.
    + cbn [filter]. destruct (negb (is_debounce x)); rewrite IH; reflexivity.
  - apply waiting_clear_debounce. exact (timers_are_wf H).
Qed.

End Destroy.

(** ** More of the rate limit *)

(** X25: on the stored states of this development, whose [timestamp]
    and [attempts] are integers or missing as [recordAttempt] writes
    them, [isRateLimited] answers true exactly when the storage can be
    read and holds an object whose [attempts] is at least 3 and whose
    [timestamp] is missing or at most five minutes old; such a state
    without a timestamp therefore never expires.  Fields of other JSON
    types, which the comparisons would coerce, are outside [rate_value]
    and outside this statement. *)
Theorem isRateLimited_true_iff now st :
  fst (isRateLimited now st) = inr true
  <-> accessible st = true
      /\ exists timestamp attempts,
           rateLimiting st = Some (Json (RObject timestamp (Some attempts)))
           /\ (3 <= attempts)%Z
           /\ match timestamp with
              | Some t => (now - t <= fiveMinutes)%Z
              | None => True
              end.
Proof.
  destruct st as [acc wr subs rate]. cbn [accessible rateLimiting].
  split.
  - destruct acc; [ | discriminate].
    destruct rate as [[ | | [t [a | ] | | | ]] | ]; try discriminate.
    + unfold_storage. cbn [elapsed_gt].
      destruct t as [t | ]; cbn [elapsed_gt ge3].
      * destruct (now - t >? fiveMinutes)%Z eqn:E; [discriminate | ].
        cbn [fst]. intros G. injection G as G. apply Z.geb_le in G.
        split; [reflexivity | ]. exists (Some t), a.
        split; [reflexivity | ]. split; [exact G | ].
        destruct (Z.gtb_spec (now - t) fiveMinutes); [discriminate | lia].
      * cbn [fst]. intros G. injection G as G. apply Z.geb_le in G.
        split; [reflexivity | ]. exists None, a. auto.
    + unfold_storage. destruct (elapsed_gt now t fiveMinutes); discriminate.
  - intros (-> & t & a & -> & G & T).
    unfold_storage. destruct t as [t | ]; cbn [elapsed_gt ge3].
    + destruct (Z.gtb_spec (now - t) fiveMinutes); [lia | ].
      cbn [fst]. f_equal. apply Z.geb_le. exact G.
    + cbn [fst]. f_equal. apply Z.geb_le. exact G.
Qed.

Lemma attempts_add_up ts : forall st t0 a t,
  accessible st = true -> writable st = true ->
  rateLimiting st = Some (Json (RObject t0 (Some a))) ->
  rateLimiting (after (map RecordAttempt (ts ++ [t])) st)
  = Some (Json (RObject (Some t)
                        (Some (a + Z.of_nat (length ts) + 1)%Z))).
Proof.
  induction ts as [ | t1 ts IH]; intros st t0 a t Ha Hw Hr;
    destruct st as [acc wr subs rate]; cbn in Ha, Hw, Hr; subst.
  - unfold after. cbn [app map fold_left perform length].
    unfold_storage. cbn [or0_plus1 snd].
    apply (f_equal (fun z => Some (Json (RObject (Some t) (Some z))))).
    cbn. lia.
  - unfold after in *. cbn [app map fold_left perform].
    rewrite (IH _ (Some t1) (a + 1)%Z t); try reflexivity.
    apply (f_equal (fun z => Some (Json (RObject (Some t) (Some z))))).
    cbn [length]. lia.
Qed.

(** X26: [recordAttempt] by itself never starts a new window: from no
    state on a working storage, any number of calls, however far apart
    in time, leaves the number of calls as the count and the time of
    the last one as the timestamp. *)
Theorem attempts_accumulate ts t st :
  accessible st = true -> writable st = true ->
  no_rate_state st = true ->
  rateLimiting (after (map RecordAttempt (ts ++ [t])) st)
  = Some (Json (RObject (Some t) (Some (Z.of_nat (length ts) + 1)%Z))).
Proof.
  intros Ha Hw Hn. destruct st as [acc wr subs rate].
  cbn in Ha, Hw. subst.
  assert (First : forall now,
            perform (RecordAttempt now)
              {| accessible := true; writable := true;
                 emailSubmissions := subs; rateLimiting := rate |}
            = {| accessible := true; writable := true;
                 emailSubmissions := subs;
                 rateLimiting := Some (Json (RObject (Some now) (Some 1%Z))) |}).
  { intros now. unfold no_rate_state in Hn. cbn in Hn.
    destruct rate as [[ | | v] | ]; try discriminate; reflexivity. }
  destruct ts as [ | t1 ts].
  - unfold after. cbn [app map fold_left]. rewrite First. reflexivity.
  - unfold after. cbn [app map fold_left]. rewrite First.
    pose proof (@attempts_add_up ts
                  {| accessible := true; writable := true;
                     emailSubmissions := subs;
                     rateLimiting :=
                       Some (Json (RObject (Some t1) (Some 1%Z))) |}
                  (Some t1) 1%Z t eq_refl eq_refl eq_refl) as K.
    unfold after in K. rewrite K.
    apply (f_equal (fun z => Some (Json (RObject (Some t) (Some z))))).
    cbn [length]. lia.
Qed.

(** * The further properties on inputs *)

Lemma emailRegex_subsumes_checks_witness :
  count_matches (ch "@") (js "a@b.co") = 1
  /\ exists l d,
       split (ch "@") (js "a@b.co") = [l; d] /\ l <> [] /\ d <> []
       /\ forallb domain_part_ok (split (ch ".") d) = true.
Proof. exact (@emailRegex_subsumes_checks (js "a@b.co") eq_refl). Defined.

Lemma valid_address_is_printable_ascii_witness :
  Forall (fun c => is_printable_ascii c = true /\ is_white_space c = false)
         (trim (js " a@b.co ")).
Proof. exact (@valid_address_is_printable_ascii (js " a@b.co ") eq_refl). Defined.

Lemma wasEmailSubmitted_after_store_witness :
  submitted ascii_toLowerCase (js "A@b.co")
    (snd (storeSubmission ascii_toLowerCase (js "a@B.CO") fresh))
  = submitted ascii_toLowerCase (js "A@b.co") fresh
    || str_eqb (ascii_toLowerCase (js "a@B.CO"))
               (ascii_toLowerCase (js "A@b.co")).
Proof.
  exact (@wasEmailSubmitted_after_store ascii_toLowerCase (js "a@B.CO")
           (js "A@b.co") fresh eq_refl).
Defined.

Lemma submissions_are_never_removed_witness :
  submitted ascii_toLowerCase (js "A@B.co")
    (manager_run ascii_toLowerCase
       [CallStoreSubmission (js "c@d.co");
        CallSubmitEmail 0 0 (1 # 2) (js "e@f.co");
        CallRecordAttempt 5; CallIsRateLimited 400000]
       (seeded [js "a@b.co"]))
  = true.
Proof.
  exact (@submissions_are_never_removed ascii_toLowerCase
           [CallStoreSubmission (js "c@d.co");
            CallSubmitEmail 0 0 (1 # 2) (js "e@f.co");
            CallRecordAttempt 5; CallIsRateLimited 400000]
           (js "A@B.co") (seeded [js "a@b.co"]) eq_refl).
Defined.

Lemma lockout_is_stable_witness :
  manager_run ascii_toLowerCase
    [CallSubmitEmail 1000 1000 (1 # 2) (js "a@b.co");
     CallIsRateLimited 2000;
     CallSubmitEmail 300000 300000 (1 # 2) (js "c@d.co")] limited
  = limited
  /\ forall now1 now2 random email,
       (now1 - 0 <= fiveMinutes)%Z ->
       EmailSubmissionHandler.submitEmail ascii_toLowerCase now1 now2 random
         email limited
       = (inl (Error rateLimited), limited).
Proof.
  apply (@lockout_is_stable ascii_toLowerCase
           [CallSubmitEmail 1000 1000 (1 # 2) (js "a@b.co");
            CallIsRateLimited 2000;
            CallSubmitEmail 300000 300000 (1 # 2) (js "c@d.co")]
           limited 0%Z 3%Z eq_refl eq_refl).
  - vm_compute. discriminate.
  - repeat constructor; vm_compute; discriminate.
Defined.

Lemma lockout_ends_after_five_minutes_witness :
  let result :=
    EmailSubmissionHandler.submitEmail ascii_toLowerCase 300001 300002
      (1 # 2) (js "a@b.co") limited in
  fst result <> inl (Error rateLimited)
  /\ rateLimiting (snd result)
     = Some (Json (RObject (Some 300002%Z) (Some 1%Z))).
Proof.
  exact (@lockout_ends_after_five_minutes ascii_toLowerCase 300001 300002
           (1 # 2) (js "a@b.co") limited 0%Z (Some 3%Z)
           eq_refl eq_refl eq_refl eq_refl).
Defined.

Lemma fourth_submission_is_limited_witness :
  let st3 :=
    manager_run ascii_toLowerCase
      [CallSubmitEmail 0 0 (1 # 2) (js "a@b.co");
       CallSubmitEmail 1000 1000 (1 # 2) (js "a@b.co");
       CallSubmitEmail 2000 2000 (1 # 100) (js "c@d.co")] fresh in
  EmailSubmissionHandler.submitEmail ascii_toLowerCase 3000 3000 (1 # 2)
    (js "e@f.co") st3
  = (inl (Error rateLimited), st3).
Proof.
  apply (@fourth_submission_is_limited ascii_toLowerCase fresh
           0%Z 0%Z (1 # 2) (js "a@b.co")
           1000%Z 1000%Z (1 # 2) (js "a@b.co")
           2000%Z 2000%Z (1 # 100) (js "c@d.co")
           3000%Z 3000%Z (1 # 2) (js "e@f.co") eq_refl eq_refl eq_refl);
    vm_compute; discriminate.
Defined.

Lemma submitEmail_without_storage_witness :
  let denied := {| accessible := false; writable := true;
                   emailSubmissions := Some (Json (SArray [Str (js "a@b.co")]));
                   rateLimiting := Some (Json (RObject (Some 0%Z) (Some 9%Z))) |}
  in
  EmailSubmissionHandler.submitEmail ascii_toLowerCase 1 1 (1 # 2)
    (js "a@b.co") denied
  = (inr {| EmailSubmissionHandler.success := true;
            EmailSubmissionHandler.message := FORM_CONFIG.success |},
     denied).
Proof.
  exact (@submitEmail_without_storage ascii_toLowerCase 1 1 (1 # 2)
           (js "a@b.co")
           {| accessible := false; writable := true;
              emailSubmissions := Some (Json (SArray [Str (js "a@b.co")]));
              rateLimiting := Some (Json (RObject (Some 0%Z) (Some 9%Z))) |}
           eq_refl).
Defined.

(** The handler as built has no timer. *)
Lemma initial_timers_ok : EmailFormHandler.timers_ok EmailFormHandler.initial.
Proof.
  constructor; [constructor | reflexivity | reflexivity]; cbn.
  - constructor.
  - constructor.
  - discriminate.
  - constructor.
Qed.

Lemma handleSubmit_invalid_witness :
  let h := EmailFormHandler.set_value (js " bad ") EmailFormHandler.initial in
  let w' :=
    EmailFormHandler.handleSubmit ascii_toLowerCase (fun _ => []) 0 0
      (h, fresh) in
  snd w' = fresh
  /\ EmailFormHandler.isSubmitting (fst w') = false
  /\ EmailFormHandler.waiting (fst w') = EmailFormHandler.waiting h
  /\ EmailFormHandler.value (EmailFormHandler.emailInput (fst w'))
     = EmailFormHandler.value (EmailFormHandler.emailInput h)
  /\ EmailFormHandler.textContent (EmailFormHandler.errorMessage (fst w'))
     = EmailFormHandler.message_text
         (EmailValidator.message
            (validate
               (trim (EmailFormHandler.value
                        (EmailFormHandler.emailInput h)))))
  /\ EmailFormHandler.class_valid (EmailFormHandler.emailInput (fst w'))
     = false
  /\ EmailFormHandler.focused (EmailFormHandler.emailInput (fst w')) = true.
Proof.
  exact (@handleSubmit_invalid ascii_toLowerCase (fun _ => []) 0 0
           (EmailFormHandler.set_value (js " bad ") EmailFormHandler.initial)
           fresh eq_refl eq_refl).
Defined.

Lemma handleSubmit_invalid_error_shown_witness :
  let h := EmailFormHandler.set_value (js " bad ") EmailFormHandler.initial in
  let h' :=
    fst (EmailFormHandler.handleSubmit ascii_toLowerCase (fun _ => []) 0 0
           (h, fresh)) in
  EmailFormHandler.class_show (EmailFormHandler.errorMessage h')
  = EmailFormHandler.focused (EmailFormHandler.emailInput h)
  /\ EmailFormHandler.class_error (EmailFormHandler.emailInput h')
     = EmailFormHandler.focused (EmailFormHandler.emailInput h)
  /\ EmailFormHandler.aria_invalid (EmailFormHandler.emailInput h')
     = Some (EmailFormHandler.focused (EmailFormHandler.emailInput h)).
Proof.
  exact (@handleSubmit_invalid_error_shown ascii_toLowerCase (fun _ => [])
           0 0
           (EmailFormHandler.set_value (js " bad ") EmailFormHandler.initial)
           fresh eq_refl eq_refl).
Defined.

Lemma handleSubmit_valid_witness :
  let h :=
    EmailFormHandler.set_value (js " New@Example.com ")
      EmailFormHandler.initial in
  let w' :=
    EmailFormHandler.handleSubmit ascii_toLowerCase (fun _ => []) 0 0
      (h, fresh) in
  EmailFormHandler.isSubmitting (fst w') = true
  /\ EmailFormHandler.disabled (EmailFormHandler.submitButton (fst w'))
     = true
  /\ EmailFormHandler.waiting (fst w') = [js "New@Example.com"].
Proof.
  exact (proj2 (proj2
           (@handleSubmit_valid ascii_toLowerCase (fun _ => []) 0 0
              (EmailFormHandler.set_value (js " New@Example.com ")
                 EmailFormHandler.initial)
              fresh eq_refl eq_refl))).
Defined.

Lemma typing_leaves_storage_witness :
  snd (EmailFormHandler.dispatch ascii_toLowerCase (fun _ => [])
         (EmailFormHandler.InputEvent (js "a@b.co"))
         (EmailFormHandler.initial, limited))
  = limited.
Proof.
  exact (@typing_leaves_storage ascii_toLowerCase (fun _ => [])
           (EmailFormHandler.InputEvent (js "a@b.co"))
           (EmailFormHandler.initial, limited) eq_refl).
Defined.

Lemma timers_stay_in_order_witness :
  let h' :=
    fst (EmailFormHandler.dispatch_all ascii_toLowerCase (fun _ => [])
           [EmailFormHandler.InputEvent (js "a@b.co");
            EmailFormHandler.SubmitEvent 0 0;
            EmailFormHandler.KeydownEvent true 1 1;
            EmailFormHandler.SubmitEvent 2 2;
            EmailFormHandler.InputEvent (js "c@d.co")]
           (EmailFormHandler.initial, fresh)) in
  EmailFormHandler.timers_ok h'
  /\ length (filter EmailFormHandler.is_resume (EmailFormHandler.timers h'))
     <= 1
  /\ length (filter EmailFormHandler.is_debounce
                    (EmailFormHandler.timers h')) <= 1.
Proof.
  exact (@timers_stay_in_order ascii_toLowerCase (fun _ => [])
           [EmailFormHandler.InputEvent (js "a@b.co");
            EmailFormHandler.SubmitEvent 0 0;
            EmailFormHandler.KeydownEvent true 1 1;
            EmailFormHandler.SubmitEvent 2 2;
            EmailFormHandler.InputEvent (js "c@d.co")]
           (EmailFormHandler.initial, fresh) initial_timers_ok).
Defined.

Lemma form_stores_valid_addresses_witness :
  stored_valid ascii_toLowerCase
    (EmailFormHandler.dispatch_all ascii_toLowerCase (fun _ => [])
       [EmailFormHandler.InputEvent (js " A@B.co ");
        EmailFormHandler.SubmitEvent 0 0;
        EmailFormHandler.InputEvent (js "not an address");
        EmailFormHandler.TimerEvent 3 (1 # 2)]
       (EmailFormHandler.initial, fresh)).
Proof.
  exact (@form_stores_valid_addresses ascii_toLowerCase (fun _ => [])
           [EmailFormHandler.InputEvent (js " A@B.co ");
            EmailFormHandler.SubmitEvent 0 0;
            EmailFormHandler.InputEvent (js "not an address");
            EmailFormHandler.TimerEvent 3 (1 # 2)]
           (EmailFormHandler.initial, fresh)
           (conj I (Forall_nil _))).
Defined.

Lemma typing_is_debounced_witness :
  let w' :=
    EmailFormHandler.dispatch_all ascii_toLowerCase (fun _ => [])
      (map EmailFormHandler.InputEvent ([js "a"; js "a@"] ++ [js "a@b"]))
      (EmailFormHandler.initial, fresh) in
  length (filter EmailFormHandler.is_debounce
                 (EmailFormHandler.timers (fst w'))) = 1
  /\ EmailFormHandler.value (EmailFormHandler.emailInput (fst w')) = js "a@b"
  /\ snd w' = fresh
  /\ EmailFormHandler.errorMessage (fst w')
     = EmailFormHandler.errorMessage EmailFormHandler.initial
  /\ EmailFormHandler.successMessage (fst w')
     = EmailFormHandler.successMessage EmailFormHandler.initial
  /\ EmailFormHandler.isSubmitting (fst w') = false.
Proof.
  exact (@typing_is_debounced ascii_toLowerCase (fun _ => [])
           [js "a"; js "a@"] (js "a@b")
           (EmailFormHandler.initial, fresh) initial_timers_ok).
Defined.

(** The form, end to end: an address typed with capitals and spaces is
    submitted and stored trimmed and lower-cased, while what the user
    types during the wait is not. *)
Example form_end_to_end :
  let w' :=
    EmailFormHandler.dispatch_all ascii_toLowerCase (fun _ => [])
      [EmailFormHandler.InputEvent (js " A@B.co ");
       EmailFormHandler.SubmitEvent 0 0;
       EmailFormHandler.InputEvent (js "not an address");
       EmailFormHandler.TimerEvent 3 (1 # 2)]
      (EmailFormHandler.initial, fresh) in
  emailSubmissions (snd w') = Some (Json (SArray [Str (js "a@b.co")]))
  /\ attemptCount (snd w') = Some 1%Z
  /\ EmailFormHandler.isSubmitting (fst w') = false
  /\ EmailFormHandler.value (EmailFormHandler.emailInput (fst w')) = []
  /\ EmailFormHandler.class_show (EmailFormHandler.successMessage (fst w'))
     = true.
Proof. vm_compute. repeat split; reflexivity. Qed.

Lemma destroy_cancels_validation_only_witness :
  let h :=
    EmailFormHandler.handleInputChange
      (EmailFormHandler.set_value (js "a@b.co") EmailFormHandler.initial) in
  EmailFormHandler.timers_ok (EmailFormHandler.destroy h)
  /\ filter EmailFormHandler.is_debounce
            (EmailFormHandler.timers (EmailFormHandler.destroy h)) = []
  /\ filter (fun t => negb (EmailFormHandler.is_debounce t))
            (EmailFormHandler.timers (EmailFormHandler.destroy h))
     = filter (fun t => negb (EmailFormHandler.is_debounce t))
              (EmailFormHandler.timers h)
  /\ EmailFormHandler.waiting (EmailFormHandler.destroy h)
     = EmailFormHandler.waiting h.
Proof.
  apply destroy_cancels_validation_only.
  - apply FormFacts.ok_handleInputChange.
    exact (FormFacts.ok_core
             (FormFacts.core_set_value (js "a@b.co") EmailFormHandler.initial)
             initial_timers_ok).
  - vm_compute. discriminate.
Defined.

Lemma attempts_accumulate_witness :
  rateLimiting
    (after (map RecordAttempt ([0; 86400000; 172800000] ++ [259200000])%Z)
           fresh)
  = Some (Json (RObject (Some 259200000%Z)
                        (Some (Z.of_nat (length [0; 86400000; 172800000]%Z)
                               + 1)%Z))).
Proof.
  exact (@attempts_accumulate [0; 86400000; 172800000]%Z 259200000%Z fresh
           eq_refl eq_refl eq_refl).
Defined.
